(** * Disaster Response Coordination Platform: backend services

    A shallow embedding of the backend's cache adapter, retry helper,
    geocoding / social-media / official-updates services, the image
    verification status rule and the disaster audit trail, together with
    the properties the specification states about them.

    Conventions of the embedding
    - JavaScript strings are [string]s of 8-bit characters; [toLowerCase]
      folds the ASCII letters A-Z and leaves every other character alone.
    - JavaScript numbers that hold counts, scores and millisecond
      timestamps are [Z]; numbers that may be fractional (coordinates,
      confidence, TTL hours) are [Q]. Page numbers, which a caller may
      make as large as it likes, are also computed as the doubles they
      are ([Doubles]).
    - [async] functions are computations in the monad [M]: they thread a
      [World] (database client, wall clock, time zone, network, event
      trace) and either return a value or throw. Where a claim depends
      on what runs between two [await]s of a handler, the handler's
      parts are separate steps ([Audit.step]).
    - Calls to the logger only write log lines and are left out, except
      that a [catch] block which logs [error.message] is shown reading
      that property. *)

From Stdlib Require Import ZArith QArith Qround String Ascii DecimalString List Bool Lia.
From stdpp Require Import base option gmap strings.
Import ListNotations.

Local Open Scope string_scope.
Local Open Scope Z_scope.

(* ===================================================================== *)
(** ** JavaScript string primitives *)
(* ===================================================================== *)

Module JsString.

(** [c.toLowerCase()] on one ASCII character. *)
Definition lower_ascii (c : ascii) : ascii :=
  let n := nat_of_ascii c in
  if ((65 <=? n)%nat && (n <=? 90)%nat)%bool then ascii_of_nat (n + 32) else c.

(** [String.prototype.toLowerCase]. *)
Fixpoint toLowerCase (s : string) : string :=
  match s with
  | EmptyString => EmptyString
  | String c s' => String (lower_ascii c) (toLowerCase s')
  end.

(** [s.startsWith(p)]. *)
Fixpoint startsWith (s p : string) {struct p} : bool :=
  match p, s with
  | EmptyString, _ => true
  | String _ _, EmptyString => false
  | String a p', String b s' => (Ascii.eqb a b && startsWith s' p')%bool
  end.

(** [s.includes(sub)]: [sub] starts at some position of [s]. *)
Fixpoint includes (s sub : string) : bool :=
  (startsWith s sub ||
   match s with
   | EmptyString => false
   | String _ s' => includes s' sub
   end)%bool.

(** [parts.join(sep)]. *)
Fixpoint join (sep : string) (parts : list string) : string :=
  match parts with
  | [] => ""
  | [p] => p
  | p :: rest => p ++ sep ++ join sep rest
  end.

(** [s.slice(0, n)]. *)
Fixpoint take (n : nat) (s : string) : string :=
  match n, s with
  | S n', String c s' => String c (take n' s')
  | _, _ => EmptyString
  end.

(** What the specification calls a case-insensitive substring match:
    some contiguous piece of [text] equals [kw] once both are
    lower-cased. *)
Definition occurs_ci (kw text : string) : Prop :=
  exists pre mid post,
    text = pre ++ mid ++ post /\ toLowerCase mid = toLowerCase kw.

(** A string [toLowerCase] leaves as it is. *)
Definition lower_case (kw : string) : Prop := toLowerCase kw = kw.

End JsString.
Import JsString.

(* ===================================================================== *)
(** ** Social media heuristics (socialMediaService.js) *)
(* ===================================================================== *)

Module Heuristics.

Definition urgentKeywords : list string :=
  ["urgent"; "sos"; "emergency"; "trapped"; "medical"; "help"; "critical"].
Definition moderateKeywords : list string :=
  ["need"; "assistance"; "shelter"; "food"; "water"; "supplies"].
Definition lowKeywords : list string :=
  ["update"; "info"; "volunteer"; "available"].

(** Body of the three [forEach] loops: [if (text.includes(keyword)) score += w]. *)
Definition bump (text : string) (w : Z) (score : Z) (keyword : string) : Z :=
  if includes text keyword then score + w else score.

Definition _calculatePriorityScore (content : string) : Z :=
  let text := toLowerCase content in
  let score := 1 in
  let score := fold_left (bump text 3) urgentKeywords score in
  let score := fold_left (bump text 2) moderateKeywords score in
  let score := fold_left (bump text 1) lowKeywords score in
  Z.min 10 score.

Definition negativeWords : list string :=
  ["help"; "trapped"; "emergency"; "urgent"; "disaster"; "damage"; "destroyed"; "need"].
Definition positiveWords : list string :=
  ["safe"; "rescued"; "available"; "restored"; "volunteer"; "helping"].

Definition tally (text : string) (count : Z) (word : string) : Z :=
  if includes text word then count + 1 else count.

Definition _analyzeSentiment (content : string) : string :=
  let text := toLowerCase content in
  let negativeCount := fold_left (tally text) negativeWords 0 in
  let positiveCount := fold_left (tally text) positiveWords 0 in
  if positiveCount <? negativeCount then "negative"
  else if negativeCount <? positiveCount then "positive"
  else "neutral".

(** The [categories] object literal; [Object.entries] walks its string
    keys in insertion order. *)
Definition categories : list (string * list string) :=
  [ ("medical", ["medical"; "injured"; "hospital"; "ambulance"; "doctor"]);
    ("shelter", ["shelter"; "housing"; "accommodation"; "place to stay"]);
    ("food_water", ["food"; "water"; "hungry"; "thirsty"; "supplies"]);
    ("rescue", ["trapped"; "rescue"; "stuck"; "help"; "sos"]);
    ("information", ["update"; "info"; "status"; "news"; "report"]);
    ("volunteer", ["volunteer"; "helping"; "assist"; "support"]);
    ("infrastructure", ["power"; "electricity"; "road"; "bridge"; "water system"]) ].

(** The [for ... of Object.entries(categories)] loop with its early return. *)
Fixpoint first_match (text : string) (entries : list (string * list string)) : string :=
  match entries with
  | [] => "general"
  | (category, keywords) :: rest =>
      if existsb (fun keyword => includes text keyword) keywords
      then category
      else first_match text rest
  end.

Definition _categorizeReport (content : string) : string :=
  let text := toLowerCase content in
  first_match text categories.

End Heuristics.
Import Heuristics.

(* ===================================================================== *)
(** ** Image verification status (routes/imageVerification.js) *)
(* ===================================================================== *)

Module ImageVerification.

(** The two fields of the AI analysis the route reads. *)
Record VerificationResult := {
  isAuthentic : bool;
  confidence : Q
}.

(** The [verification_status] column admits exactly these three strings. *)
Inductive VerificationStatus := pending | verified | rejected.

(** [a >= b] and [a < b] on numbers. *)
Definition geq (a b : Q) : bool := Qle_bool b a.
Definition lt (a b : Q) : bool := negb (Qle_bool b a).

(** The same block appears in the single-image and in the batch route. *)
Definition verificationStatus (verificationResult : VerificationResult) : VerificationStatus :=
  let verificationStatus := pending in
  if isAuthentic verificationResult && geq (confidence verificationResult) 80 then
    verified
  else if negb (isAuthentic verificationResult) || lt (confidence verificationResult) 50 then
    rejected
  else verificationStatus.

End ImageVerification.

(* ===================================================================== *)
(** ** More of utils/helpers.js *)
(* ===================================================================== *)

Module MoreHelpers.

Record Page := { pg_page : Z; pg_limit : Z; pg_offset : Z }.

(** [paginate(page, limit)] in exact integers, for arguments that are
    numerals of the integers [page] and [limit] (the list route
    validates both): what the code computes as long as its numbers stay
    below 2^53, where doubles hold integers exactly. [Doubles.paginate]
    below computes as the code does at every size. *)
Definition paginate (page limit : Z) : Page :=
  let pageNum := Z.max 1 page in
  let limitNum := Z.min 100 (Z.max 1 limit) in
  let offset := (pageNum - 1) * limitNum in
  {| pg_page := pageNum; pg_limit := limitNum; pg_offset := offset |}.

(** [Math.ceil(a / b)] for a positive divisor. *)
Definition ceil_div (a b : Z) : Z := - ((- a) / b).

Record PaginationMeta := {
  pm_page : Z; pm_limit : Z; pm_total : Z;
  totalPages : Z; hasNext : bool; hasPrev : bool
}.

Definition formatPaginationMeta (page limit total : Z) : PaginationMeta :=
  let totalPages := ceil_div total limit in
  {| pm_page := page; pm_limit := limit; pm_total := total;
     totalPages := totalPages;
     hasNext := page <? totalPages;
     hasPrev := 1 <? page |}.

Definition validTags : list string :=
  [ "flood"; "earthquake"; "hurricane"; "tornado"; "wildfire";
    "tsunami"; "volcano"; "landslide"; "drought"; "blizzard";
    "heatwave"; "storm"; "emergency"; "urgent"; "medical";
    "shelter"; "food"; "water"; "rescue"; "evacuation" ].

(** [array.includes(x)] on an array of strings. *)
Definition array_includes (array : list string) (x : string) : bool :=
  existsb (String.eqb x) array.

(** [validateTags(tags)] for an array of strings. *)
Definition validateTags (tags : list string) : bool :=
  forallb (fun tag =>
             (0 <? String.length tag)%nat
             && (String.length tag <=? 50)%nat
             && array_includes validTags (toLowerCase tag))
          tags.

(** White space that [trim] strips, among 8-bit characters. *)
Definition is_space (c : ascii) : bool :=
  let n := nat_of_ascii c in
  ((9 <=? n)%nat && (n <=? 13)%nat) || (n =? 32)%nat || (n =? 160)%nat.

Fixpoint trimStart (s : string) : string :=
  match s with
  | EmptyString => EmptyString
  | String c s' => if is_space c then trimStart s' else s
  end.

Fixpoint trimEnd (s : string) : string :=
  match s with
  | EmptyString => EmptyString
  | String c s' =>
      match trimEnd s' with
      | EmptyString => if is_space c then EmptyString else String c EmptyString
      | rest => String c rest
      end
  end.

Definition trim (s : string) : string := trimEnd (trimStart s).

(** [s.replace(/[<>]/g, '')] *)
Fixpoint strip_angles (s : string) : string :=
  match s with
  | EmptyString => EmptyString
  | String c s' =>
      if Ascii.eqb c "<"%char || Ascii.eqb c ">"%char then strip_angles s'
      else String c (strip_angles s')
  end.

(** [sanitizeText(text)] for a string. *)
Definition sanitizeText (text : string) : string := strip_angles (trim text).

Definition urgentTags : list string := ["urgent"; "emergency"; "sos"; "critical"; "immediate"].
Definition highPriorityTags : list string := ["medical"; "rescue"; "evacuation"; "trapped"].
Definition disasterTypes : list string := ["earthquake"; "tsunami"; "tornado"; "hurricane"].

(** [calculateDisasterPriority(tags, description)]; [description] may be
    missing, in which case the text searched is empty. *)
Definition calculateDisasterPriority (tags : list string) (description : option string) : Z :=
  let priority := 1 in
  let text := toLowerCase (default "" description) in
  let priority :=
    if existsb (fun tag => includes text tag || array_includes tags tag) urgentTags
    then Z.max priority 5 else priority in
  let priority :=
    if existsb (fun tag => includes text tag || array_includes tags tag) highPriorityTags
    then Z.max priority 4 else priority in
  let priority :=
    if existsb (fun type => array_includes tags type) disasterTypes
    then Z.max priority 3 else priority in
  Z.min 5 priority.

(** [isValidCoordinates(lat, lng)] for two numbers. *)
Definition isValidCoordinates (lat lng : Q) : bool :=
  Qle_bool (-90) lat && Qle_bool lat 90 && Qle_bool (-180) lng && Qle_bool lng 180.

End MoreHelpers.

(* ===================================================================== *)
(** ** Integers as JavaScript numbers hold them *)
(* ===================================================================== *)

Module Doubles.

(** The value of a computation on integers: a double that is an
    integer, an infinity, or not a number. *)
Inductive JsNumber := Finite (n : Z) | PosInfinity | NegInfinity | NaN.

(** The nearest integer with at most 53 significant bits, ties to the
    even one: an integer below 2^53 in magnitude is kept as it is. *)
Definition round53 (n : Z) : Z :=
  let a := Z.abs n in
  if a <? 2 ^ 53 then n
  else
    let e := Z.log2 a - 52 in
    let q := a / 2 ^ e in
    let r := a mod 2 ^ e in
    let half := 2 ^ (e - 1) in
    let q' :=
      if r <? half then q
      else if half <? r then q + 1
      else if Z.even q then q else q + 1 in
    Z.sgn n * (q' * 2 ^ e).

(** The double nearest to an integer: from 2^1024 on, an infinity. *)
Definition number (n : Z) : JsNumber :=
  let m := round53 n in
  if 2 ^ 1024 <=? m then PosInfinity
  else if m <=? - 2 ^ 1024 then NegInfinity
  else Finite m.

(** [parseInt] of the numeral of an integer. *)
Definition parseInt (numeral : Z) : JsNumber := number numeral.

(** [Math.max(a, x)] and [Math.min(a, x)] for an integer [a]. *)
Definition max (a : Z) (x : JsNumber) : JsNumber :=
  match x with
  | Finite n => Finite (Z.max a n)
  | PosInfinity => PosInfinity
  | NegInfinity => Finite a
  | NaN => NaN
  end.

Definition min (a : Z) (x : JsNumber) : JsNumber :=
  match x with
  | Finite n => Finite (Z.min a n)
  | PosInfinity => Finite a
  | NegInfinity => NegInfinity
  | NaN => NaN
  end.

(** [x - a] for an integer [a]. *)
Definition minus (x : JsNumber) (a : Z) : JsNumber :=
  match x with
  | Finite n => number (n - a)
  | other => other
  end.

(** [x * y]. *)
Definition times (x y : JsNumber) : JsNumber :=
  match x, y with
  | Finite a, Finite b => number (a * b)
  | NaN, _ | _, NaN => NaN
  | Finite a, PosInfinity | PosInfinity, Finite a =>
      if a =? 0 then NaN else if 0 <? a then PosInfinity else NegInfinity
  | Finite a, NegInfinity | NegInfinity, Finite a =>
      if a =? 0 then NaN else if 0 <? a then NegInfinity else PosInfinity
  | PosInfinity, PosInfinity | NegInfinity, NegInfinity => PosInfinity
  | PosInfinity, NegInfinity | NegInfinity, PosInfinity => NegInfinity
  end.

Record Page := { page : JsNumber; limit : JsNumber; offset : JsNumber }.

(** [paginate(page, limit)] for arguments that are numerals of the
    integers [page] and [limit]. *)
Definition paginate (page limit : Z) : Page :=
  let pageNum := max 1 (parseInt page) in
  let limitNum := min 100 (max 1 (parseInt limit)) in
  let offset := times (minus pageNum 1) limitNum in
  {| page := pageNum; limit := limitNum; offset := offset |}.

(** A number that is an integer of at least [a], or plus infinity. *)
Definition at_least (a : Z) (x : JsNumber) : Prop :=
  match x with
  | Finite n => a <= n
  | PosInfinity => True
  | _ => False
  end.

End Doubles.

(* ===================================================================== *)
(** ** Audit trail (utils/helpers.js) and disaster routes (routes/disasters.js) *)
(* ===================================================================== *)

Module Audit.

(** The [details] payloads the disaster routes attach. *)
Inductive Details :=
| DetailsNone                          (* the default [{}] *)
| DetailsTitle (title : string)        (* [{ title }] *)
| DetailsChanges (keys : list string). (* [{ changes: Object.keys(updateData) }] *)

Record AuditEntry := {
  action : string;
  userId : string;
  timestamp : Z;
  details : Details
}.

(** What may sit in the [audit_trail] JSONB column: an array of entries,
    or something that is not an array ([null], an object, ...). *)
Inductive JsTrail :=
| TrailArray (entries : list AuditEntry)
| TrailNull
| TrailOther.

Definition createAuditEntry (action userId : string) (details : Details) (now : Z) : AuditEntry :=
  {| action := action; userId := userId; timestamp := now; details := details |}.

(** [Array.isArray(existingTrail) ? existingTrail : []], then [[...trail, newEntry]]. *)
Definition addAuditEntry (existingTrail : JsTrail) (action userId : string)
    (details : Details) (now : Z) : list AuditEntry :=
  let trail := match existingTrail with TrailArray l => l | _ => [] end in
  let newEntry := createAuditEntry action userId details now in
  trail ++ [newEntry].

Record User := { user_id : string; role : string }.

Record Disaster := {
  title : string;
  description : option string;
  location_name : option string;
  tags : list string;
  owner_id : string;
  audit_trail : JsTrail;
  location : option (Q * Q)            (* POINT(lng lat) *)
}.

(** A coordinate as the JSON body carries it once validated: [isFloat]
    accepts a number and a numeric string alike, and the body keeps the
    value as it was sent. *)
Inductive JsCoord := CoordNumber (q : Q) | CoordString (s : string).

(** Request body of POST /api/disasters, after validation. *)
Record CreateBody := {
  c_title : string;
  c_description : option string;
  c_location_name : option string;
  c_tags : option (list string);
  c_lat : option JsCoord;
  c_lng : option JsCoord
}.

(** Request body of PUT /api/disasters/:id, after validation. *)
Record UpdateBody := {
  u_title : option string;
  u_description : option string;
  u_location_name : option string;
  u_tags : option (list string);
  u_lat : option JsCoord;
  u_lng : option JsCoord
}.

(** JavaScript truthiness of an optional coordinate. *)
Definition truthy_coord (x : option JsCoord) : bool :=
  match x with
  | Some (CoordNumber q) => negb (Qeq_bool q 0)
  | Some (CoordString s) => negb (String.eqb s "")
  | None => false
  end.

(** [coordinatesToPoint(lat, lng)]: the point, or the message of the
    error it throws when [isValidCoordinates] refuses the pair, as it
    does whenever one of the two is not of type number. *)
Definition coordinatesToPoint (lat lng : JsCoord) : string + Q * Q :=
  match lat, lng with
  | CoordNumber la, CoordNumber ln =>
      if MoreHelpers.isValidCoordinates la ln then inr (ln, la)
      else inl "Invalid coordinates provided"
  | _, _ => inl "Invalid coordinates provided"
  end.

(** [disasterData] of the create route, or the message of the error
    thrown while it is built. *)
Definition disasterData (body : CreateBody) (user : User) (now : Z) : string + Disaster :=
  let row location :=
    {| title := c_title body;
       description := c_description body;
       location_name := c_location_name body;
       tags := match c_tags body with Some t => t | None => [] end;
       owner_id := user_id user;
       audit_trail :=
         TrailArray (addAuditEntry (TrailArray []) "create" (user_id user)
                       (DetailsTitle (c_title body)) now);
       location := location |} in
  match c_lat body, c_lng body with
  | Some lat, Some lng =>
      if truthy_coord (c_lat body) && truthy_coord (c_lng body) then
        match coordinatesToPoint lat lng with
        | inr point => inr (row (Some point))
        | inl message => inl message
        end
      else inr (row None)
  | _, _ => inr (row None)
  end.

(** POST /api/disasters: insert under the identifier the database
    draws; an error thrown by the handler is answered 500 by the
    catch-all, before anything is written. *)
Definition post_disaster (table : gmap string Disaster) (newId : string)
    (body : CreateBody) (user : User) (now : Z) : Z * gmap string Disaster :=
  match disasterData body user now with
  | inr row => (201, <[newId := row]> table)
  | inl _ => (500, table)
  end.

(** [requireOwnership]: [true] when the request may proceed. *)
Definition requireOwnership (resource : Disaster) (user : User) : bool :=
  if String.eqb (owner_id resource) "" then true
  else String.eqb (owner_id resource) (user_id user) || String.eqb (role user) "admin".

(** [x !== undefined]. *)
Definition defined {A : Type} (x : option A) : bool :=
  match x with Some _ => true | None => false end.

(** [Object.keys(updateData)] at the moment the audit entry is built. *)
Definition changed_keys (body : UpdateBody) : list string :=
  (if defined (u_title body) then ["title"] else []) ++
  (if defined (u_description body) then ["description"] else []) ++
  (if defined (u_location_name body) then ["location_name"] else []) ++
  (if defined (u_tags body) then ["tags"] else []) ++
  (match u_lat body, u_lng body with Some _, Some _ => ["location"] | _, _ => [] end).

(** [updateData]: the columns an update overwrites. *)
Record UpdateData := {
  d_title : option string;
  d_description : option string;
  d_location_name : option string;
  d_tags : option (list string);
  d_location : option (Q * Q);
  d_audit_trail : list AuditEntry
}.

(** The PUT handler up to its second [await]: the row is read, the
    ownership checked, and [updateData] built, its audit trail from the
    row as it was read. The answer when the handler ends here, or
    [updateData]. *)
Definition put_prepare (table : gmap string Disaster) (id : string)
    (body : UpdateBody) (user : User) (now : Z) : Z + UpdateData :=
  match table !! id with
  | None => inl 404
  | Some existingDisaster =>
      if requireOwnership existingDisaster user then
        let location :=
          match u_lat body, u_lng body with
          | Some lat, Some lng =>
              match coordinatesToPoint lat lng with
              | inr point => inr (Some point)
              | inl message => inl message
              end
          | _, _ => inr None
          end in
        match location with
        | inl _ => inl 500                       (* thrown, answered by the catch-all *)
        | inr location =>
            inr {| d_title := u_title body;
                   d_description := u_description body;
                   d_location_name := u_location_name body;
                   d_tags := u_tags body;
                   d_location := location;
                   d_audit_trail :=
                     addAuditEntry
                       (match audit_trail existingDisaster with
                        | TrailNull => TrailArray []        (* [audit_trail || []] *)
                        | t => t
                        end)
                       "update" (user_id user) (DetailsChanges (changed_keys body)) now |}
        end
      else inl 403
  end.

(** A row after [update(updateData)]: the listed columns are overwritten. *)
Definition updated_row (row : Disaster) (updateData : UpdateData) : Disaster :=
  {| title := default (title row) (d_title updateData);
     description :=
       match d_description updateData with Some d => Some d | None => description row end;
     location_name :=
       match d_location_name updateData with
       | Some l => Some l
       | None => location_name row
       end;
     tags := default (tags row) (d_tags updateData);
     owner_id := owner_id row;
     audit_trail := TrailArray (d_audit_trail updateData);
     location :=
       match d_location updateData with Some p => Some p | None => location row end |}.

(** The rest of the PUT handler,
    [update(updateData).eq('id', id).select().single()]: the row as it
    is now is updated; when it is gone, nothing is, and [single()]
    reports an error, answered 500. *)
Definition put_commit (table : gmap string Disaster) (id : string)
    (updateData : UpdateData) : Z * gmap string Disaster :=
  match table !! id with
  | Some row => (200, <[id := updated_row row updateData]> table)
  | None => (500, table)
  end.

(** PUT /api/disasters/:id when no other request runs between its two
    parts: 404 when the row is missing, 403 when the caller neither owns
    it nor is an admin, otherwise the update. *)
Definition put_disaster (table : gmap string Disaster) (id : string)
    (body : UpdateBody) (user : User) (now : Z) : Z * gmap string Disaster :=
  match put_prepare table id body user now with
  | inl status => (status, table)
  | inr updateData => put_commit table id updateData
  end.

(** *** Requests in flight

    The server handles requests one at a time but lets go of a request
    at each [await]: between the two parts of a PUT, parts of other
    requests may run. *)

Record PutRequest := {
  target : string; changes : UpdateBody; caller : User; received : Z
}.

(** How far a request has got. *)
Inductive Progress :=
| Pending
| Prepared (updateData : UpdateData)
| Answered (status : Z).

Record Server := { disasters : gmap string Disaster; progress : list Progress }.

(** Request [i] runs up to its next [await]. *)
Definition step (requests : list PutRequest) (i : nat) (s : Server) : Server :=
  match requests !! i, progress s !! i with
  | Some r, Some Pending =>
      let next :=
        match put_prepare (disasters s) (target r) (changes r) (caller r) (received r) with
        | inl status => Answered status
        | inr updateData => Prepared updateData
        end in
      {| disasters := disasters s; progress := <[i := next]> (progress s) |}
  | Some r, Some (Prepared updateData) =>
      let '(status, table) := put_commit (disasters s) (target r) updateData in
      {| disasters := table; progress := <[i := Answered status]> (progress s) |}
  | _, _ => s
  end.

(** The server after the parts named by [schedule] have run in turn. *)
Definition run (requests : list PutRequest) (schedule : list nat) (s : Server) : Server :=
  fold_left (fun s i => step requests i s) schedule s.


End Audit.

(* ===================================================================== *)
(** ** Records exchanged by the services *)
(* ===================================================================== *)

Module Data.

(** The [source] tag of a geocoding result. *)
Inductive GeoSource := google | mapbox | nominatim | mock.

(** [lat]/[lng] are [None] when the JavaScript value is [undefined]. *)
Record GeocodeResult := {
  lat : option Q;
  lng : option Q;
  formattedAddress : string;
  source : GeoSource
}.

(** Fields [_processReports] adds to a report. The two location fields
    come from regular-expression matching and are not represented. *)
Record Enrichment := {
  e_disasterId : string;
  priorityScore : Z;
  sentiment : string;
  category : string;
  processedAt : Z
}.

Record Report := {
  id : string;
  platform : string;
  content : string;
  author : string;
  createdAt : Z;
  url : string;
  enrichment : option Enrichment
}.

Record SocialResult := {
  reports : list Report;
  s_source : string;
  totalFound : Z;
  s_disasterId : option string;
  s_fetchedAt : option Z
}.

Record Update := {
  up_id : string;
  up_source : string;
  up_title : string;
  up_content : string;
  up_url : string;
  publishedAt : Z;
  up_fetchedAt : Z
}.

Record UpdatesResult := {
  updates : list Update;
  u_disasterId : option string;
  u_fetchedAt : Z;
  u_totalFound : Z
}.

(** JSON values the services return and the cache table stores. Every
    one of them is an object, hence truthy. *)
Inductive JsonValue :=
| VGeocode (r : GeocodeResult)
| VSocial (r : SocialResult)
| VUpdates (r : UpdatesResult).

(** *** What the outside world sends back *)

(** First entry of [results] / [features] / the Nominatim array, with
    the coordinates already read out of the provider's own layout. *)
Record Hit := { hit_lat : Q; hit_lng : Q; hit_address : string }.

Record Tweet := { tweet_id : string; text : string; author_id : string; created_at : Z }.
Record TwitterUser := { tu_id : string; tu_name : string; tu_username : string }.
Record Post := {
  uri : string; post_text : string; displayName : option string;
  handle : string; post_createdAt : Z
}.
(** One element matched by a source's title selector, with the date
    text already turned into an instant by [_parseDate]. *)
Record Scraped := {
  sc_title : string; sc_link : option string; sc_content : string; sc_date : Z
}.

Inductive Body :=
| BGeo (status : string) (hits : list Hit)
| BTwitter (data : option (list Tweet)) (users : option (list TwitterUser))
           (result_count : option Z)
| BBluesky (posts : option (list Post))
| BHtml (items : list Scraped).

(** Thrown values: an [Error] with its message, or [undefined]. *)
Inductive JsError := Undefined | Error (message : string).

(** How one run of an operation ends: with a result, or by throwing an
    [Error] object carrying a message (what axios and the services
    themselves throw). *)
Inductive Attempt (A : Type) := Succeeds (a : A) | Fails (message : string).
Arguments Succeeds {A} a.
Arguments Fails {A} message.

Inductive Endpoint :=
| EGoogle | EMapbox | ENominatim | ETwitter | EBluesky | EPage (url : string).

#[export] Instance Endpoint_eq_dec : EqDecision Endpoint.
Proof. solve_decision. Defined.

End Data.
Import Data.

(* ===================================================================== *)
(** ** The world and the monad of asynchronous computations *)
(* ===================================================================== *)

Module Effects.

Record CacheRow := { value : JsonValue; expires_at : Z }.

(** How the database answers: normally, with an [error] field in the
    reply, or by rejecting the promise (network down). *)
Inductive Health := Reachable | ErrorReply | Rejects.

Record Client := { health : Health; cache : gmap string CacheRow }.

Inductive Event :=
| EvInvoke                     (* one call of a scripted operation *)
| EvRequest (ep : Endpoint)    (* one HTTP request *)
| EvDelay (ms : Z).            (* one [await delay(ms)] *)

(** The server's time zone, as ECMAScript's implementation-defined
    [LocalTZA]: an offset from UTC in milliseconds, made of the zone's
    standard offset and a shift. [shift_at] is the shift in force at a
    UTC instant; [shift_of_local] is the shift used to read a local time
    value back, which for a local time that occurs twice (clocks going
    back) is the one before the change, and likewise for a local time
    that is skipped. A shift lies between nothing and one day, the
    largest change of offset a zone has made. *)
Record TimeZone := {
  standard : Z;
  shift_at : Z -> Z;
  shift_of_local : Z -> Z
}.

Record World := {
  supabase : option Client;             (* the module-level [supabase] *)
  clock : Z;                            (* milliseconds since the epoch *)
  zone : TimeZone;                      (* the process's time zone *)
  network : Endpoint -> nat -> Attempt Body; (* reply to the k-th request *)
  random : nat -> Q;                    (* k-th value of [Math.random()] *)
  draws : nat;
  trace : list Event                    (* oldest first *)
}.

Inductive Outcome (A : Type) := Return (a : A) | Throw (e : JsError).
Arguments Return {A} a.
Arguments Throw {A} e.

Definition M (A : Type) : Type := World -> Outcome A * World.

Definition outcome_of {A} (x : Attempt A) : Outcome A :=
  match x with
  | Succeeds a => Return a
  | Fails m => Throw (Error m)
  end.

Definition ret {A} (a : A) : M A := fun w => (Return a, w).
Definition throw {A} (e : JsError) : M A := fun w => (Throw e, w).
Definition bind {A B} (m : M A) (k : A -> M B) : M B :=
  fun w => match m w with
           | (Return a, w') => k a w'
           | (Throw e, w') => (Throw e, w')
           end.
(** [try { m } catch (error) { handler(error) }]. *)
Definition try_catch {A} (m : M A) (handler : JsError -> M A) : M A :=
  fun w => match m w with
           | (Return a, w') => (Return a, w')
           | (Throw e, w') => handler e w'
           end.

Definition log (e : Event) (w : World) : World :=
  {| supabase := supabase w; clock := clock w; network := network w;
     zone := zone w; random := random w; draws := draws w; trace := trace w ++ [e] |}.

Definition with_client (c : option Client) (w : World) : World :=
  {| supabase := c; clock := clock w; network := network w;
     zone := zone w; random := random w; draws := draws w; trace := trace w |}.

(** [Date.now()] / [new Date()]. *)
Definition now : M Z := fun w => (Return (clock w), w).

(** The zone that [Date]'s local-time methods work in. *)
Definition local_zone : M TimeZone := fun w => (Return (zone w), w).

(** A server running in UTC. *)
Definition utc : TimeZone :=
  {| standard := 0; shift_at := fun _ => 0; shift_of_local := fun _ => 0 |}.

(** [Math.random()]. *)
Definition math_random : M Q := fun w =>
  (Return (random w (draws w)),
   {| supabase := supabase w; clock := clock w; network := network w;
      zone := zone w; random := random w; draws := S (draws w); trace := trace w |}).

(** [await delay(ms)]: the clock moves on by [ms] (not at all for a
    negative argument). *)
Definition delay (ms : Z) : M unit := fun w =>
  (Return tt,
   {| supabase := supabase w; clock := clock w + Z.max 0 ms; network := network w;
      zone := zone w; random := random w; draws := draws w; trace := trace w ++ [EvDelay ms] |}).

Definition requests_to (ep : Endpoint) (t : list Event) : nat :=
  length (List.filter (fun e => match e with
                           | EvRequest ep' => bool_decide (ep' = ep)
                           | _ => false
                           end) t).

(** [await axios.get(...)] against endpoint [ep]. The reply is whatever
    the network holds for this request; it does not depend on the query. *)
Definition axios_get (ep : Endpoint) : M Body := fun w =>
  let k := requests_to ep (trace w) in
  (outcome_of (network w ep k), log (EvRequest ep) w).

Definition invocations (t : list Event) : nat :=
  length (List.filter (fun e => match e with EvInvoke => true | _ => false end) t).

(** A zero-argument operation whose k-th invocation ends as [script k]. *)
Definition scripted {A} (script : nat -> Attempt A) : M A := fun w =>
  (outcome_of (script (invocations (trace w))), log EvInvoke w).

(** Reading [error.message] in a [catch] block: a [TypeError] when the
    caught value is [undefined]. *)
Definition message (error : JsError) : M string :=
  match error with
  | Error m => ret m
  | Undefined => throw (Error "Cannot read properties of undefined (reading 'message')")
  end.

(** [try { m } catch (error) { log(error.message); throw error }] *)
Definition logged {A} (m : M A) : M A :=
  try_catch m (fun error => bind (message error) (fun _ => throw error)).

End Effects.
Import Effects.

Declare Scope js_scope.
Delimit Scope js_scope with js.
Notation "'await!' x ':=' m 'in' k" := (bind m (fun x => k))
  (at level 10, x name, m at level 100, k at level 200) : js_scope.
Notation "'run!' m 'in' k" := (bind m (fun _ => k))
  (at level 10, m at level 100, k at level 200) : js_scope.
Local Open Scope js_scope.

(* ===================================================================== *)
(** ** Cache adapter (config/database.js) *)
(* ===================================================================== *)

Module Database.

Definition getSupabase : M (option Client) := fun w => (Return (supabase w), w).

(** [supabase.from('cache').select('value, expires_at').eq('key', key).single()]:
    the reply's [data] and whether its [error] is set. [key] is the
    primary key, and [single()] reports an error when no row matches. *)
Definition cache_select (key : string) : M (option CacheRow * bool) := fun w =>
  match supabase w with
  | None => (Throw (Error "Cannot read properties of null"), w)
  | Some client =>
      match health client with
      | Rejects => (Throw (Error "fetch failed"), w)
      | ErrorReply => (Return (None, true), w)
      | Reachable =>
          match cache client !! key with
          | Some row => (Return (Some row, false), w)
          | None => (Return (None, true), w)
          end
      end
  end.

(** [supabase.from('cache').delete().eq('key', key)]. *)
Definition cache_delete (key : string) : M unit := fun w =>
  match supabase w with
  | None => (Throw (Error "Cannot read properties of null"), w)
  | Some client =>
      match health client with
      | Rejects => (Throw (Error "fetch failed"), w)
      | ErrorReply => (Return tt, w)
      | Reachable =>
          (Return tt,
           with_client (Some {| health := Reachable; cache := delete key (cache client) |}) w)
      end
  end.

(** [supabase.from('cache').upsert({ key, value, expires_at })]: whether
    the reply's [error] is set. *)
Definition cache_upsert (key : string) (row : CacheRow) : M bool := fun w =>
  match supabase w with
  | None => (Throw (Error "Cannot read properties of null"), w)
  | Some client =>
      match health client with
      | Rejects => (Throw (Error "fetch failed"), w)
      | ErrorReply => (Return true, w)
      | Reachable =>
          (Return false,
           with_client (Some {| health := Reachable; cache := <[key := row]> (cache client) |}) w)
      end
  end.

Definition getCachedData (key : string) : M (option JsonValue) :=
  try_catch
    (await! supabase := getSupabase in
     match supabase with
     | None => ret None                         (* no caching in mock mode *)
     | Some _ =>
         await! reply := cache_select key in
         match reply with
         | (Some data, false) =>
             await! today := now in
             if expires_at data <? today then
               run! cache_delete key in ret None
             else ret (Some (value data))
         | _ => ret None                         (* [error || !data] *)
         end
     end)
    (fun error => ret None).

Definition hour_ms : Z := 3600000.

(** Rounding towards zero, as [setHours] does with its argument. *)
Definition truncate (q : Q) : Z := if Qle_bool 0 q then Qfloor q else Qceiling q.

Definition day_ms : Z := 24 * hour_ms.

(** [LocalTZA(t, isUTC)]: the offset of local time from UTC, at the UTC
    instant [t] or for the local time value [t]. *)
Definition LocalTZA (tz : TimeZone) (t : Z) (isUTC : bool) : Z :=
  standard tz
  + Z.max 0 (Z.min day_ms (if isUTC then shift_at tz t else shift_of_local tz t)).

(** [LocalTime(t)] and [UTC(t)]. *)
Definition LocalTime (tz : TimeZone) (t : Z) : Z := t + LocalTZA tz t true.
Definition UTC (tz : TimeZone) (t : Z) : Z := t - LocalTZA tz t false.

(** [expiresAt.setHours(expiresAt.getHours() + ttlHours)]: the hour of
    the local time is replaced, and the local time so obtained is read
    back as an instant. *)
Definition setHours_plus (tz : TimeZone) (t : Z) (ttlHours : Q) : Z :=
  let local := LocalTime tz t in
  let hours := (local / hour_ms) mod 24 in
  UTC tz (local + (truncate (inject_Z hours + ttlHours) - hours) * hour_ms).

Definition setCachedData (key : string) (value : JsonValue) (ttlHours : Q) : M unit :=
  try_catch
    (await! supabase := getSupabase in
     match supabase with
     | None => ret tt                           (* no caching in mock mode *)
     | Some _ =>
         await! today := now in
         await! tz := local_zone in
         let expiresAt := setHours_plus tz today ttlHours in
         await! error := cache_upsert key {| value := value; expires_at := expiresAt |} in
         ret tt
     end)
    (fun error => ret tt).

End Database.
Import Database.

(* ===================================================================== *)
(** ** Retry with exponential backoff (utils/helpers.js) *)
(* ===================================================================== *)

Module Helpers.

(** The [for (let i = 0; i < maxRetries; i++)] loop, entered at index
    [i] with [remaining] iterations still to run; [remaining = 0] is the
    loop exit, where [lastError] is thrown. *)
Fixpoint retry_loop {A} (fn : M A) (maxRetries baseDelay : Z)
    (remaining : nat) (i : Z) (lastError : JsError) : M A :=
  match remaining with
  | O => throw lastError
  | S remaining' =>
      try_catch fn (fun error =>
        let lastError := error in
        if i =? maxRetries - 1 then throw error
        else
          let delayTime := baseDelay * 2 ^ i in
          run! message error in                  (* logged with the warning *)
          run! delay delayTime in
          retry_loop fn maxRetries baseDelay remaining' (i + 1) lastError)
  end.

Definition retryWithBackoff {A} (fn : M A) (maxRetries baseDelay : Z) : M A :=
  retry_loop fn maxRetries baseDelay (Z.to_nat maxRetries) 0 Undefined.

End Helpers.
Import Helpers.

(* ===================================================================== *)
(** ** Geocoding service (services/geocodingService.js) *)
(* ===================================================================== *)

Module Geocoding.

(** [process.env] as the service constructors read it. *)
Record Env := {
  GOOGLE_MAPS_API_KEY : option string;
  MAPBOX_ACCESS_TOKEN : option string;
  TWITTER_BEARER_TOKEN : option string;
  BLUESKY_IDENTIFIER : option string;
  BLUESKY_PASSWORD : option string
}.

(** Truthiness of an environment variable: set and not empty. *)
Definition truthy (x : option string) : bool :=
  match x with
  | Some v => negb (String.eqb v "")
  | None => false
  end.

(** [this.service] *)
Inductive Service := SGoogle | SMapbox | SNominatim.

Definition constructor (env : Env) : Service :=
  if truthy (GOOGLE_MAPS_API_KEY env) then SGoogle
  else if truthy (MAPBOX_ACCESS_TOKEN env) then SMapbox
  else SNominatim.

(** [Buffer.from(s).toString('base64')] *)
Definition base64_alphabet : string :=
  "ABCDEFGHIJKLMNOPQRSTUVWXYZabcdefghijklmnopqrstuvwxyz0123456789+/".

Definition base64_digit (n : N) : ascii :=
  match String.get (N.to_nat (n mod 64)%N) base64_alphabet with
  | Some c => c
  | None => "="%char
  end.

Fixpoint base64 (s : string) : string :=
  match s with
  | EmptyString => ""
  | String a EmptyString =>
      let n := (N_of_ascii a * 65536)%N in
      String (base64_digit (n / 262144)) (String (base64_digit (n / 4096)) "==")
  | String a (String b EmptyString) =>
      let n := (N_of_ascii a * 65536 + N_of_ascii b * 256)%N in
      String (base64_digit (n / 262144)) (String (base64_digit (n / 4096))
        (String (base64_digit (n / 64)) "="))
  | String a (String b (String c rest)) =>
      let n := (N_of_ascii a * 65536 + N_of_ascii b * 256 + N_of_ascii c)%N in
      String (base64_digit (n / 262144)) (String (base64_digit (n / 4096))
        (String (base64_digit (n / 64)) (String (base64_digit n) (base64 rest))))
  end.

Definition cacheKey (locationName : string) : string :=
  "geocode_" ++ take 50 (base64 (toLowerCase locationName)).

Definition from_hit (h : Hit) (src : GeoSource) : GeocodeResult :=
  {| lat := Some (hit_lat h); lng := Some (hit_lng h);
     formattedAddress := hit_address h; source := src |}.

Definition _geocodeWithGoogle (locationName : string) : M GeocodeResult :=
  logged
    (await! response := retryWithBackoff (axios_get EGoogle) 3 1000 in
     match response with
     | BGeo status (result :: _) =>
         if String.eqb status "OK" then ret (from_hit result google)
         else throw (Error ("Google Maps API error: " ++ status))
     | BGeo status [] => throw (Error ("Google Maps API error: " ++ status))
     | _ => throw (Error "Google Maps API error: undefined")
     end).

Definition _geocodeWithMapbox (locationName : string) : M GeocodeResult :=
  logged
    (await! response := retryWithBackoff (axios_get EMapbox) 3 1000 in
     match response with
     | BGeo _ (feature :: _) => ret (from_hit feature mapbox)
     | _ => throw (Error "No results found")
     end).

Definition _geocodeWithNominatim (locationName : string) : M GeocodeResult :=
  logged
    (await! response := retryWithBackoff (axios_get ENominatim) 3 1000 in
     match response with
     | BGeo _ (result :: _) => ret (from_hit result nominatim)
     | _ => throw (Error "No results found")
     end).

Definition mockLocations : list (string * (Q * Q)) :=
  [ ("manhattan, nyc", (40.7831, -73.9712)%Q);
    ("brooklyn, nyc", (40.6782, -73.9442)%Q);
    ("miami, fl", (25.7617, -80.1918)%Q);
    ("houston, tx", (29.7604, -95.3698)%Q);
    ("los angeles, ca", (34.0522, -118.2437)%Q);
    ("chicago, il", (41.8781, -87.6298)%Q) ].

Fixpoint own_property (key : string) (table : list (string * (Q * Q))) : option (Q * Q) :=
  match table with
  | [] => None
  | (k, v) :: rest => if String.eqb k key then Some v else own_property key rest
  end.

(** Lower-case keys every object literal inherits; [mockLocations[key]]
    is then a truthy object without [lat] and [lng]. *)
Definition inherited_property (key : string) : bool :=
  String.eqb key "constructor" || String.eqb key "__proto__".

Definition _geocodeMock (locationName : string) : M GeocodeResult :=
  let key := toLowerCase locationName in
  await! coords :=
    match own_property key mockLocations with
    | Some (la, ln) => ret (Some la, Some ln)
    | None =>
        if inherited_property key then ret (None, None)
        else
          await! r1 := math_random in
          await! r2 := math_random in
          ret (Some (40.7128 + (r1 - 0.5) * 0.1)%Q, Some (-74.0060 + (r2 - 0.5) * 0.1)%Q)
    end in
  ret {| lat := fst coords; lng := snd coords;
         formattedAddress := locationName; source := mock |}.

(** [geocode(locationName)] for a location name that is a string. *)
Definition geocode (service : Service) (locationName : string) : M JsonValue :=
  let cacheKey := cacheKey locationName in
  try_catch
    (await! cachedResult := getCachedData cacheKey in
     match cachedResult with
     | Some hit => ret hit
     | None =>
         await! result :=
           match service with
           | SGoogle => _geocodeWithGoogle locationName
           | SMapbox => _geocodeWithMapbox locationName
           | SNominatim => _geocodeWithNominatim locationName
           end in
         run! setCachedData cacheKey (VGeocode result) 24 in
         ret (VGeocode result)
     end)
    (fun error =>
       run! message error in                     (* logged with the failure *)
       (* fallback to mock response *)
       await! result := _geocodeMock locationName in
       ret (VGeocode result)).

(** What a caller hands to [geocode]: the geocode route passes on the
    JSON body's [location_name], of which it checks the length only, so
    that a number arrives as well as a string. *)
Inductive LocationName := NameString (s : string) | NameNumber (q : Q).

(** [geocode(locationName)] for any such argument. The cache key is
    built before the [try], with [locationName.toLowerCase()], which a
    number does not have. *)
Definition geocode_called (service : Service) (locationName : LocationName)
    : M JsonValue :=
  match locationName with
  | NameString s => geocode service s
  | NameNumber _ => throw (Error "locationName.toLowerCase is not a function")
  end.

End Geocoding.
Import Geocoding.

(* ===================================================================== *)
(** ** Social media service (services/socialMediaService.js) *)
(* ===================================================================== *)

Module SocialMedia.

Inductive Service := STwitter | SBluesky | SMock.

Definition constructor (env : Env) : Service :=
  if truthy (TWITTER_BEARER_TOKEN env) then STwitter
  else if truthy (BLUESKY_IDENTIFIER env) && truthy (BLUESKY_PASSWORD env) then SBluesky
  else SMock.

Definition cacheKey (disasterId : string) (keywords : list string) : string :=
  "social_media_" ++ disasterId ++ "_" ++ join "_" keywords.

(** [_getTwitterAuthor] *)
Definition _getTwitterAuthor (authorId : string) (users : option (list TwitterUser)) : string :=
  match users with
  | None => "Unknown User"
  | Some users =>
      match find (fun u => String.eqb (tu_id u) authorId) users with
      | Some user => tu_name user ++ " (@" ++ tu_username user ++ ")"
      | None => "Unknown User"
      end
  end.

(** [uri.split('/').pop()]: what follows the last slash. *)
Fixpoint last_segment (acc s : string) : string :=
  match s with
  | EmptyString => acc
  | String c s' =>
      if Ascii.eqb c "/"%char then last_segment "" s'
      else last_segment (acc ++ String c "") s'
  end.

Definition _fetchFromTwitter (keywords : list string) : M SocialResult :=
  logged (
  await! response := retryWithBackoff (axios_get ETwitter) 3 1000 in
  match response with
  | BTwitter (Some data) users result_count =>
      let reports :=
        map (fun tweet =>
               {| id := tweet_id tweet;
                  platform := "twitter";
                  content := text tweet;
                  author := _getTwitterAuthor (author_id tweet) users;
                  createdAt := created_at tweet;
                  url := "https://twitter.com/user/status/" ++ tweet_id tweet;
                  enrichment := None |}) data in
      ret {| reports := reports;
             s_source := "twitter";
             totalFound :=
               match result_count with
               | Some n => if n =? 0 then Z.of_nat (length reports) else n
               | None => Z.of_nat (length reports)
               end;
             s_disasterId := None;
             s_fetchedAt := None |}
  | _ => throw (Error "No data returned from Twitter API")
  end).

Definition _fetchFromBluesky (keywords : list string) : M SocialResult :=
  logged (
  await! response := retryWithBackoff (axios_get EBluesky) 3 1000 in
  match response with
  | BBluesky (Some posts) =>
      let reports :=
        map (fun post =>
               {| id := uri post;
                  platform := "bluesky";
                  content := post_text post;
                  author :=
                    match displayName post with
                    | Some name => if String.eqb name "" then handle post else name
                    | None => handle post
                    end;
                  createdAt := post_createdAt post;
                  url := "https://bsky.app/profile/" ++ handle post ++ "/post/"
                           ++ last_segment "" (uri post);
                  enrichment := None |}) posts in
      ret {| reports := reports;
             s_source := "bluesky";
             totalFound := Z.of_nat (length reports);
             s_disasterId := None;
             s_fetchedAt := None |}
  | _ => throw (Error "No data returned from Bluesky API")
  end).

Definition canned (id content author : string) (createdAt : Z) (n : string) : Report :=
  {| id := id; platform := "mock_twitter"; content := content; author := author;
     createdAt := createdAt; url := "https://twitter.com/mock/status/" ++ n;
     enrichment := None |}.

(** The five canned posts, dated relative to [Date.now()]. *)
Definition mockReports (today : Z) : list Report :=
  [ canned "mock_1"
      "#floodrelief Need food and water in Lower East Side. Families trapped on 3rd floor. #emergency #NYC"
      "citizen_reporter1" (today - 30 * 60 * 1000) "1";
    canned "mock_2"
      "Shelter available at Community Center on Main St. Can accommodate 50 people. #disasterrelief #shelter"
      "relief_org_official" (today - 45 * 60 * 1000) "2";
    canned "mock_3"
      "URGENT: Medical assistance needed at 123 Oak Street. Elderly person trapped. #SOS #medical #emergency"
      "first_responder" (today - 15 * 60 * 1000) "3";
    canned "mock_4"
      "Power restored to downtown area. Water still not safe to drink. Boil water advisory in effect. #update"
      "city_emergency_mgmt" (today - 60 * 60 * 1000) "4";
    canned "mock_5"
      "Volunteers needed at Red Cross center. Bring supplies if possible. #volunteer #help #disaster"
      "volunteer_coordinator" (today - 90 * 60 * 1000) "5" ].

Definition _fetchMockReports (keywords : list string) (disasterId : option string)
    : M SocialResult :=
  await! today := now in
  let mockReports := mockReports today in
  let filteredReports :=
    if (0 <? Z.of_nat (length keywords)) then
      List.filter (fun report =>
                existsb (fun keyword =>
                           includes (toLowerCase (content report)) (toLowerCase keyword))
                        keywords)
             mockReports
    else mockReports in
  ret {| reports := filteredReports;
         s_source := "mock";
         totalFound := Z.of_nat (length filteredReports);
         s_disasterId := disasterId;
         s_fetchedAt := Some today |}.

Definition _processReports (reports : list Report) (disasterId : string) (today : Z)
    : list Report :=
  map (fun report =>
         let priorityScore := _calculatePriorityScore (content report) in
         let sentiment := _analyzeSentiment (content report) in
         let category := _categorizeReport (content report) in
         {| id := id report; platform := platform report; content := content report;
            author := author report; createdAt := createdAt report; url := url report;
            enrichment :=
              Some {| e_disasterId := disasterId; priorityScore := priorityScore;
                      sentiment := sentiment; category := category;
                      processedAt := today |} |})
      reports.

Definition fetchReports (service : Service) (disasterId : string)
    (keywords : list string) : M JsonValue :=
  let cacheKey := cacheKey disasterId keywords in
  try_catch
    (await! cachedResult := getCachedData cacheKey in
     match cachedResult with
     | Some hit => ret hit
     | None =>
         await! result :=
           match service with
           | STwitter => _fetchFromTwitter keywords
           | SBluesky => _fetchFromBluesky keywords
           | SMock => _fetchMockReports keywords None
           end in
         await! today := now in
         let processedReports := _processReports (reports result) disasterId today in
         let finalResult :=
           {| reports := processedReports;
              s_source := s_source result;
              totalFound := totalFound result;
              s_disasterId := Some disasterId;
              s_fetchedAt := Some today |} in
         run! setCachedData cacheKey (VSocial finalResult) 0.17 in
         ret (VSocial finalResult)
     end)
    (fun error =>
       run! message error in                     (* logged with the failure *)
       (* fallback to mock response *)
       await! result := _fetchMockReports keywords (Some disasterId) in
       ret (VSocial result)).

End SocialMedia.

(* ===================================================================== *)
(** ** Official updates service (services/officialUpdatesService.js) *)
(* ===================================================================== *)

Module OfficialUpdates.

(** A scraped site: its name, its URL, and the origin and path that
    [new URL(url)] yields. *)
Record Source := { name : string; src_url : string; origin : string; pathname : string }.

Definition sources : list Source :=
  [ {| name := "FEMA"; src_url := "https://www.fema.gov/disaster/current";
       origin := "https://www.fema.gov"; pathname := "/disaster/current" |};
    {| name := "Red Cross"; src_url := "https://www.redcross.org/about-us/news-and-events";
       origin := "https://www.redcross.org"; pathname := "/about-us/news-and-events" |};
    {| name := "National Weather Service"; src_url := "https://www.weather.gov/alerts";
       origin := "https://www.weather.gov"; pathname := "/alerts" |} ].

Definition cacheKey (disasterId : string) (keywords : list string) : string :=
  "official_updates_" ++ disasterId ++ "_" ++ join "_" keywords.

Definition _resolveUrl (link : option string) (source : Source) : string :=
  match link with
  | None => src_url source
  | Some link =>
      if String.eqb link "" then src_url source
      else if startsWith link "http" then link
      else if startsWith link "/" then origin source ++ link
      else origin source ++ pathname source ++ "/" ++ link
  end.

Definition show_nat (n : nat) : string := NilZero.string_of_uint (Nat.to_uint n).

(** The [.each] callback over the first ten matched elements. *)
Fixpoint scrape (source : Source) (keywords : list string) (today : Z)
    (index : nat) (items : list Scraped) : list Update :=
  match items with
  | [] => []
  | item :: rest =>
      if (10 <=? index)%nat then []
      else
        let searchText := toLowerCase (sc_title item ++ " " ++ sc_content item) in
        let hasKeyword :=
          existsb (fun keyword => includes searchText (toLowerCase keyword)) keywords in
        if (0 <? Z.of_nat (length keywords)) && negb hasKeyword
        then scrape source keywords today (S index) rest
        else
          {| up_id := toLowerCase (name source) ++ "_" ++ show_nat index;
             up_source := name source;
             up_title := sc_title item;
             up_content :=
               if String.eqb (sc_content item) "" then sc_title item else sc_content item;
             up_url := _resolveUrl (sc_link item) source;
             publishedAt := sc_date item;
             up_fetchedAt := today |}
          :: scrape source keywords today (S index) rest
  end.

Definition _fetchFromSource (source : Source) (keywords : list string) : M (list Update) :=
  logged
    (await! response := retryWithBackoff (axios_get (EPage (src_url source))) 3 1000 in
     await! today := now in
     match response with
     | BHtml items => ret (scrape source keywords today 0 items)
     | _ => ret []
     end).

Definition canned (id source title content url : string) (publishedAt today : Z) : Update :=
  {| up_id := id; up_source := source; up_title := title; up_content := content;
     up_url := url; publishedAt := publishedAt; up_fetchedAt := today |}.

Definition mockUpdates (today : Z) : list Update :=
  [ canned "fema_mock_1" "FEMA"
      "Federal Disaster Declaration Approved for Flood-Affected Areas"
      "FEMA has approved federal disaster assistance for individuals and communities affected by recent flooding. Residents can now apply for temporary housing assistance, home repairs, and other disaster-related expenses."
      "https://www.fema.gov/disaster/mock-declaration-1" (today - 2 * 60 * 60 * 1000) today;
    canned "redcross_mock_1" "Red Cross"
      "Emergency Shelters Open in Affected Communities"
      "The American Red Cross has opened emergency shelters in three locations to provide safe housing for displaced families. Shelters are equipped with food, water, and basic necessities."
      "https://www.redcross.org/mock-shelter-update-1" (today - 4 * 60 * 60 * 1000) today;
    canned "nws_mock_1" "National Weather Service"
      "Flash Flood Warning Extended Through Tomorrow"
      "The National Weather Service has extended the flash flood warning for the metropolitan area through tomorrow evening. Residents are advised to avoid travel in low-lying areas and never drive through flooded roads."
      "https://www.weather.gov/mock-flood-warning-1" (today - 6 * 60 * 60 * 1000) today;
    canned "local_emergency_mock_1" "Local Emergency Management"
      "Water Distribution Points Established"
      "Local emergency management has established water distribution points at three locations throughout the city. Each family can receive up to 5 gallons of drinking water per day."
      "https://local-emergency.gov/mock-water-distribution" (today - 8 * 60 * 60 * 1000) today;
    canned "utility_company_mock_1" "Utility Company"
      "Power Restoration Update - 75% of Customers Restored"
      "Power has been restored to 75% of affected customers. Crews are working around the clock to restore service to remaining areas. Full restoration expected within 48 hours."
      "https://utility-company.com/mock-power-update" (today - 10 * 60 * 60 * 1000) today ].

Definition _fetchMockUpdates (keywords : list string) (disasterId : option string)
    : M UpdatesResult :=
  await! today := now in
  let mockUpdates := mockUpdates today in
  let filteredUpdates :=
    if (0 <? Z.of_nat (length keywords)) then
      List.filter (fun update =>
                existsb (fun keyword =>
                           includes (toLowerCase (up_title update)) (toLowerCase keyword)
                           || includes (toLowerCase (up_content update)) (toLowerCase keyword))
                        keywords)
             mockUpdates
    else mockUpdates in
  ret {| updates := filteredUpdates;
         u_disasterId := disasterId;
         u_fetchedAt := today;
         u_totalFound := Z.of_nat (length filteredUpdates) |}.

(** The argument of a spread [push(...v)]: an array, or a plain object. *)
Inductive Spread := SpreadArray (l : list Update) | SpreadObject (r : UpdatesResult).

(** [target.push(...v)]: spreading asks [v] for its iterator, which a
    plain object does not have. *)
Definition push_spread (target : list Update) (v : Spread) : M (list Update) :=
  match v with
  | SpreadArray l => ret (target ++ l)%list
  | SpreadObject _ => throw (Error "mockUpdates is not iterable")
  end.

(** The [for (const source of this.sources)] loop with its inner [try]. *)
Fixpoint fetch_all (remaining : list Source) (keywords : list string)
    (allUpdates : list Update) : M (list Update) :=
  match remaining with
  | [] => ret allUpdates
  | source :: rest =>
      await! allUpdates :=
        try_catch
          (await! updates := _fetchFromSource source keywords in
           push_spread allUpdates (SpreadArray updates))
          (fun error =>
             run! message error in               (* logged with the warning *)
             ret allUpdates)                     (* continue with other sources *)
      in
      fetch_all rest keywords allUpdates
  end.

(** Stable sort, newest first. *)
Fixpoint insert_by_date (u : Update) (sorted : list Update) : list Update :=
  match sorted with
  | [] => [u]
  | v :: rest =>
      if publishedAt u <? publishedAt v then v :: insert_by_date u rest
      else u :: sorted
  end.

Definition sort_newest_first (l : list Update) : list Update :=
  fold_right insert_by_date [] l.

Definition fetchUpdates (disasterId : string) (keywords : list string) : M JsonValue :=
  let cacheKey := cacheKey disasterId keywords in
  try_catch
    (await! cachedResult := getCachedData cacheKey in
     match cachedResult with
     | Some hit => ret hit
     | None =>
         await! allUpdates := fetch_all sources keywords [] in
         (* add mock updates for demonstration *)
         await! mockUpdates := _fetchMockUpdates keywords None in
         await! allUpdates := push_spread allUpdates (SpreadObject mockUpdates) in
         let allUpdates := sort_newest_first allUpdates in
         await! today := now in
         let result :=
           {| updates := allUpdates;
              u_disasterId := Some disasterId;
              u_fetchedAt := today;
              u_totalFound := Z.of_nat (length allUpdates) |} in
         run! setCachedData cacheKey (VUpdates result) 1 in
         ret (VUpdates result)
     end)
    (fun error =>
       run! message error in                     (* logged with the failure *)
       (* fallback to mock response *)
       await! result := _fetchMockUpdates keywords (Some disasterId) in
       ret (VUpdates result)).

End OfficialUpdates.

(* ===================================================================== *)
(** ** Reference definitions taken from the specification's wording *)
(* ===================================================================== *)

Module Spec.

(** "Keyword presence", case-insensitively, as a test. *)
Definition present (content keyword : string) : bool :=
  includes (toLowerCase content) (toLowerCase keyword).

(** "+w for each keyword of the tier that is present". *)
Definition tier (content : string) (w : Z) (keywords : list string) : Z :=
  w * Z.of_nat (length (List.filter (present content) keywords)).

(** "Baseline 1, urgent-tier +3, moderate-tier +2, low-tier +1, capped at 10". *)
Definition spec_priority (content : string) : Z :=
  Z.min 10 (1 + tier content 3 urgentKeywords
              + tier content 2 moderateKeywords
              + tier content 1 lowKeywords).

(** A keyword group matches when one of its keywords occurs in the text. *)
Definition group_matches (text : string) (keywords : list string) : Prop :=
  exists kw, In kw keywords /\ occurs_ci kw text.

(** "Bucketed into one category by first-matching keyword group ...
    general when no group matches". *)
Inductive classifies (text : string) : list (string * list string) -> string -> Prop :=
| classifies_here category keywords rest :
    group_matches text keywords ->
    classifies text ((category, keywords) :: rest) category
| classifies_later category keywords rest result :
    ~ group_matches text keywords ->
    classifies text rest result ->
    classifies text ((category, keywords) :: rest) result
| classifies_general :
    classifies text [] "general".

(** The store is unconfigured ([supabase] is [null]) or unreachable
    (its replies carry an error, or its calls reject). *)
Definition store_down (w : World) : Prop :=
  match supabase w with
  | None => True
  | Some client => health client <> Reachable
  end.

(** A computation that always returns. *)
Definition total {A} (m : M A) : Prop :=
  forall w, exists a w', m w = (Return a, w').

(** A computation that returns or throws an [Error] object, never
    [undefined]. *)
Definition safe {A} (m : M A) : Prop :=
  forall w, exists w',
    (exists a, m w = (Return a, w')) \/ (exists msg, m w = (Throw (Error msg), w')).

(** An attempt fails when it throws. *)
Definition fails {A} (x : Attempt A) : Prop := exists m, x = Fails m.

Definition raises {A} (o : Outcome A) : Prop := exists e, o = Throw e.

(** What a caller of the retry helper observes when the attempts
    numbered [i], [i+1], ... fail [failures] times before a last
    attempt: each failed attempt [i] is followed by a wait of
    [baseDelay * 2^i]. *)
Fixpoint backoff_schedule (baseDelay : Z) (i : Z) (failures : nat) : list Event :=
  match failures with
  | O => [EvInvoke]
  | S n => EvInvoke :: EvDelay (baseDelay * 2 ^ i) :: backoff_schedule baseDelay (i + 1) n
  end.

(** *** Geocoding providers *)

Definition endpoint (s : Geocoding.Service) : Endpoint :=
  match s with
  | SGoogle => EGoogle
  | SMapbox => EMapbox
  | SNominatim => ENominatim
  end.

Definition tag (s : Geocoding.Service) : GeoSource :=
  match s with
  | SGoogle => google
  | SMapbox => mapbox
  | SNominatim => nominatim
  end.

Definition provider_client (s : Geocoding.Service) : string -> M GeocodeResult :=
  match s with
  | SGoogle => _geocodeWithGoogle
  | SMapbox => _geocodeWithMapbox
  | SNominatim => _geocodeWithNominatim
  end.

(** The reply a client settles on when it may send [attempts] requests,
    the first of them being request number [k]: the first one that is
    answered. *)
Fixpoint settled (replies : nat -> Attempt Body) (k attempts : nat) : option Body :=
  match attempts with
  | O => None
  | S n =>
      match replies k with
      | Succeeds body => Some body
      | Fails _ => settled replies (S k) n
      end
  end.

(** A provider "returns a result" when its reply carries a first hit
    (and, for Google, the status OK). *)
Definition usable (s : Geocoding.Service) (body : Body) : option Hit :=
  match body with
  | BGeo status (h :: _) =>
      match s with
      | SGoogle => if String.eqb status "OK" then Some h else None
      | _ => Some h
      end
  | _ => None
  end.

Definition provider_result (s : Geocoding.Service) (w : World) : option GeocodeResult :=
  match settled (network w (endpoint s)) (requests_to (endpoint s) (trace w)) 3 with
  | Some body =>
      match usable s body with
      | Some h => Some (from_hit h (tag s))
      | None => None
      end
  | None => None
  end.

(** Events a geocoding request through service [s] may add to the trace. *)
Definition own_event (ep : Endpoint) (e : Event) : Prop :=
  e = EvRequest ep \/ exists ms, e = EvDelay ms.



(** *** Failing sources *)

(** A reply from which the source client produces nothing: the request
    failed, or the body lacks what the client looks for. A scraped page
    that arrives always yields a (possibly empty) list. *)
Definition unusable (ep : Endpoint) (o : Attempt Body) : bool :=
  match o with
  | Fails _ => true
  | Succeeds body =>
      match ep, body with
      | EGoogle, BGeo status (_ :: _) => negb (String.eqb status "OK")
      | EMapbox, BGeo _ (_ :: _) => false
      | ENominatim, BGeo _ (_ :: _) => false
      | ETwitter, BTwitter (Some _) _ _ => false
      | EBluesky, BBluesky (Some _) => false
      | EPage _, _ => false
      | _, _ => true
      end
  end.

Definition every_source_fails (w : World) : Prop :=
  forall ep k, unusable ep (network w ep k) = true.

End Spec.
Import Spec.

(* ===================================================================== *)
(** ** Concrete inputs used in the examples *)
(* ===================================================================== *)

Module Samples.

Import Audit.



Definition retitle : UpdateBody :=
  {| u_title := Some "Flood in NYC"; u_description := None;
     u_location_name := None; u_tags := None; u_lat := None; u_lng := None |}.




Definition manhattan : GeocodeResult :=
  {| lat := Some 40.7831%Q; lng := Some (-73.9712)%Q;
     formattedAddress := "Manhattan, New York, NY, USA"; source := google |}.

(** A world whose database holds one cache row that expired at 1000. *)
Definition stale_world : World :=
  {| supabase :=
       Some {| health := Reachable;
               cache := {[ "geocode_bWFuaGF0dGFu" :=
                             {| value := VGeocode manhattan; expires_at := 1000 |} ]} |};
     clock := 1001;
     network := fun _ _ => Fails "offline";
     zone := utc;
     random := fun _ => 0.5%Q;
     draws := 0;
     trace := [] |}.

(** A world without a database and without a network. *)
Definition offline_world : World :=
  {| supabase := None;
     clock := 0;
     network := fun _ _ => Fails "offline";
     zone := utc;
     random := fun _ => 0.5%Q;
     draws := 0;
     trace := [] |}.

Definition paris : Hit :=
  {| hit_lat := 48.8566%Q; hit_lng := 2.3522%Q; hit_address := "Paris, France" |}.


(** No database; Google is down while Mapbox and Nominatim answer. *)
Definition google_down : World :=
  {| supabase := None;
     clock := 0;
     network := fun ep _ =>
                  match ep with
                  | EMapbox | ENominatim => Succeeds (BGeo "" [paris])
                  | _ => Fails "ETIMEDOUT"
                  end;
     zone := utc;
     random := fun _ => 0.5%Q;
     draws := 0;
     trace := [] |}.

(** An operation that fails twice and then succeeds. *)
Definition flaky (k : nat) : Attempt string :=
  match k with
  | 0%nat => Fails "first"
  | 1%nat => Fails "second"
  | _ => Succeeds "done"
  end.

End Samples.

(* ===================================================================== *)
(** ** More of config/database.js *)
(* ===================================================================== *)

Module Sweep.

(** [supabase.from('cache').delete().lt('expires_at', today)]: whether
    the reply's [error] is set. *)
Definition cache_delete_expired (today : Z) : M bool := fun w =>
  match supabase w with
  | None => (Throw (Error "Cannot read properties of null"), w)
  | Some client =>
      match health client with
      | Rejects => (Throw (Error "fetch failed"), w)
      | ErrorReply => (Return true, w)
      | Reachable =>
          (Return false,
           with_client
             (Some {| health := Reachable;
                      cache := filter (fun kv : string * CacheRow =>
                                         today <= expires_at (snd kv))
                                      (cache client) |}) w)
      end
  end.

Definition clearExpiredCache : M unit :=
  try_catch
    (await! today := now in
     await! error := cache_delete_expired today in
     ret tt)
    (fun error => ret tt).

End Sweep.

(* ===================================================================== *)
(** ** Reverse geocoding (services/geocodingService.js) *)
(* ===================================================================== *)

Module ReverseGeocoding.

(** [x.toFixed(4)] for a number below 10^21 in magnitude: the nearest
    multiple of 0.0001, ties upwards, printed with four decimals. *)
Definition pad4 (n : Z) : string :=
  let digits := OfficialUpdates.show_nat (Z.to_nat n) in
  take (4 - String.length digits) "0000" ++ digits.

Definition toFixed4 (x : Q) : string :=
  let negative := negb (Qle_bool 0 x) in
  let magnitude := if negative then Qopp x else x in
  let n := Qfloor (magnitude * 10000 + (1 # 2))%Q in
  (if negative then "-" else "")
    ++ OfficialUpdates.show_nat (Z.to_nat (n / 10000)) ++ "." ++ pad4 (n mod 10000).

Section WithNumberFormat.

(** How a number prints inside a template literal. *)
Variable show_number : Q -> string.

Definition cacheKey (lat lng : Q) : string :=
  "reverse_geocode_" ++ show_number lat ++ "_" ++ show_number lng.

Definition _reverseGeocodeWithGoogle (lat lng : Q) : M GeocodeResult :=
  logged
    (await! response := retryWithBackoff (axios_get EGoogle) 3 1000 in
     match response with
     | BGeo status (result :: _) =>
         if String.eqb status "OK"
         then ret {| lat := None; lng := None;
                     formattedAddress := hit_address result; source := google |}
         else throw (Error ("Google Maps API error: " ++ status))
     | BGeo status [] => throw (Error ("Google Maps API error: " ++ status))
     | _ => throw (Error "Google Maps API error: undefined")
     end).

Definition _reverseGeocodeMock (lat lng : Q) : M GeocodeResult :=
  ret {| lat := None; lng := None;
         formattedAddress := toFixed4 lat ++ ", " ++ toFixed4 lng;
         source := mock |}.

(** Calling a method the class does not define. *)
Definition not_a_function {A} (method : string) : M A :=
  throw (Error (method ++ " is not a function")).

Definition reverseGeocode (service : Geocoding.Service) (lat lng : Q) : M JsonValue :=
  if negb (MoreHelpers.isValidCoordinates lat lng) then
    throw (Error "Invalid coordinates provided")
  else
    let cacheKey := cacheKey lat lng in
    try_catch
      (await! cachedResult := getCachedData cacheKey in
       match cachedResult with
       | Some hit => ret hit
       | None =>
           await! result :=
             match service with
             | SGoogle => _reverseGeocodeWithGoogle lat lng
             | SMapbox => not_a_function "this._reverseGeocodeWithMapbox"
             | SNominatim => not_a_function "this._reverseGeocodeWithNominatim"
             end in
           run! setCachedData cacheKey (VGeocode result) 24 in
           ret (VGeocode result)
       end)
      (fun error =>
         run! message error in                     (* logged with the failure *)
         (* fallback to mock response *)
         await! result := _reverseGeocodeMock lat lng in
         ret (VGeocode result)).

End WithNumberFormat.

End ReverseGeocoding.

(* ===================================================================== *)
(** ** Mock image verification (services/geminiService.js) *)
(* ===================================================================== *)

Module ImageMock.

Record Analysis := {
  a_isAuthentic : bool;
  a_confidence : Z;
  a_disasterType : option string;
  a_reasoning : string;
  a_manipulationSigns : list string;
  a_source : string
}.

Definition disasterTypes : list string := ["flood"; "fire"; "earthquake"; "storm"; "accident"].

(** [_verifyImageMock(imageUrl)] *)
Definition _verifyImageMock (imageUrl : string) : M Analysis :=
  let isAuthentic :=
    negb (includes imageUrl "fake") && negb (includes imageUrl "test")
    && negb (includes imageUrl "mock") in
  await! r1 := math_random in
  let confidence := Qfloor (r1 * 30)%Q + 70 in
  await! r2 := math_random in
  let disasterType := nth_error disasterTypes (Z.to_nat (Qfloor (r2 * 5)%Q)) in
  ret {| a_isAuthentic := isAuthentic;
         a_confidence := confidence;
         a_disasterType := if isAuthentic then disasterType else None;
         a_reasoning :=
           if isAuthentic
           then "Image appears to show genuine " ++ default "undefined" disasterType
                ++ " damage and conditions consistent with disaster scenarios."
           else "Image shows signs of potential manipulation or inconsistencies.";
         a_manipulationSigns :=
           if isAuthentic then [] else ["Inconsistent lighting"; "Unusual artifacts"];
         a_source := "mock" |}.

(** The two fields the verification routes read. *)
Definition as_result (a : Analysis) : ImageVerification.VerificationResult :=
  {| ImageVerification.isAuthentic := a_isAuthentic a;
     ImageVerification.confidence := inject_Z (a_confidence a) |}.

End ImageMock.

(* ===================================================================== *)
(** ** Authentication and authorisation (middleware/auth.js) and the
       disaster routes behind them *)
(* ===================================================================== *)

Module Auth.

Record AuthUser := {
  au_id : string; au_name : string; au_role : string; au_permissions : list string
}.

Definition mockUsers : list (string * AuthUser) :=
  [ ("netrunnerX",
     {| au_id := "netrunnerX"; au_name := "Emergency Coordinator"; au_role := "admin";
        au_permissions :=
          ["create"; "read"; "update"; "delete"; "manage_users"; "verify_images"] |});
    ("reliefAdmin",
     {| au_id := "reliefAdmin"; au_name := "Relief Administrator"; au_role := "contributor";
        au_permissions := ["create"; "read"; "update"; "verify_reports"] |});
    ("citizen1",
     {| au_id := "citizen1"; au_name := "Citizen Reporter"; au_role := "reporter";
        au_permissions := ["create"; "read"] |});
    ("responder1",
     {| au_id := "responder1"; au_name := "First Responder"; au_role := "responder";
        au_permissions := ["read"; "update"; "create_reports"] |}) ].

(** Property names every object literal inherits from [Object.prototype]. *)
Definition prototype_properties : list string :=
  [ "constructor"; "__defineGetter__"; "__defineSetter__"; "hasOwnProperty";
    "__lookupGetter__"; "__lookupSetter__"; "isPrototypeOf"; "propertyIsEnumerable";
    "toString"; "valueOf"; "__proto__"; "toLocaleString" ].

(** What [req.user] can be after [authMiddleware]: one of the four
    users, or a value inherited from the prototype, which has neither
    [id] nor [permissions]. *)
Inductive ReqUser := KnownUser (u : AuthUser) | PrototypeValue.

Fixpoint own_user (userId : string) (table : list (string * AuthUser)) : option AuthUser :=
  match table with
  | [] => None
  | (k, u) :: rest => if String.eqb k userId then Some u else own_user userId rest
  end.

(** [mockUsers[userId]] *)
Definition lookup_user (userId : string) : option ReqUser :=
  match own_user userId mockUsers with
  | Some u => Some (KnownUser u)
  | None =>
      if MoreHelpers.array_includes prototype_properties userId
      then Some PrototypeValue else None
  end.

Fixpoint drop_chars (n : nat) (s : string) : string :=
  match n, s with
  | S n', String _ s' => drop_chars n' s'
  | _, _ => s
  end.

(** [s.replace(pattern, '')]: the first occurrence is removed. *)
Fixpoint remove_first (pattern s : string) {struct s} : string :=
  if startsWith s pattern then drop_chars (String.length pattern) s
  else match s with
       | EmptyString => EmptyString
       | String c s' => String c (remove_first pattern s')
       end.

Record Headers := { x_user_id : option string; authorization : option string }.

(** A header that is set and not empty. *)
Definition header_value (h : option string) : option string :=
  match h with
  | Some v => if String.eqb v "" then None else Some v
  | None => None
  end.

(** [authMiddleware]: a status to answer with, or the user to go on with. *)
Definition authMiddleware (headers : Headers) : Z + ReqUser :=
  let userId :=
    match header_value (x_user_id headers) with
    | Some v => Some v
    | None =>
        match authorization headers with
        | Some a => header_value (Some (remove_first "Bearer " a))
        | None => None
        end
    end in
  match userId with
  | None => inl 401
  | Some userId =>
      match lookup_user userId with
      | None => inl 401
      | Some user => inr user
      end
  end.

(** [requirePermission(permission)]: a status to answer with, or the
    known user to go on with. Reading [permissions.includes] off a
    prototype value throws, which the middleware answers with 500. *)
Definition requirePermission (permission : string) (user : ReqUser) : Z + AuthUser :=
  match user with
  | KnownUser u =>
      if MoreHelpers.array_includes (au_permissions u) permission then inr u else inl 403
  | PrototypeValue => inl 500
  end.

(** [hasPermission(user, permission)] for a known user. *)
Definition hasPermission (u : AuthUser) (permission : string) : bool :=
  MoreHelpers.array_includes (au_permissions u) permission.

Definition as_user (u : AuthUser) : Audit.User :=
  {| Audit.user_id := au_id u; Audit.role := au_role u |}.

(** DELETE /api/disasters/:id, for an identifier that passed validation. *)
Definition delete_disaster (table : gmap string Audit.Disaster) (id : string)
    (user : Audit.User) : Z * gmap string Audit.Disaster :=
  match table !! id with
  | None => (404, table)
  | Some existingDisaster =>
      if Audit.requireOwnership existingDisaster user
      then (200, delete id table)
      else (403, table)
  end.

(** What the rate limiters (middleware/rateLimit.js) hold about the
    caller's address when a request arrives: the ceiling configured for
    the general limiter (100 unless the environment sets another), and
    the requests already counted in the current window by the general
    limiter and by the limiter of POST /api/disasters. *)
Record Window := { general_max : nat; general_hits : nat; create_hits : nat }.

(** [generalLimiter] and [createDisasterLimiter] (five requests in ten
    minutes): [true] when the request is refused, with 429. *)
Definition generalLimiter (window : Window) : bool :=
  (general_max window <=? general_hits window)%nat.

Definition createDisasterLimiter (window : Window) : bool :=
  (5 <=? create_hits window)%nat.

(** POST /api/disasters as mounted: [generalLimiter], [authMiddleware],
    [createDisasterLimiter], [requirePermission], then the handler. *)
Definition api_post (window : Window) (headers : Headers)
    (table : gmap string Audit.Disaster)
    (newId : string) (body : Audit.CreateBody) (today : Z)
    : Z * gmap string Audit.Disaster :=
  if generalLimiter window then (429, table)
  else
    match authMiddleware headers with
    | inl status => (status, table)
    | inr user =>
        if createDisasterLimiter window then (429, table)
        else
          match requirePermission "create" user with
          | inl status => (status, table)
          | inr u => Audit.post_disaster table newId body (as_user u) today
          end
    end.

(** PUT and DELETE /api/disasters/:id for a request that the general
    limiter lets pass: [authMiddleware], then [requirePermission], then
    the handler. *)

Definition api_put (headers : Headers) (table : gmap string Audit.Disaster)
    (id : string) (body : Audit.UpdateBody) (today : Z)
    : Z * gmap string Audit.Disaster :=
  match authMiddleware headers with
  | inl status => (status, table)
  | inr user =>
      match requirePermission "update" user with
      | inl status => (status, table)
      | inr u => Audit.put_disaster table id body (as_user u) today
      end
  end.

Definition api_delete (headers : Headers) (table : gmap string Audit.Disaster)
    (id : string) : Z * gmap string Audit.Disaster :=
  match authMiddleware headers with
  | inl status => (status, table)
  | inr user =>
      match requirePermission "delete" user with
      | inl status => (status, table)
      | inr u => delete_disaster table id (as_user u)
      end
  end.

End Auth.

(* ===================================================================== *)
(** ** Vocabulary for the further properties *)
(* ===================================================================== *)

Module Frames.

(** A computation that leaves the database as it found it. *)
Definition keeps_store {A} (m : M A) : Prop :=
  forall w, supabase (snd (m w)) = supabase w.

(** A computation that only ever adds to the trace. *)
Definition extends_trace {A} (m : M A) : Prop :=
  forall w, exists evs, trace (snd (m w)) = (trace w ++ evs)%list.

(** The world at another time of day. *)
Definition at_time (t : Z) (w : World) : World :=
  {| supabase := supabase w; clock := t; network := network w;
     zone := zone w; random := random w; draws := draws w; trace := trace w |}.

(** Number of keywords of a list that occur in a text. *)
Definition hits (content : string) (keywords : list string) : Z :=
  tier content 1 keywords.

Definition category_names : list string :=
  map fst categories ++ ["general"].

(** A URL with a scheme of the web, not a path relative to a page. *)
Definition absolute (url : string) : bool :=
  startsWith url "http://" || startsWith url "https://".

(** A computation that sends at least one request to [ep]. *)
Definition asks {A} (ep : Endpoint) (m : M A) : Prop :=
  forall w, (requests_to ep (trace w) < requests_to ep (trace (snd (m w))))%nat.

(** A computation after which no request to [ep] is missing from the trace. *)
Definition keeps_requests {A} (ep : Endpoint) (m : M A) : Prop :=
  forall w, (requests_to ep (trace w) <= requests_to ep (trace (snd (m w))))%nat.

(** One round of the loop over the sources. *)
Definition one_source (source : OfficialUpdates.Source) (keywords : list string)
    (allUpdates : list Update) : M (list Update) :=
  try_catch
    (await! updates := OfficialUpdates._fetchFromSource source keywords in
     OfficialUpdates.push_spread allUpdates (OfficialUpdates.SpreadArray updates))
    (fun error => run! message error in ret allUpdates).

End Frames.

(* ===================================================================== *)
(** ** Further concrete inputs *)
(* ===================================================================== *)

Module MoreSamples.

Definition fema : OfficialUpdates.Source :=
  {| OfficialUpdates.name := "FEMA";
     OfficialUpdates.src_url := "https://www.fema.gov/disaster/current";
     OfficialUpdates.origin := "https://www.fema.gov";
     OfficialUpdates.pathname := "/disaster/current" |}.

(** A page with two matched elements. *)
Definition fema_page : list Scraped :=
  [ {| sc_title := "Flood declaration"; sc_link := Some "/disaster/4700";
       sc_content := ""; sc_date := 10 |};
    {| sc_title := "Wildfire briefing"; sc_link := None;
       sc_content := "Evacuation routes"; sc_date := 20 |} ].

(** No database; every page answers with [fema_page]. *)
Definition page_world : World :=
  {| supabase := None;
     clock := 100;
     network := fun ep _ =>
                  match ep with
                  | EPage _ => Succeeds (BHtml fema_page)
                  | _ => Fails "offline"
                  end;
     zone := utc;
     random := fun _ => 0.5%Q;
     draws := 0;
     trace := [] |}.

(** A zone five hours behind UTC in which clocks go forward by an hour
    at the instant [change], from 02:00 to 03:00: from then on, and for
    local times from 03:00 of that day on, the offset is four hours. *)
Definition change : Z := 10 * day_ms + 7 * hour_ms.

Definition spring : TimeZone :=
  {| standard := - (5 * hour_ms);
     shift_at := fun t => if change <=? t then hour_ms else 0;
     shift_of_local := fun t => if change - 4 * hour_ms <=? t then hour_ms else 0 |}.

(** 14:00 local time on the day before the change. *)
Definition day_before : Z := change - 12 * hour_ms.

Definition spring_world : World :=
  {| supabase := Some {| health := Reachable; cache := ∅ |};
     clock := day_before;
     network := fun _ _ => Fails "offline";
     zone := spring;
     random := fun _ => 0.5%Q;
     draws := 0;
     trace := [] |}.

(** The same zone when clocks go back by an hour at [change], from
    03:00 to 02:00: until then, and for local times before 03:00 of that
    day (those of the repeated hour included), the offset is four hours. *)
Definition autumn : TimeZone :=
  {| standard := - (5 * hour_ms);
     shift_at := fun t => if t <? change then hour_ms else 0;
     shift_of_local := fun t => if t <? change - 4 * hour_ms then hour_ms else 0 |}.

(** Half an hour after the change: 02:30 local time, for the second time. *)
Definition autumn_world : World :=
  {| supabase := Some {| health := Reachable; cache := ∅ |};
     clock := change + hour_ms / 2;
     network := fun _ _ => Fails "offline";
     zone := autumn;
     random := fun _ => 0.5%Q;
     draws := 0;
     trace := [] |}.

Definition as_citizen1 : Auth.Headers :=
  {| Auth.x_user_id := Some "citizen1"; Auth.authorization := None |}.

(** A quiet address: nothing counted against it yet. *)
Definition quiet : Auth.Window :=
  {| Auth.general_max := 100; Auth.general_hits := 0; Auth.create_hits := 0 |}.

(** An address that has already sent five POSTs in the window. *)
Definition busy : Auth.Window :=
  {| Auth.general_max := 100; Auth.general_hits := 5; Auth.create_hits := 5 |}.

(** An update whose coordinates were sent as strings. *)
Definition move_by_strings : Audit.UpdateBody :=
  {| Audit.u_title := None; Audit.u_description := None;
     Audit.u_location_name := None; Audit.u_tags := None;
     Audit.u_lat := Some (Audit.CoordString "40.7");
     Audit.u_lng := Some (Audit.CoordString "-74") |}.

Definition as_reliefAdmin : Auth.Headers :=
  {| Auth.x_user_id := None; Auth.authorization := Some "Bearer reliefAdmin" |}.

Definition report_flood : Audit.CreateBody :=
  {| Audit.c_title := "Flood"; Audit.c_description := None;
     Audit.c_location_name := None; Audit.c_tags := None;
     Audit.c_lat := None; Audit.c_lng := None |}.

End MoreSamples.

(* ===================================================================== *)
(** * Properties *)
(* ===================================================================== *)

(** ** Strings *)

(** stdpp keeps [simpl] from unfolding string concatenation; the proofs
    below step through it. *)
#[local] Arguments String.append !s1 s2 : simpl nomatch.

Section StringFacts.

Lemma append_assoc (a b c : string) : (a ++ b) ++ c = a ++ (b ++ c).
Proof. induction a as [|x a IH]; simpl; [reflexivity | now rewrite IH]. Qed.

Lemma append_empty_r (a : string) : a ++ "" = a.
Proof. induction a as [|x a IH]; simpl; [reflexivity | now rewrite IH]. Qed.

Lemma startsWith_spec (s p : string) :
  startsWith s p = true <-> exists post, s = p ++ post.
Proof.
  revert s. induction p as [|a p IH]; intros s; simpl.
  - split; [intros _; now exists s | reflexivity].
  - destruct s as [|b s].
    + split; [discriminate | intros [post H]; discriminate].
    + rewrite andb_true_iff, IH, Ascii.eqb_eq. split.
      * intros [-> [post ->]]. now exists post.
      * intros [post H]. injection H as -> ->. split; [reflexivity | now exists post].
Qed.

Lemma includes_spec (s sub : string) :
  includes s sub = true <-> exists pre post, s = pre ++ sub ++ post.
Proof.
  induction s as [|c s IH]; simpl; rewrite orb_true_iff, startsWith_spec.
  - split.
    + intros [[post H] | H]; [now exists "", post | discriminate].
    + intros [pre [post H]]. left. destruct pre; [now exists post | discriminate].
  - rewrite IH. split.
    + intros [[post H] | [pre [post H]]].
      * now exists "", post.
      * exists (String c pre), post. simpl. now rewrite H.
    + intros [pre [post H]]. destruct pre as [|d pre]; simpl in H.
      * left. now exists post.
      * right. injection H as _ H. now exists pre, post.
Qed.

Lemma toLowerCase_app (a b : string) :
  toLowerCase (a ++ b) = toLowerCase a ++ toLowerCase b.
Proof. induction a as [|x a IH]; simpl; [reflexivity | now rewrite IH]. Qed.

Lemma toLowerCase_split (s x y : string) :
  toLowerCase s = x ++ y ->
  exists a b, s = a ++ b /\ toLowerCase a = x /\ toLowerCase b = y.
Proof.
  revert s. induction x as [|c x IH]; intros s H; simpl in H.
  - now exists "", s.
  - destruct s as [|d s]; [discriminate |]. simpl in H. injection H as Hc H.
    destruct (IH _ H) as [a [b [-> [Ha Hb]]]].
    exists (String d a), b. simpl. now rewrite Hc, Ha.
Qed.

(** The test the code performs is the specification's case-insensitive
    substring match. *)
Lemma present_iff_occurs (content keyword : string) :
  present content keyword = true <-> occurs_ci keyword content.
Proof.
  unfold present, occurs_ci. rewrite includes_spec. split.
  - intros [x [z H]].
    destruct (toLowerCase_split _ _ _ H) as [pre [rest [-> [_ Hrest]]]].
    destruct (toLowerCase_split _ _ _ Hrest) as [mid [post [-> [Hmid _]]]].
    now exists pre, mid, post.
  - intros [pre [mid [post [-> Hmid]]]].
    exists (toLowerCase pre), (toLowerCase post).
    now rewrite !toLowerCase_app, Hmid.
Qed.

End StringFacts.

(** ** Worked examples *)

Example score_sos : _calculatePriorityScore "SOS! Roof collapsed" = 4.
Proof. reflexivity. Qed.

Example score_capped :
  _calculatePriorityScore
    "URGENT: Medical assistance needed at 123 Oak Street. Elderly person trapped. #SOS #medical #emergency"
  = 10.
Proof. reflexivity. Qed.

Example score_baseline : _calculatePriorityScore "Sunny day downtown" = 1.
Proof. reflexivity. Qed.

Example categorize_general : _categorizeReport "Sunny day downtown" = "general".
Proof. reflexivity. Qed.

Example categorize_medical_before_rescue :
  _categorizeReport "Trapped, need a DOCTOR" = "medical".
Proof. reflexivity. Qed.

Example cache_key_manhattan :
  Geocoding.cacheKey "Manhattan, NYC" = "geocode_bWFuaGF0dGFuLCBueWM=".
Proof. reflexivity. Qed.

Example status_examples :
  ImageVerification.verificationStatus
    {| ImageVerification.isAuthentic := true; ImageVerification.confidence := 80 |}
  = ImageVerification.verified
  /\ ImageVerification.verificationStatus
       {| ImageVerification.isAuthentic := true; ImageVerification.confidence := 79.5 |}
     = ImageVerification.pending
  /\ ImageVerification.verificationStatus
       {| ImageVerification.isAuthentic := true; ImageVerification.confidence := 49 |}
     = ImageVerification.rejected
  /\ ImageVerification.verificationStatus
       {| ImageVerification.isAuthentic := false; ImageVerification.confidence := 95 |}
     = ImageVerification.rejected.
Proof. repeat split. Qed.

(** ** Social media heuristics *)

Section HeuristicFacts.

(** Every keyword the service looks for is already in lower case. *)
Lemma priority_keywords_lower :
  Forall lower_case urgentKeywords /\ Forall lower_case moderateKeywords
  /\ Forall lower_case lowKeywords.
Proof. repeat split; repeat constructor. Qed.

Lemma category_keywords_lower :
  Forall (fun entry => Forall lower_case (snd entry)) categories.
Proof. repeat constructor. Qed.

Lemma fold_bump (content : string) (w : Z) (kws : list string) (acc : Z) :
  Forall lower_case kws ->
  fold_left (bump (toLowerCase content) w) kws acc = acc + tier content w kws.
Proof.
  unfold tier. intros Hlow. revert acc.
  induction Hlow as [|kw kws Hkw _ IH]; intros acc; simpl.
  - lia.
  - rewrite IH. unfold bump, present. rewrite Hkw.
    destruct (includes (toLowerCase content) kw); simpl length; lia.
Qed.

Lemma tier_nonneg (content : string) (w : Z) (kws : list string) :
  0 <= w -> 0 <= tier content w kws.
Proof. unfold tier. intros. apply Z.mul_nonneg_nonneg; lia. Qed.

Lemma tier_hit (content : string) (w : Z) (kws : list string) (kw : string) :
  0 <= w -> In kw kws -> present content kw = true -> w <= tier content w kws.
Proof.
  intros Hw Hin Hp. unfold tier.
  assert (Hf : In kw (List.filter (present content) kws)) by (apply filter_In; auto).
  destruct (List.filter (present content) kws) as [|x l]; [destruct Hf |].
  simpl length. nia.
Qed.

Lemma group_matches_existsb (text : string) (kws : list string) :
  Forall lower_case kws ->
  existsb (fun keyword => includes (toLowerCase text) keyword) kws = true
  <-> group_matches text kws.
Proof.
  intros Hlow. unfold group_matches. rewrite existsb_exists. split.
  - intros [kw [Hin Hinc]]. exists kw. split; [assumption |].
    apply present_iff_occurs. unfold present.
    rewrite List.Forall_forall in Hlow. now rewrite (Hlow kw Hin).
  - intros [kw [Hin Hocc]]. exists kw. split; [assumption |].
    apply present_iff_occurs in Hocc. unfold present in Hocc.
    rewrite List.Forall_forall in Hlow. now rewrite (Hlow kw Hin) in Hocc.
Qed.

Lemma first_match_classifies (text : string) (entries : list (string * list string)) :
  Forall (fun entry => Forall lower_case (snd entry)) entries ->
  forall cat, classifies text entries cat <-> first_match (toLowerCase text) entries = cat.
Proof.
  intros Hlow cat. split.
  - intros Hc. induction Hc as [c kws rest Hm | c kws rest res Hn _ IH |]; simpl.
    + inversion Hlow as [|? ? Hk _]; subst. simpl in Hk.
      apply (group_matches_existsb text kws Hk) in Hm. now rewrite Hm.
    + inversion Hlow as [|? ? Hk Hrest]; subst. simpl in Hk.
      destruct (existsb _ kws) eqn:E.
      * apply (group_matches_existsb text kws Hk) in E. contradiction.
      * now apply IH.
    + reflexivity.
  - revert cat. induction Hlow as [|[c kws] rest Hk _ IH]; intros cat H; simpl in *.
    + subst. constructor.
    + destruct (existsb _ kws) eqn:E.
      * subst. constructor. now apply (group_matches_existsb text kws Hk).
      * apply classifies_later; [| now apply IH].
        intros Hm. apply (group_matches_existsb text kws Hk) in Hm. congruence.
Qed.

Lemma filter_sublist {A} (f : A -> bool) (l : list A) : sublist (List.filter f l) l.
Proof.
  induction l as [|x l IH]; simpl; [constructor |].
  destruct (f x); now constructor.
Qed.

End HeuristicFacts.

(** C5. The priority score of a post is the baseline 1 plus 3 for every
    urgent keyword, 2 for every moderate keyword and 1 for every low
    keyword that occurs in the content case-insensitively, capped at 10;
    a post with an urgent keyword scores at least baseline + 3, and every
    score lies between 1 and 10. *)
Theorem priority_score_weighted_capped (content : string) :
  _calculatePriorityScore content = spec_priority content
  /\ (forall kw, present content kw = true <-> occurs_ci kw content)
  /\ (forall kw, In kw urgentKeywords -> occurs_ci kw content ->
        1 + 3 <= _calculatePriorityScore content)
  /\ 1 <= _calculatePriorityScore content <= 10.
Proof.
  destruct priority_keywords_lower as [Hu [Hm Hl]].
  assert (Heq : _calculatePriorityScore content = spec_priority content).
  { unfold _calculatePriorityScore, spec_priority.
    rewrite (fold_bump content 3 _ _ Hu), (fold_bump content 2 _ _ Hm),
      (fold_bump content 1 _ _ Hl). reflexivity. }
  pose proof (tier_nonneg content 3 urgentKeywords ltac:(lia)) as H3.
  pose proof (tier_nonneg content 2 moderateKeywords ltac:(lia)) as H2.
  pose proof (tier_nonneg content 1 lowKeywords ltac:(lia)) as H1.
  split; [exact Heq |]. split; [intros kw; apply present_iff_occurs |]. split.
  - intros kw Hin Hocc. apply present_iff_occurs in Hocc.
    pose proof (tier_hit content 3 urgentKeywords kw ltac:(lia) Hin Hocc) as Hhit.
    rewrite Heq. unfold spec_priority. lia.
  - rewrite Heq. unfold spec_priority. lia.
Qed.

Lemma priority_score_weighted_capped_witness :
  1 + 3 <= _calculatePriorityScore "SOS - roof collapsed".
Proof.
  apply (proj1 (proj2 (proj2 (priority_score_weighted_capped "SOS - roof collapsed"))) "sos").
  - simpl. tauto.
  - exists "", "SOS", " - roof collapsed". split; reflexivity.
Defined.

(** C6. Classification returns exactly one category: that of the first
    keyword group, in the order medical, shelter, food_water, rescue,
    information, volunteer, infrastructure, with a keyword occurring in
    the text case-insensitively, and general when no group matches. The
    category is a function of the text alone. *)
Theorem categorize_first_match_wins (text : string) :
  map fst categories =
    ["medical"; "shelter"; "food_water"; "rescue"; "information"; "volunteer";
     "infrastructure"]
  /\ (forall cat, classifies text categories cat <-> _categorizeReport text = cat)
  /\ (exists cat, classifies text categories cat)
  /\ (forall c1 c2,
        classifies text categories c1 -> classifies text categories c2 -> c1 = c2).
Proof.
  pose proof (first_match_classifies text categories category_keywords_lower) as H.
  split; [reflexivity |]. split; [exact H |]. split.
  - exists (_categorizeReport text). now apply H.
  - intros c1 c2 H1 H2. apply H in H1, H2. congruence.
Qed.

Lemma categorize_first_match_wins_witness :
  _categorizeReport "Need FOOD at the shelter" = "shelter"
  /\ classifies "Need FOOD at the shelter" categories "shelter".
Proof.
  split; [reflexivity |].
  apply (proj1 (proj2 (categorize_first_match_wins "Need FOOD at the shelter"))).
  reflexivity.
Defined.

(** C10. The mock social-media fetch returns, in their original order,
    exactly the canned posts whose content contains one of the keywords
    as a case-insensitive substring, and all five canned posts for an
    empty keyword list; it never throws, and for the non-empty keyword
    list [["earthquake"]] it returns no report at all. *)
Theorem mock_reports_keyword_filter
    (keywords : list string) (disasterId : option string) (w : World) :
  exists r,
    SocialMedia._fetchMockReports keywords disasterId w = (Return r, w)
    /\ s_source r = "mock"
    /\ length (SocialMedia.mockReports (clock w)) = 5%nat
    /\ (keywords = [] -> reports r = SocialMedia.mockReports (clock w))
    /\ (forall rep,
          In rep (reports r) <->
          In rep (SocialMedia.mockReports (clock w))
          /\ (keywords = [] \/ exists kw, In kw keywords /\ occurs_ci kw (content rep)))
    /\ sublist (reports r) (SocialMedia.mockReports (clock w))
    /\ exists r0,
         SocialMedia._fetchMockReports ["earthquake"] disasterId w = (Return r0, w)
         /\ reports r0 = [] /\ totalFound r0 = 0.
Proof.
  eexists. split; [unfold SocialMedia._fetchMockReports, bind, now, ret; reflexivity |].
  cbn [reports s_source totalFound].
  split; [reflexivity |]. split; [reflexivity |].
  split; [| split; [| split]].
  - intros ->. reflexivity.
  - intros rep. generalize (SocialMedia.mockReports (clock w)). intros posts.
    destruct keywords as [|k ks].
    + cbn [length Z.of_nat Z.ltb Z.compare].
      split; [intros H; split; [exact H | now left] | intros [H _]; exact H].
    + replace (0 <? Z.of_nat (length (k :: ks))) with true
        by (symmetry; apply Z.ltb_lt; cbn [length]; lia).
      rewrite filter_In, existsb_exists. split.
      * intros [Hin [kw [Hkw Hp]]]. split; [exact Hin |]. right.
        exists kw. split; [exact Hkw | now apply present_iff_occurs].
      * intros [Hin [Hk | [kw [Hkw Hocc]]]]; [discriminate |].
        split; [exact Hin |]. exists kw. split; [exact Hkw |].
        now apply present_iff_occurs.
  - generalize (SocialMedia.mockReports (clock w)). intros posts.
    destruct (0 <? Z.of_nat (length keywords)); [apply filter_sublist | reflexivity].
  - eexists. split; [unfold SocialMedia._fetchMockReports, bind, now, ret; reflexivity |].
    split; reflexivity.
Qed.

Lemma mock_reports_keyword_filter_witness :
  exists r,
    SocialMedia._fetchMockReports ["shelter"] None
      {| supabase := None; clock := 0; network := fun _ _ => Fails "offline";
         zone := utc; random := fun _ => 0%Q; draws := 0; trace := [] |}
    = (Return r,
       {| supabase := None; clock := 0; network := fun _ _ => Fails "offline";
          zone := utc; random := fun _ => 0%Q; draws := 0; trace := [] |})
    /\ map id (reports r) = ["mock_2"].
Proof.
  destruct (mock_reports_keyword_filter ["shelter"] None
              {| supabase := None; clock := 0; network := fun _ _ => Fails "offline";
                 zone := utc; random := fun _ => 0%Q; draws := 0; trace := [] |})
    as [r [Hrun _]].
  exists r. split; [exact Hrun |].
  injection Hrun as <-. reflexivity.
Defined.

(** ** Image verification *)

Import ImageVerification.

(** C7. The verification status is verified exactly when the image is
    authentic with confidence at least 80, rejected exactly when it is
    not authentic or its confidence is below 50, and pending exactly in
    the remaining case (authentic, confidence from 50 up to but not
    including 80); exactly one of the three holds. *)
Theorem verification_status_thresholds (r : VerificationResult) :
  (verificationStatus r = verified <->
     isAuthentic r = true /\ (80 <= confidence r)%Q)
  /\ (verificationStatus r = rejected <->
        isAuthentic r = false \/ (confidence r < 50)%Q)
  /\ (verificationStatus r = pending <->
        isAuthentic r = true /\ (50 <= confidence r)%Q /\ (confidence r < 80)%Q).
Proof.
  unfold verificationStatus, geq, lt.
  destruct r as [auth conf]; simpl.
  pose proof (Qle_bool_iff 80 conf) as H80.
  pose proof (Qle_bool_iff 50 conf) as H50.
  assert (Hord : (80 <= conf)%Q -> (50 <= conf)%Q).
  { intros H. apply Qle_trans with (y := 80%Q); [discriminate | exact H]. }
  destruct auth; simpl;
    destruct (Qle_bool 80 conf) eqn:E80; destruct (Qle_bool 50 conf) eqn:E50; simpl;
    repeat split; intros; try discriminate; try tauto;
    try (exfalso; intuition congruence);
    try (apply H80; reflexivity); try (apply H50; reflexivity);
    try (apply Qnot_le_lt; intros Hc; apply H80 in Hc; congruence);
    try (apply Qnot_le_lt; intros Hc; apply H50 in Hc; congruence);
    try (left; reflexivity);
    try (right; apply Qnot_le_lt; intros Hc; apply H50 in Hc; congruence).
  all: try (destruct H as [H|H]; [discriminate | apply Qlt_not_le in H; exfalso; apply H; apply H50; reflexivity]).
  all: try (destruct H as [_ [_ H]]; apply Qlt_not_le in H; exfalso; apply H; apply H80; reflexivity).
  all: try (destruct H as [_ [H _]]; apply H50 in H; congruence).
  all: try (destruct H as [_ H]; apply H80 in H; congruence).
Qed.

(** ** Audit trail *)

Import Audit.

(** [addAuditEntry] returns the prior trail, unchanged and in order,
    followed by exactly one new entry carrying the action, the user, the
    time and the details. *)
Lemma addAuditEntry_appends (t : list AuditEntry) (a u : string) (d : Details) (now : Z) :
  addAuditEntry (TrailArray t) a u d now
  = (t ++ [ {| action := a; userId := u; timestamp := now; details := d |} ])%list.
Proof. reflexivity. Qed.

(** A creation that is answered 201 stores a one-entry trail for the
    creator. *)
Lemma post_stores_one_entry (table : gmap string Disaster) (newId : string)
    (body : CreateBody) (user : User) (now : Z) :
  fst (post_disaster table newId body user now) = 201 ->
  exists row,
    snd (post_disaster table newId body user now) !! newId = Some row
    /\ owner_id row = user_id user
    /\ audit_trail row
       = TrailArray [ {| action := "create"; userId := user_id user;
                         timestamp := now;
                         details := DetailsTitle (c_title body) |} ].
Proof.
  unfold post_disaster, disasterData.
  destruct (c_lat body) as [lat|], (c_lng body) as [lng|];
    try destruct (truthy_coord _ && truthy_coord _);
    try destruct (coordinatesToPoint lat lng);
    cbn [fst snd]; try discriminate; intros _;
    (eexists; split; [apply lookup_insert_eq | split; reflexivity]).
Qed.

(** An update that no other request interrupts, and that is answered
    200, stores the row's prior trail followed by one update entry for
    the caller. *)
Lemma put_alone_appends_one_entry (table : gmap string Disaster) (id : string)
    (body : UpdateBody) (user : User) (now : Z) (existing : Disaster)
    (t : list AuditEntry) :
  table !! id = Some existing ->
  audit_trail existing = TrailArray t ->
  fst (put_disaster table id body user now) = 200 ->
  exists row,
    snd (put_disaster table id body user now) !! id = Some row
    /\ audit_trail row
       = TrailArray (t ++ [ {| action := "update"; userId := user_id user;
                               timestamp := now;
                               details := DetailsChanges (changed_keys body) |} ])%list.
Proof.
  intros Hrow Htrail. unfold put_disaster, put_prepare. rewrite Hrow.
  destruct (requireOwnership existing user); [| cbn [fst]; discriminate].
  destruct (u_lat body) as [lat|], (u_lng body) as [lng|];
    try destruct (coordinatesToPoint lat lng);
    cbn [fst snd]; try discriminate;
    unfold put_commit; rewrite Hrow; cbn [fst snd]; intros _;
    (eexists; split; [apply lookup_insert_eq |]);
    unfold updated_row; cbn [audit_trail d_audit_trail]; rewrite Htrail; reflexivity.
Qed.

(** An update that is refused, or that ends in an error, leaves the
    table as it was. *)
Lemma put_refused_changes_nothing (table : gmap string Disaster) (id : string)
    (body : UpdateBody) (user : User) (now : Z) :
  fst (put_disaster table id body user now) <> 200 ->
  snd (put_disaster table id body user now) = table.
Proof.
  unfold put_disaster. destruct (put_prepare table id body user now) as [status|u];
    [reflexivity |].
  unfold put_commit. destruct (table !! id); cbn [fst snd]; [congruence | reflexivity].
Qed.


(** ** Cache adapter *)

Section CacheFacts.

Lemma with_client_same (w : World) : with_client (supabase w) w = w.
Proof. destruct w; reflexivity. Qed.

(** What a read does, case by case. *)
Lemma getCachedData_run (key : string) (w : World) :
  getCachedData key w =
  match supabase w with
  | None => (Return None, w)
  | Some client =>
      match health client with
      | Reachable =>
          match cache client !! key with
          | Some row =>
              if expires_at row <? clock w
              then (Return None,
                    with_client (Some {| health := Reachable;
                                         cache := delete key (cache client) |}) w)
              else (Return (Some (value row)), w)
          | None => (Return None, w)
          end
      | _ => (Return None, w)
      end
  end.
Proof.
  unfold getCachedData, try_catch, bind, getSupabase, cache_select, cache_delete, now, ret.
  destruct (supabase w) as [client|] eqn:Hs; [| reflexivity].
  rewrite Hs.
  destruct (health client) eqn:Hh; try reflexivity.
  destruct (cache client !! key) as [row|]; [| reflexivity].
  destruct (expires_at row <? clock w); [| reflexivity].
  rewrite Hs, Hh. reflexivity.
Qed.

(** What a write does, case by case. *)
Lemma setCachedData_run (key : string) (v : JsonValue) (ttlHours : Q) (w : World) :
  setCachedData key v ttlHours w =
  match supabase w with
  | None => (Return tt, w)
  | Some client =>
      match health client with
      | Reachable =>
          (Return tt,
           with_client
             (Some {| health := Reachable;
                      cache := <[key := {| value := v;
                                           expires_at := setHours_plus (zone w) (clock w) ttlHours |}]>
                                 (cache client) |}) w)
      | _ => (Return tt, w)
      end
  end.
Proof.
  unfold setCachedData, try_catch, bind, getSupabase, cache_upsert, now, local_zone, ret.
  destruct (supabase w) as [client|] eqn:Hs; [| reflexivity].
  rewrite Hs. destruct (health client); reflexivity.
Qed.

(** Reads and writes always return, and touch nothing but the database. *)
Lemma getCachedData_frame (key : string) (w : World) :
  exists v c, getCachedData key w = (Return v, with_client c w).
Proof.
  rewrite getCachedData_run.
  destruct (supabase w) as [client|] eqn:Hs;
    [destruct (health client);
       [destruct (cache client !! key) as [row|];
          [destruct (expires_at row <? clock w) |] | |] |];
    first [ eexists; eexists; reflexivity
          | eexists; exists (supabase w); rewrite with_client_same; reflexivity ].
Qed.

Lemma setCachedData_frame (key : string) (v : JsonValue) (ttlHours : Q) (w : World) :
  exists c, setCachedData key v ttlHours w = (Return tt, with_client c w).
Proof.
  rewrite setCachedData_run.
  destruct (supabase w) as [client|] eqn:Hs; [destruct (health client) |];
    first [ eexists; reflexivity
          | exists (supabase w); rewrite with_client_same; reflexivity ].
Qed.

End CacheFacts.

(** C3. A read of a key whose row has [expires_at] strictly before the
    time of the read returns a miss, and when the database answers
    normally that read deletes the row and nothing else. *)
Theorem expired_entry_reads_as_miss
    (w : World) (client : Client) (key : string) (row : CacheRow) :
  supabase w = Some client ->
  cache client !! key = Some row ->
  expires_at row < clock w ->
  fst (getCachedData key w) = Return None
  /\ (health client = Reachable ->
      exists client',
        supabase (snd (getCachedData key w)) = Some client'
        /\ cache client' = delete key (cache client)
        /\ cache client' !! key = None
        /\ forall other, other <> key -> cache client' !! other = cache client !! other).
Proof.
  intros Hs Hrow Hexp. rewrite getCachedData_run, Hs, Hrow.
  apply Z.ltb_lt in Hexp. rewrite Hexp. split.
  - destruct (health client); reflexivity.
  - intros ->. eexists. split; [reflexivity |]. simpl. split; [reflexivity |]. split.
    + apply lookup_delete_eq.
    + intros other Hne. now apply lookup_delete_ne.
Qed.

Lemma expired_entry_reads_as_miss_witness :
  fst (getCachedData "geocode_bWFuaGF0dGFu" Samples.stale_world) = Return None
  /\ exists client',
       supabase (snd (getCachedData "geocode_bWFuaGF0dGFu" Samples.stale_world))
       = Some client'
       /\ cache client' !! "geocode_bWFuaGF0dGFu" = None.
Proof.
  destruct (expired_entry_reads_as_miss Samples.stale_world
              {| health := Reachable;
                 cache := {[ "geocode_bWFuaGF0dGFu" :=
                               {| value := VGeocode Samples.manhattan;
                                  expires_at := 1000 |} ]} |}
              "geocode_bWFuaGF0dGFu"
              {| value := VGeocode Samples.manhattan; expires_at := 1000 |}
              eq_refl (lookup_singleton_eq _ _) ltac:(simpl; lia)) as [Hmiss Hdel].
  split; [exact Hmiss |].
  destruct (Hdel eq_refl) as [client' [Hc [_ [Hgone _]]]].
  exists client'. split; [exact Hc | exact Hgone].
Defined.

(** C8. When the database is unconfigured or unreachable, a read of any
    key returns a miss and a write of any value returns normally, both
    leaving the world as it was; reads answer as they would against an
    empty cache. *)
Theorem cache_degrades_to_noop (w : World) :
  store_down w ->
  forall key,
    getCachedData key w = (Return None, w)
    /\ (forall v ttlHours, setCachedData key v ttlHours w = (Return tt, w))
    /\ fst (getCachedData key w)
       = fst (getCachedData key
                (with_client (Some {| health := Reachable; cache := ∅ |}) w)).
Proof.
  unfold store_down. intros Hdown key.
  assert (Hempty :
    fst (getCachedData key (with_client (Some {| health := Reachable; cache := ∅ |}) w))
    = Return None).
  { rewrite getCachedData_run. cbn [supabase with_client health cache].
    rewrite lookup_empty. reflexivity. }
  rewrite Hempty, getCachedData_run.
  destruct (supabase w) as [client|] eqn:Hs.
  - destruct (health client) eqn:Hh; [congruence | |];
      (split; [reflexivity |]); (split; [| reflexivity]);
      intros v ttl; rewrite setCachedData_run, Hs, Hh; reflexivity.
  - split; [reflexivity |]. split; [| reflexivity].
    intros v ttl. rewrite setCachedData_run, Hs. reflexivity.
Qed.

Lemma cache_degrades_to_noop_witness :
  getCachedData "geocode_bWFuaGF0dGFu" Samples.offline_world
  = (Return None, Samples.offline_world)
  /\ setCachedData "geocode_bWFuaGF0dGFu" (VGeocode Samples.manhattan) 24
       Samples.offline_world
     = (Return tt, Samples.offline_world).
Proof.
  destruct (cache_degrades_to_noop Samples.offline_world I "geocode_bWFuaGF0dGFu")
    as [Hget [Hset _]].
  split; [exact Hget | apply Hset].
Defined.

(** ** Retry with backoff *)

Section RetryFacts.

Context {A : Type}.
Variable script : nat -> Attempt A.
Variables maxRetries baseDelay : Z.

Lemma invocations_app (t u : list Event) :
  invocations (t ++ u) = (invocations t + invocations u)%nat.
Proof. unfold invocations. now rewrite List.filter_app, length_app. Qed.

Lemma invocations_schedule (i : Z) (failures : nat) :
  invocations (backoff_schedule baseDelay i failures) = S failures.
Proof.
  revert i. induction failures as [|n IH]; intros i; [reflexivity |].
  simpl. unfold invocations in *. simpl. now rewrite IH.
Qed.

(** One failed attempt that is not the last: the operation ran once,
    the helper waited, and the loop goes on. *)
Lemma retry_step_failed (remaining : nat) (i : Z) (lastError : JsError)
    (m : string) (w : World) :
  script (invocations (trace w)) = Fails m ->
  i <> maxRetries - 1 ->
  retry_loop (scripted script) maxRetries baseDelay (S remaining) i lastError w
  = retry_loop (scripted script) maxRetries baseDelay remaining (i + 1) (Error m)
      (snd (delay (baseDelay * 2 ^ i) (log EvInvoke w))).
Proof.
  intros Hfail Hne. simpl. unfold try_catch, scripted at 1. rewrite Hfail.
  apply Z.eqb_neq in Hne. cbn [outcome_of]. rewrite Hne. reflexivity.
Qed.

Lemma trace_after_step (i : Z) (w : World) :
  trace (snd (delay (baseDelay * 2 ^ i) (log EvInvoke w)))
  = (trace w ++ [EvInvoke; EvDelay (baseDelay * 2 ^ i)])%list.
Proof. simpl. now rewrite <- app_assoc. Qed.

Lemma invocations_after_step (i : Z) (w : World) :
  invocations (trace (snd (delay (baseDelay * 2 ^ i) (log EvInvoke w))))
  = S (invocations (trace w)).
Proof. rewrite trace_after_step, invocations_app. unfold invocations. simpl. lia. Qed.

(** The first attempt that succeeds ends the loop with its result. *)
Lemma retry_loop_first_success (j : nat) :
  forall (remaining : nat) (i : Z) (lastError : JsError) (w : World) (a : A),
    i + Z.of_nat remaining = maxRetries ->
    (j < remaining)%nat ->
    script (invocations (trace w) + j)%nat = Succeeds a ->
    (forall k, (k < j)%nat -> fails (script (invocations (trace w) + k)%nat)) ->
    exists w',
      retry_loop (scripted script) maxRetries baseDelay remaining i lastError w
      = (Return a, w')
      /\ trace w' = (trace w ++ backoff_schedule baseDelay i j)%list.
Proof.
  induction j as [|j IH]; intros remaining i lastError w a Hi Hlt Hok Hbefore.
  - destruct remaining as [|r]; [lia |].
    rewrite Nat.add_0_r in Hok. simpl. unfold try_catch, scripted. rewrite Hok.
    eexists. split; reflexivity.
  - destruct remaining as [|r]; [lia |].
    destruct (Hbefore 0%nat ltac:(lia)) as [m Hm]. rewrite Nat.add_0_r in Hm.
    rewrite (retry_step_failed r i lastError m w Hm) by lia.
    destruct (IH r (i + 1) (Error m) (snd (delay (baseDelay * 2 ^ i) (log EvInvoke w))) a)
      as [w' [Hrun Htrace]].
    + lia.
    + lia.
    + rewrite invocations_after_step.
      replace (S (invocations (trace w)) + j)%nat
        with (invocations (trace w) + S j)%nat by lia. exact Hok.
    + intros k Hk. rewrite invocations_after_step.
      replace (S (invocations (trace w)) + k)%nat
        with (invocations (trace w) + S k)%nat by lia. apply Hbefore. lia.
    + exists w'. split; [exact Hrun |].
      rewrite Htrace, trace_after_step, <- app_assoc. reflexivity.
Qed.

(** When every attempt fails the loop throws what the last one threw. *)
Lemma retry_loop_all_fail (r : nat) :
  forall (i : Z) (lastError : JsError) (w : World) (m : string),
    i + Z.of_nat (S r) = maxRetries ->
    (forall k, (k <= r)%nat -> fails (script (invocations (trace w) + k)%nat)) ->
    script (invocations (trace w) + r)%nat = Fails m ->
    exists w',
      retry_loop (scripted script) maxRetries baseDelay (S r) i lastError w
      = (Throw (Error m), w')
      /\ trace w' = (trace w ++ backoff_schedule baseDelay i r)%list.
Proof.
  induction r as [|r IH]; intros i lastError w m Hi Hall Hlast.
  - rewrite Nat.add_0_r in *.
    simpl. unfold try_catch, scripted. rewrite Hlast. cbn [outcome_of].
    replace (i =? maxRetries - 1) with true by (symmetry; apply Z.eqb_eq; lia).
    eexists. split; reflexivity.
  - destruct (Hall 0%nat ltac:(lia)) as [m0 Hm0]. rewrite Nat.add_0_r in Hm0.
    rewrite (retry_step_failed (S r) i lastError m0 w Hm0) by lia.
    destruct (IH (i + 1) (Error m0) (snd (delay (baseDelay * 2 ^ i) (log EvInvoke w))) m)
      as [w' [Hrun Htrace]].
    + lia.
    + intros k Hk. rewrite invocations_after_step.
      replace (S (invocations (trace w)) + k)%nat
        with (invocations (trace w) + S k)%nat by lia. apply Hall. lia.
    + rewrite invocations_after_step.
      replace (S (invocations (trace w)) + r)%nat
        with (invocations (trace w) + S r)%nat by lia. exact Hlast.
    + exists w'. split; [exact Hrun |].
      rewrite Htrace, trace_after_step, <- app_assoc. reflexivity.
Qed.

(** Among the first [n] attempts either all fail or one is the first
    to succeed. *)
Lemma first_success_or_all_fail (k0 n : nat) :
  (forall k, (k < n)%nat -> fails (script (k0 + k)%nat))
  \/ exists j a, (j < n)%nat /\ script (k0 + j)%nat = Succeeds a
                 /\ forall k, (k < j)%nat -> fails (script (k0 + k)%nat).
Proof.
  induction n as [|n [Hall | [j [a [Hj [Hok Hbefore]]]]]].
  - left. intros k Hk. lia.
  - destruct (script (k0 + n)%nat) as [a|m] eqn:E.
    + right. exists n, a. repeat split; [lia | exact E | exact Hall].
    + left. intros k Hk. destruct (Nat.eq_dec k n) as [-> | Hne].
      * now exists m.
      * apply Hall. lia.
  - right. exists j, a. repeat split; [lia | exact Hok | exact Hbefore].
Qed.

End RetryFacts.

(** C4. [retryWithBackoff] invokes the operation at most [maxAttempts]
    times. It returns the result of the first attempt that succeeds, after
    having waited [baseDelay * 2^i] behind each failed attempt [i]
    (counting from 0) before it; when all [maxAttempts] attempts fail it
    throws the error of the last attempt, with no wait behind it; and it
    throws exactly when every attempt fails. With no attempt allowed it
    throws [undefined] at once. *)
Theorem retry_with_backoff_contract {A : Type}
    (script : nat -> Attempt A) (maxAttempts baseDelay : Z) (w : World) :
  let n := Z.to_nat maxAttempts in
  let k0 := invocations (trace w) in
  let run := retryWithBackoff (scripted script) maxAttempts baseDelay w in
  (invocations (trace (snd run)) <= k0 + n)%nat
  /\ (forall j a,
        (j < n)%nat ->
        script (k0 + j)%nat = Succeeds a ->
        (forall k, (k < j)%nat -> fails (script (k0 + k)%nat)) ->
        fst run = Return a
        /\ trace (snd run) = (trace w ++ backoff_schedule baseDelay 0 j)%list)
  /\ (forall r m,
        n = S r ->
        (forall k, (k < n)%nat -> fails (script (k0 + k)%nat)) ->
        script (k0 + r)%nat = Fails m ->
        fst run = Throw (Error m)
        /\ trace (snd run) = (trace w ++ backoff_schedule baseDelay 0 r)%list)
  /\ (raises (fst run) <-> forall k, (k < n)%nat -> fails (script (k0 + k)%nat))
  /\ (n = 0%nat -> run = (Throw Undefined, w)).
Proof.
  intros n k0 run.
  assert (Hsucc : forall j a,
            (j < n)%nat -> script (k0 + j)%nat = Succeeds a ->
            (forall k, (k < j)%nat -> fails (script (k0 + k)%nat)) ->
            fst run = Return a
            /\ trace (snd run) = (trace w ++ backoff_schedule baseDelay 0 j)%list).
  { intros j a Hj Hok Hbefore.
    destruct (retry_loop_first_success script maxAttempts baseDelay j n 0 Undefined w a)
      as [w' [Hrun Htrace]]; try assumption.
    - subst n. lia.
    - subst run. unfold retryWithBackoff. fold n. rewrite Hrun.
      split; [reflexivity | exact Htrace]. }
  assert (Hfail : forall r m,
            n = S r -> (forall k, (k < n)%nat -> fails (script (k0 + k)%nat)) ->
            script (k0 + r)%nat = Fails m ->
            fst run = Throw (Error m)
            /\ trace (snd run) = (trace w ++ backoff_schedule baseDelay 0 r)%list).
  { intros r m Hn Hall Hlast.
    destruct (retry_loop_all_fail script maxAttempts baseDelay r 0 Undefined w m)
      as [w' [Hrun Htrace]].
    - subst n. lia.
    - intros k Hk. apply Hall. lia.
    - exact Hlast.
    - subst run. unfold retryWithBackoff. fold n. rewrite Hn, Hrun.
      split; [reflexivity | exact Htrace]. }
  split; [| split; [exact Hsucc | split; [exact Hfail | split]]].
  3: { intros Hn. subst run. unfold retryWithBackoff. fold n. rewrite Hn. reflexivity. }
  - destruct (first_success_or_all_fail script k0 n) as [Hall | [j [a [Hj [Hok Hb]]]]].
    + destruct n as [|r] eqn:Hn.
      * subst run. unfold retryWithBackoff. fold n. rewrite Hn. simpl. subst k0. lia.
      * destruct (Hall r ltac:(lia)) as [m Hm].
        destruct (Hfail r m eq_refl Hall Hm) as [_ Ht].
        rewrite Ht, invocations_app, invocations_schedule. subst k0. lia.
    + destruct (Hsucc j a Hj Hok Hb) as [_ Ht]. rewrite Ht, invocations_app,
        invocations_schedule. subst k0. lia.
  - split.
    + intros [e He].
      destruct (first_success_or_all_fail script k0 n) as [Hall | [j [a [Hj [Hok Hb]]]]];
        [exact Hall |].
      destruct (Hsucc j a Hj Hok Hb) as [Hr _]. congruence.
    + intros Hall. destruct n as [|r] eqn:Hn.
      * subst run. unfold retryWithBackoff. fold n. rewrite Hn. simpl. now exists Undefined.
      * destruct (Hall r ltac:(lia)) as [m Hm].
        destruct (Hfail r m eq_refl Hall Hm) as [Hr _]. rewrite Hr. now eexists.
Qed.

Lemma retry_with_backoff_contract_witness :
  fst (retryWithBackoff (scripted Samples.flaky) 3 1000 Samples.offline_world)
  = Return "done"
  /\ trace (snd (retryWithBackoff (scripted Samples.flaky) 3 1000 Samples.offline_world))
     = [EvInvoke; EvDelay 1000; EvInvoke; EvDelay 2000; EvInvoke].
Proof.
  apply (proj1 (proj2 (retry_with_backoff_contract Samples.flaky 3 1000
                         Samples.offline_world)) 2%nat "done").
  - simpl. lia.
  - reflexivity.
  - intros k Hk. destruct k as [|[|k]]; [now eexists | now eexists | lia].
Defined.

(** ** Computations that throw only [Error] objects *)

Section SafeFacts.

Lemma safe_ret {A} (a : A) : safe (ret a).
Proof. intros w. exists w. left. now exists a. Qed.

Lemma safe_throw {A} (msg : string) : safe (@throw A (Error msg)).
Proof. intros w. exists w. right. now exists msg. Qed.

Lemma safe_bind {A B} (m : M A) (k : A -> M B) :
  safe m -> (forall a, safe (k a)) -> safe (bind m k).
Proof.
  intros Hm Hk w. unfold bind.
  destruct (Hm w) as [w1 [[a Ha] | [msg Hmsg]]].
  - rewrite Ha. apply Hk.
  - rewrite Hmsg. exists w1. right. now exists msg.
Qed.

Lemma safe_try_catch {A} (m : M A) (handler : JsError -> M A) :
  safe m -> (forall msg, safe (handler (Error msg))) -> safe (try_catch m handler).
Proof.
  intros Hm Hh w. unfold try_catch.
  destruct (Hm w) as [w1 [[a Ha] | [msg Hmsg]]].
  - rewrite Ha. exists w1. left. now exists a.
  - rewrite Hmsg. apply Hh.
Qed.

Lemma safe_message (msg : string) : safe (message (Error msg)).
Proof. apply safe_ret. Qed.

Lemma safe_logged {A} (m : M A) : safe m -> safe (logged m).
Proof.
  intros Hm. apply safe_try_catch; [exact Hm |].
  intros msg. apply safe_bind; [apply safe_message | intros _; apply safe_throw].
Qed.

Lemma total_safe {A} (m : M A) : total m -> safe m.
Proof. intros Hm w. destruct (Hm w) as [a [w' H]]. exists w'. left. now exists a. Qed.

Lemma total_bind {A B} (m : M A) (k : A -> M B) :
  total m -> (forall a, total (k a)) -> total (bind m k).
Proof.
  intros Hm Hk w. unfold bind. destruct (Hm w) as [a [w1 Ha]]. rewrite Ha. apply Hk.
Qed.

Lemma total_ret {A} (a : A) : total (ret a).
Proof. intros w. now exists a, w. Qed.

(** A handler that always returns makes the whole [try] always return,
    provided the body throws nothing but [Error] objects. *)
Lemma total_try_catch {A} (m : M A) (handler : JsError -> M A) :
  safe m -> (forall msg, total (handler (Error msg))) -> total (try_catch m handler).
Proof.
  intros Hm Hh w. unfold try_catch.
  destruct (Hm w) as [w1 [[a Ha] | [msg Hmsg]]].
  - rewrite Ha. now exists a, w1.
  - rewrite Hmsg. apply Hh.
Qed.

Lemma total_getCachedData (key : string) : total (getCachedData key).
Proof. intros w. destruct (getCachedData_frame key w) as [v [c H]]. now exists v, (with_client c w). Qed.

Lemma total_setCachedData (key : string) (v : JsonValue) (ttlHours : Q) :
  total (setCachedData key v ttlHours).
Proof.
  intros w. destruct (setCachedData_frame key v ttlHours w) as [c H].
  now exists tt, (with_client c w).
Qed.

End SafeFacts.

(** ** Geocoding *)

Section GeocodingFacts.

Lemma requests_to_request (ep : Endpoint) (t : list Event) :
  requests_to ep (t ++ [EvRequest ep]) = S (requests_to ep t).
Proof.
  unfold requests_to. rewrite List.filter_app, length_app. simpl.
  rewrite bool_decide_eq_true_2 by reflexivity. simpl. lia.
Qed.

Lemma requests_to_delay (ep : Endpoint) (t : list Event) (ms : Z) :
  requests_to ep (t ++ [EvDelay ms]) = requests_to ep t.
Proof.
  unfold requests_to. rewrite List.filter_app, length_app. simpl. lia.
Qed.

Lemma retry_axios_ok (ep : Endpoint) (maxRetries baseDelay : Z) (r : nat)
    (i : Z) (lastError : JsError) (w : World) (body : Body) :
  network w ep (requests_to ep (trace w)) = Succeeds body ->
  retry_loop (axios_get ep) maxRetries baseDelay (S r) i lastError w
  = (Return body, log (EvRequest ep) w).
Proof. intros H. simpl. unfold try_catch, axios_get. now rewrite H. Qed.

Lemma retry_axios_last (ep : Endpoint) (maxRetries baseDelay : Z) (r : nat)
    (i : Z) (lastError : JsError) (m : string) (w : World) :
  network w ep (requests_to ep (trace w)) = Fails m ->
  i = maxRetries - 1 ->
  retry_loop (axios_get ep) maxRetries baseDelay (S r) i lastError w
  = (Throw (Error m), log (EvRequest ep) w).
Proof.
  intros H Hi. simpl. unfold try_catch, axios_get. rewrite H. cbn [outcome_of].
  apply Z.eqb_eq in Hi. now rewrite Hi.
Qed.

Lemma retry_axios_next (ep : Endpoint) (maxRetries baseDelay : Z) (r : nat)
    (i : Z) (lastError : JsError) (m : string) (w : World) :
  network w ep (requests_to ep (trace w)) = Fails m ->
  i <> maxRetries - 1 ->
  retry_loop (axios_get ep) maxRetries baseDelay (S r) i lastError w
  = retry_loop (axios_get ep) maxRetries baseDelay r (i + 1) (Error m)
      (snd (delay (baseDelay * 2 ^ i) (log (EvRequest ep) w))).
Proof.
  intros H Hi. simpl. unfold try_catch at 1, axios_get at 1. rewrite H.
  cbn [outcome_of]. apply Z.eqb_neq in Hi. now rewrite Hi.
Qed.

(** The retry helper around an HTTP request ends with the reply the
    client settles on, and adds only requests to that endpoint and
    waits to the trace. *)
Lemma retry_loop_axios (ep : Endpoint) (maxRetries baseDelay : Z) (r : nat) :
  forall (i : Z) (lastError : JsError) (w : World),
    i + Z.of_nat (S r) = maxRetries ->
    exists w' evs,
      trace w' = (trace w ++ evs)%list
      /\ Forall (own_event ep) evs
      /\ network w' = network w
      /\ match settled (network w ep) (requests_to ep (trace w)) (S r) with
         | Some body =>
             retry_loop (axios_get ep) maxRetries baseDelay (S r) i lastError w
             = (Return body, w')
         | None =>
             exists m,
               retry_loop (axios_get ep) maxRetries baseDelay (S r) i lastError w
               = (Throw (Error m), w')
         end.
Proof.
  induction r as [|r IH]; intros i lastError w Hi.
  - cbn [settled].
    destruct (network w ep (requests_to ep (trace w))) as [body|m] eqn:E.
    + exists (log (EvRequest ep) w), [EvRequest ep].
      rewrite (retry_axios_ok _ _ _ _ _ _ _ _ E).
      repeat split. constructor; [now left | constructor].
    + exists (log (EvRequest ep) w), [EvRequest ep].
      rewrite (retry_axios_last _ _ _ _ _ _ _ _ E) by lia.
      repeat split; [constructor; [now left | constructor] | now exists m].
  - cbn [settled].
    destruct (network w ep (requests_to ep (trace w))) as [body|m] eqn:E.
    + exists (log (EvRequest ep) w), [EvRequest ep].
      rewrite (retry_axios_ok _ _ _ _ _ _ _ _ E).
      repeat split. constructor; [now left | constructor].
    + rewrite (retry_axios_next _ _ _ _ _ _ _ _ E) by lia.
      set (w1 := snd (delay (baseDelay * 2 ^ i) (log (EvRequest ep) w))).
      destruct (IH (i + 1) (Error m) w1 ltac:(lia))
        as [w' [evs [Ht [Hown [Hnet Hrun]]]]].
      assert (Htr : trace w1 = (trace w ++ [EvRequest ep; EvDelay (baseDelay * 2 ^ i)])%list).
      { subst w1. simpl. now rewrite <- app_assoc. }
      assert (Hreq : requests_to ep (trace w1) = S (requests_to ep (trace w))).
      { subst w1. simpl. now rewrite requests_to_delay, requests_to_request. }
      rewrite Hreq in Hrun.
      exists w', ([EvRequest ep; EvDelay (baseDelay * 2 ^ i)] ++ evs)%list.
      split; [rewrite Ht, Htr, <- app_assoc; reflexivity |].
      split; [| split; [exact Hnet | exact Hrun]].
      constructor; [now left |]. constructor; [right; now eexists | exact Hown].
Qed.

Lemma safe_retry_axios (ep : Endpoint) : safe (retryWithBackoff (axios_get ep) 3 1000).
Proof.
  intros w. unfold retryWithBackoff. change (Z.to_nat 3) with 3%nat.
  destruct (retry_loop_axios ep 3 1000 2 0 Undefined w eq_refl)
    as [w' [evs [_ [_ [_ Hrun]]]]].
  exists w'. destruct (settled _ _ 3) as [body|].
  - left. now exists body.
  - right. exact Hrun.
Qed.

Lemma provider_client_run (s : Geocoding.Service) (locationName : string) (w : World) :
  exists w' evs,
    trace w' = (trace w ++ evs)%list
    /\ Forall (own_event (endpoint s)) evs
    /\ match provider_result s w with
       | Some r => provider_client s locationName w = (Return r, w')
       | None => exists m, provider_client s locationName w = (Throw (Error m), w')
       end.
Proof.
  destruct (retry_loop_axios (endpoint s) 3 1000 2 0 Undefined w eq_refl)
    as [w' [evs [Ht [Hown [_ Hrun]]]]].
  exists w', evs. split; [exact Ht |]. split; [exact Hown |].
  unfold provider_result.
  destruct (settled (network w (endpoint s)) (requests_to (endpoint s) (trace w)) 3)
    as [body|].
  - destruct s; cbn [provider_client endpoint tag] in *;
      unfold _geocodeWithGoogle, _geocodeWithMapbox, _geocodeWithNominatim,
        logged, try_catch, retryWithBackoff, bind;
      change (Z.to_nat 3) with 3%nat; rewrite Hrun;
      destruct body as [status [|h hits] | | |]; cbn [usable];
      try (eexists; reflexivity); try reflexivity.
    destruct (String.eqb status "OK"); [reflexivity | eexists; reflexivity].
  - destruct Hrun as [m Hrun].
    destruct s; cbn [provider_client endpoint] in *;
      unfold _geocodeWithGoogle, _geocodeWithMapbox, _geocodeWithNominatim,
        logged, try_catch, retryWithBackoff, bind;
      change (Z.to_nat 3) with 3%nat; rewrite Hrun; now exists m.
Qed.

Lemma safe_provider_client (s : Geocoding.Service) (locationName : string) :
  safe (provider_client s locationName).
Proof.
  intros w. destruct (provider_client_run s locationName w) as [w' [evs [_ [_ H]]]].
  exists w'. destruct (provider_result s w) as [r|].
  - left. now exists r.
  - right. exact H.
Qed.

(** The mock always answers, echoing the location name. *)
Lemma geocodeMock_run (locationName : string) (w : World) :
  exists r w',
    _geocodeMock locationName w = (Return r, w')
    /\ source r = mock /\ formattedAddress r = locationName
    /\ trace w' = trace w.
Proof.
  unfold _geocodeMock, bind, ret, math_random.
  destruct (own_property (toLowerCase locationName) mockLocations) as [[la ln]|].
  - eexists. eexists. repeat split.
  - destruct (inherited_property (toLowerCase locationName));
      eexists; eexists; repeat split.
Qed.


End GeocodingFacts.




(** ** Falling back to the mock *)

Section FallbackFacts.

Lemma total_now : total now.
Proof. intros w. now exists (clock w), w. Qed.

Lemma settled_some (replies : nat -> Attempt Body) (attempts : nat) :
  forall k body,
    settled replies k attempts = Some body -> exists j, replies j = Succeeds body.
Proof.
  induction attempts as [|n IH]; intros k body H; simpl in H; [discriminate |].
  destruct (replies k) as [b|m] eqn:E.
  - injection H as <-. now exists k.
  - now apply (IH (S k)).
Qed.

Lemma provider_result_none (s : Geocoding.Service) (w : World) :
  every_source_fails w -> provider_result s w = None.
Proof.
  intros Hfail. unfold provider_result.
  destruct (settled _ _ 3) as [body|] eqn:E; [| reflexivity].
  destruct (settled_some _ _ _ _ E) as [j Hj].
  pose proof (Hfail (endpoint s) j) as Hu. rewrite Hj in Hu.
  destruct s; destruct body as [status [|h hits] | | |]; simpl in *;
    try reflexivity; try discriminate.
  destruct (String.eqb status "OK"); [discriminate | reflexivity].
Qed.

Lemma total_geocodeMock (locationName : string) : total (_geocodeMock locationName).
Proof.
  intros w. destruct (geocodeMock_run locationName w) as [r [w' [H _]]]. now exists r, w'.
Qed.

Lemma total_geocode (s : Geocoding.Service) (locationName : string) :
  total (geocode s locationName).
Proof.
  unfold geocode. apply total_try_catch.
  - apply safe_bind; [apply total_safe, total_getCachedData |].
    intros [hit|]; [apply safe_ret |].
    apply safe_bind.
    + destruct s; [apply (safe_provider_client SGoogle)
                  | apply (safe_provider_client SMapbox)
                  | apply (safe_provider_client SNominatim)].
    + intros r. apply safe_bind; [apply total_safe, total_setCachedData |].
      intros _. apply safe_ret.
  - intros msg. apply total_bind; [apply total_ret |]. intros _.
    apply total_bind; [apply total_geocodeMock | intros r; apply total_ret].
Qed.

Lemma fetchMockReports_run (keywords : list string) (disasterId : option string)
    (w : World) :
  exists r,
    SocialMedia._fetchMockReports keywords disasterId w = (Return r, w)
    /\ s_source r = "mock".
Proof.
  unfold SocialMedia._fetchMockReports, bind, now, ret.
  eexists. split; reflexivity.
Qed.

Lemma total_fetchMockReports (keywords : list string) (disasterId : option string) :
  total (SocialMedia._fetchMockReports keywords disasterId).
Proof.
  intros w. destruct (fetchMockReports_run keywords disasterId w) as [r [H _]].
  now exists r, w.
Qed.

Lemma fetchMockUpdates_run (keywords : list string) (disasterId : option string)
    (w : World) :
  exists r, OfficialUpdates._fetchMockUpdates keywords disasterId w = (Return r, w).
Proof.
  unfold OfficialUpdates._fetchMockUpdates, bind, now, ret. eexists. reflexivity.
Qed.

Lemma total_fetchMockUpdates (keywords : list string) (disasterId : option string) :
  total (OfficialUpdates._fetchMockUpdates keywords disasterId).
Proof.
  intros w. destruct (fetchMockUpdates_run keywords disasterId w) as [r H].
  now exists r, w.
Qed.

Lemma safe_fetchFromTwitter (keywords : list string) :
  safe (SocialMedia._fetchFromTwitter keywords).
Proof.
  unfold SocialMedia._fetchFromTwitter. apply safe_logged.
  apply safe_bind; [apply safe_retry_axios |].
  intros [| [data|] users rc | |]; first [apply safe_ret | apply safe_throw].
Qed.

Lemma safe_fetchFromBluesky (keywords : list string) :
  safe (SocialMedia._fetchFromBluesky keywords).
Proof.
  unfold SocialMedia._fetchFromBluesky. apply safe_logged.
  apply safe_bind; [apply safe_retry_axios |].
  intros [| | [posts|] |]; first [apply safe_ret | apply safe_throw].
Qed.

Lemma total_fetchReports (s : SocialMedia.Service) (disasterId : string)
    (keywords : list string) :
  total (SocialMedia.fetchReports s disasterId keywords).
Proof.
  unfold SocialMedia.fetchReports. apply total_try_catch.
  - apply safe_bind; [apply total_safe, total_getCachedData |].
    intros [hit|]; [apply safe_ret |].
    apply safe_bind.
    + destruct s; [apply safe_fetchFromTwitter | apply safe_fetchFromBluesky
                  | apply total_safe, total_fetchMockReports].
    + intros r. apply safe_bind; [apply total_safe, total_now |].
      intros today. apply safe_bind; [apply total_safe, total_setCachedData |].
      intros _. apply safe_ret.
  - intros msg. apply total_bind; [apply total_ret |]. intros _.
    apply total_bind; [apply total_fetchMockReports | intros r; apply total_ret].
Qed.

(** With every source failing, the Twitter and Bluesky clients throw. *)
Lemma fetchFromTwitter_fails (keywords : list string) (w : World) :
  (forall k, unusable ETwitter (network w ETwitter k) = true) ->
  exists m w', SocialMedia._fetchFromTwitter keywords w = (Throw (Error m), w').
Proof.
  intros Hfail.
  destruct (retry_loop_axios ETwitter 3 1000 2 0 Undefined w eq_refl)
    as [w' [evs [_ [_ [_ Hrun]]]]].
  unfold SocialMedia._fetchFromTwitter, logged, try_catch, retryWithBackoff, bind.
  change (Z.to_nat 3) with 3%nat.
  destruct (settled _ _ 3) as [body|] eqn:E.
  - rewrite Hrun. destruct (settled_some _ _ _ _ E) as [j Hj].
    pose proof (Hfail j) as Hu. rewrite Hj in Hu.
    destruct body as [| [data|] users rc | |]; simpl in Hu; try discriminate;
      eexists; eexists; reflexivity.
  - destruct Hrun as [m Hrun]. rewrite Hrun. now exists m, w'.
Qed.

Lemma fetchFromBluesky_fails (keywords : list string) (w : World) :
  (forall k, unusable EBluesky (network w EBluesky k) = true) ->
  exists m w', SocialMedia._fetchFromBluesky keywords w = (Throw (Error m), w').
Proof.
  intros Hfail.
  destruct (retry_loop_axios EBluesky 3 1000 2 0 Undefined w eq_refl)
    as [w' [evs [_ [_ [_ Hrun]]]]].
  unfold SocialMedia._fetchFromBluesky, logged, try_catch, retryWithBackoff, bind.
  change (Z.to_nat 3) with 3%nat.
  destruct (settled _ _ 3) as [body|] eqn:E.
  - rewrite Hrun. destruct (settled_some _ _ _ _ E) as [j Hj].
    pose proof (Hfail j) as Hu. rewrite Hj in Hu.
    destruct body as [| | [posts|] |]; simpl in Hu; try discriminate;
      eexists; eexists; reflexivity.
  - destruct Hrun as [m Hrun]. rewrite Hrun. now exists m, w'.
Qed.

Lemma safe_fetchFromSource (source : OfficialUpdates.Source) (keywords : list string) :
  safe (OfficialUpdates._fetchFromSource source keywords).
Proof.
  unfold OfficialUpdates._fetchFromSource. apply safe_logged.
  apply safe_bind; [apply safe_retry_axios |].
  intros body. apply safe_bind; [apply total_safe, total_now |].
  intros today. destruct body; apply safe_ret.
Qed.

(** The loop over the scraped sources always completes. *)
Lemma total_fetch_all (remaining : list OfficialUpdates.Source) (keywords : list string) :
  forall allUpdates, total (OfficialUpdates.fetch_all remaining keywords allUpdates).
Proof.
  induction remaining as [|source rest IH]; intros allUpdates;
    cbn [OfficialUpdates.fetch_all].
  - apply total_ret.
  - apply total_bind; [| exact IH].
    apply total_try_catch.
    + apply safe_bind; [apply safe_fetchFromSource |].
      intros updates. apply safe_ret.
    + intros msg. apply total_bind; [apply total_ret | intros _; apply total_ret].
Qed.

Lemma total_fetchUpdates (disasterId : string) (keywords : list string) :
  total (OfficialUpdates.fetchUpdates disasterId keywords).
Proof.
  unfold OfficialUpdates.fetchUpdates. apply total_try_catch.
  - apply safe_bind; [apply total_safe, total_getCachedData |].
    intros [hit|]; [apply safe_ret |].
    apply safe_bind; [apply total_safe, total_fetch_all |]. intros allUpdates.
    apply safe_bind; [apply total_safe, total_fetchMockUpdates |]. intros mockUpdates.
    apply safe_bind; [apply safe_throw |]. intros allUpdates'.
    apply safe_bind; [apply total_safe, total_now |]. intros today.
    apply safe_bind; [apply total_safe, total_setCachedData |]. intros _.
    apply safe_ret.
  - intros msg. apply total_bind; [apply total_ret |]. intros _.
    apply total_bind; [apply total_fetchMockUpdates | intros r; apply total_ret].
Qed.

(** A request for official updates that misses the cache is answered by
    the mock, whatever the sources did: spreading the mock's result
    object into [push] throws, and the handler takes over. *)
Lemma fetchUpdates_miss_run (disasterId : string) (keywords : list string) (w : World) :
  fst (getCachedData (OfficialUpdates.cacheKey disasterId keywords) w) = Return None ->
  exists r w',
    OfficialUpdates.fetchUpdates disasterId keywords w = (Return (VUpdates r), w')
    /\ OfficialUpdates._fetchMockUpdates keywords (Some disasterId) w' = (Return r, w').
Proof.
  intros Hmiss.
  destruct (getCachedData_frame (OfficialUpdates.cacheKey disasterId keywords) w)
    as [v [c Hget]].
  rewrite Hget in Hmiss. simpl in Hmiss. injection Hmiss as ->.
  destruct (total_fetch_all OfficialUpdates.sources keywords [] (with_client c w))
    as [l [w1 Hall]].
  destruct (fetchMockUpdates_run keywords None w1) as [r0 Hr0].
  destruct (fetchMockUpdates_run keywords (Some disasterId) w1) as [r Hr].
  exists r, w1. split; [| exact Hr].
  unfold OfficialUpdates.fetchUpdates, try_catch, bind.
  rewrite Hget, Hall, Hr0.
  unfold OfficialUpdates.push_spread, throw. cbv beta iota.
  cbn [message ret]. rewrite Hr. reflexivity.
Qed.

(** A request for social media reports that misses the cache while
    every source fails. *)
Lemma fetchReports_miss_run (s : SocialMedia.Service) (disasterId : string)
    (keywords : list string) (w : World) :
  every_source_fails w ->
  fst (getCachedData (SocialMedia.cacheKey disasterId keywords) w) = Return None ->
  exists r w',
    SocialMedia.fetchReports s disasterId keywords w = (Return (VSocial r), w')
    /\ s_source r = "mock"
    /\ (s <> SocialMedia.SMock ->
        SocialMedia._fetchMockReports keywords (Some disasterId) w' = (Return r, w')).
Proof.
  intros Hfail Hmiss.
  destruct (getCachedData_frame (SocialMedia.cacheKey disasterId keywords) w)
    as [v [c Hget]].
  rewrite Hget in Hmiss. simpl in Hmiss. injection Hmiss as ->.
  destruct s.
  - destruct (fetchFromTwitter_fails keywords (with_client c w)
                (fun k => Hfail ETwitter k)) as [m [w1 Hthrow]].
    destruct (fetchMockReports_run keywords (Some disasterId) w1) as [r [Hr Hsrc]].
    exists r, w1. split; [| split; [exact Hsrc | intros _; exact Hr]].
    unfold SocialMedia.fetchReports, try_catch, bind.
    rewrite Hget, Hthrow. cbn [message ret]. rewrite Hr. reflexivity.
  - destruct (fetchFromBluesky_fails keywords (with_client c w)
                (fun k => Hfail EBluesky k)) as [m [w1 Hthrow]].
    destruct (fetchMockReports_run keywords (Some disasterId) w1) as [r [Hr Hsrc]].
    exists r, w1. split; [| split; [exact Hsrc | intros _; exact Hr]].
    unfold SocialMedia.fetchReports, try_catch, bind.
    rewrite Hget, Hthrow. cbn [message ret]. rewrite Hr. reflexivity.
  - destruct (fetchMockReports_run keywords None (with_client c w)) as [r0 [Hr0 Hsrc]].
    set (final :=
           {| reports := SocialMedia._processReports (reports r0) disasterId (clock w);
              s_source := s_source r0; totalFound := totalFound r0;
              s_disasterId := Some disasterId; s_fetchedAt := Some (clock w) |}).
    destruct (setCachedData_frame (SocialMedia.cacheKey disasterId keywords)
                (VSocial final) 0.17 (with_client c w)) as [c' Hset].
    exists final, (with_client c' (with_client c w)).
    split; [| split; [exact Hsrc | intros H; congruence]].
    unfold SocialMedia.fetchReports, try_catch, bind.
    rewrite Hget, Hr0. unfold now. cbn [clock with_client]. fold final.
    rewrite Hset. reflexivity.
Qed.

(** A geocoding request that misses the cache while the provider
    returns no result ends with the run of the mock, in the world the
    provider's attempts left. *)
Lemma geocode_fallback_run (s : Geocoding.Service) (locationName : string) (w : World) :
  fst (getCachedData (Geocoding.cacheKey locationName) w) = Return None ->
  provider_result s w = None ->
  let w1 := snd (provider_client s locationName
                   (snd (getCachedData (Geocoding.cacheKey locationName) w))) in
  exists r w',
    geocode s locationName w = (Return (VGeocode r), w')
    /\ _geocodeMock locationName w1 = (Return r, w')
    /\ source r = mock /\ formattedAddress r = locationName.
Proof.
  intros Hmiss Hres.
  destruct (getCachedData_frame (Geocoding.cacheKey locationName) w) as [v [c Hget]].
  rewrite Hget in Hmiss |- *. simpl in Hmiss. injection Hmiss as ->. cbn [snd].
  destruct (provider_client_run s locationName (with_client c w))
    as [w1 [evs [_ [_ Hrun]]]].
  change (provider_result s (with_client c w)) with (provider_result s w) in Hrun.
  rewrite Hres in Hrun. destruct Hrun as [m Hrun].
  rewrite Hrun. cbn [snd].
  destruct (geocodeMock_run locationName w1) as [r [w' [Hmock [Hsrc [Haddr _]]]]].
  exists r, w'. split; [| split; [exact Hmock | split; assumption]].
  unfold geocode, try_catch, bind at 1. rewrite Hget.
  assert (Hclient : provider_client s locationName (with_client c w)
                    = (Throw (Error m), w1)) by exact Hrun.
  destruct s; cbn [provider_client] in Hclient;
    unfold try_catch, bind; rewrite Hclient; cbn [message ret];
    unfold bind; rewrite Hmock; reflexivity.
Qed.

(** In mock mode a request for social media reports that misses the
    cache returns the mock's reports, processed. *)
Lemma fetchReports_mock_mode_run (disasterId : string) (keywords : list string)
    (w : World) :
  fst (getCachedData (SocialMedia.cacheKey disasterId keywords) w) = Return None ->
  let w1 := snd (getCachedData (SocialMedia.cacheKey disasterId keywords) w) in
  exists r0 w',
    SocialMedia._fetchMockReports keywords None w1 = (Return r0, w1)
    /\ SocialMedia.fetchReports SocialMedia.SMock disasterId keywords w
       = (Return (VSocial
                    {| reports :=
                         SocialMedia._processReports (reports r0) disasterId (clock w1);
                       s_source := "mock"; totalFound := totalFound r0;
                       s_disasterId := Some disasterId;
                       s_fetchedAt := Some (clock w1) |}),
          w').
Proof.
  intros Hmiss.
  destruct (getCachedData_frame (SocialMedia.cacheKey disasterId keywords) w)
    as [v [c Hget]].
  rewrite Hget in Hmiss |- *. simpl in Hmiss. injection Hmiss as ->. cbn [snd].
  destruct (fetchMockReports_run keywords None (with_client c w)) as [r0 [Hr0 Hsrc]].
  set (final :=
         {| reports := SocialMedia._processReports (reports r0) disasterId (clock w);
            s_source := "mock"; totalFound := totalFound r0;
            s_disasterId := Some disasterId; s_fetchedAt := Some (clock w) |}).
  destruct (setCachedData_frame (SocialMedia.cacheKey disasterId keywords)
              (VSocial final) 0.17 (with_client c w)) as [c' Hset].
  exists r0, (with_client c' (with_client c w)).
  split; [exact Hr0 |].
  unfold SocialMedia.fetchReports, try_catch, bind.
  rewrite Hget, Hr0. unfold now. cbn [clock with_client]. rewrite Hsrc. fold final.
  rewrite Hset. reflexivity.
Qed.

End FallbackFacts.

(** C2, as stated, fails: with every source failing, a geocoding
    request whose location name is a number gives its caller no value
    but the error thrown when the cache key is built. *)
Lemma geocode_number_name_throws :
  every_source_fails Samples.offline_world
  /\ ~ (exists v w',
          geocode_called SGoogle (NameNumber 12345) Samples.offline_world
          = (Return v, w')).
Proof.
  split; [intros ep k; reflexivity |].
  intros [v [w' H]]. discriminate.
Qed.

(** C2. Called with a string as location name, and with a list of
    keywords, the geocoding, social-media and official-updates fetches
    never throw: the caller always gets a value. When a fetch misses the
    cache and every live source fails, that value is the mock's: what
    [_geocodeMock] returns for the name, run after the provider's
    attempts; what [_fetchMockReports] returns for the keywords and the
    disaster when a live social-media service is configured, and its
    reports, processed, in mock mode; and what [_fetchMockUpdates]
    returns for the keywords and the disaster. *)
Theorem aggregation_falls_back_to_mock (w : World) :
  (forall s locationName, exists v w', geocode s locationName w = (Return v, w'))
  /\ (forall s disasterId keywords,
        exists v w', SocialMedia.fetchReports s disasterId keywords w = (Return v, w'))
  /\ (forall disasterId keywords,
        exists v w', OfficialUpdates.fetchUpdates disasterId keywords w = (Return v, w'))
  /\ (every_source_fails w ->
      (forall s locationName,
          fst (getCachedData (Geocoding.cacheKey locationName) w) = Return None ->
          exists r w',
            geocode s locationName w = (Return (VGeocode r), w')
            /\ _geocodeMock locationName
                 (snd (provider_client s locationName
                         (snd (getCachedData (Geocoding.cacheKey locationName) w))))
               = (Return r, w')
            /\ source r = mock /\ formattedAddress r = locationName)
      /\ (forall s disasterId keywords,
            fst (getCachedData (SocialMedia.cacheKey disasterId keywords) w) = Return None ->
            exists r w',
              SocialMedia.fetchReports s disasterId keywords w = (Return (VSocial r), w')
              /\ s_source r = "mock"
              /\ (s <> SocialMedia.SMock ->
                  SocialMedia._fetchMockReports keywords (Some disasterId) w'
                  = (Return r, w'))
              /\ (s = SocialMedia.SMock ->
                  let w1 :=
                    snd (getCachedData (SocialMedia.cacheKey disasterId keywords) w) in
                  exists r0,
                    SocialMedia._fetchMockReports keywords None w1 = (Return r0, w1)
                    /\ r = {| reports :=
                                SocialMedia._processReports (reports r0) disasterId
                                  (clock w1);
                              s_source := "mock"; totalFound := totalFound r0;
                              s_disasterId := Some disasterId;
                              s_fetchedAt := Some (clock w1) |}))
      /\ (forall disasterId keywords,
            fst (getCachedData (OfficialUpdates.cacheKey disasterId keywords) w)
            = Return None ->
            exists r w',
              OfficialUpdates.fetchUpdates disasterId keywords w = (Return (VUpdates r), w')
              /\ OfficialUpdates._fetchMockUpdates keywords (Some disasterId) w'
                 = (Return r, w'))).
Proof.
  split; [| split; [| split]].
  - intros s locationName. apply total_geocode.
  - intros s disasterId keywords. apply total_fetchReports.
  - intros disasterId keywords. apply total_fetchUpdates.
  - intros Hfail. split; [| split].
    + intros s locationName Hmiss.
      exact (geocode_fallback_run s locationName w Hmiss (provider_result_none s w Hfail)).
    + intros s disasterId keywords Hmiss.
      assert (Hcase : s = SocialMedia.SMock \/ s <> SocialMedia.SMock)
        by (destruct s; [right | right | left]; congruence).
      destruct Hcase as [-> | Hlive].
      * destruct (fetchReports_mock_mode_run disasterId keywords w Hmiss)
          as [r0 [w' [Hr0 Hrun]]].
        eexists. exists w'. split; [exact Hrun |]. split; [reflexivity |].
        split; [intros H; now contradiction H |].
        intros _. exists r0. split; [exact Hr0 | reflexivity].
      * destruct (fetchReports_miss_run s disasterId keywords w Hfail Hmiss)
          as [r [w' [Hrun [Hsrc Hmock]]]].
        exists r, w'. split; [exact Hrun |]. split; [exact Hsrc |].
        split; [exact Hmock |]. intros H. now contradiction Hlive.
    + intros disasterId keywords Hmiss.
      exact (fetchUpdates_miss_run disasterId keywords w Hmiss).
Qed.

Lemma aggregation_falls_back_to_mock_witness :
  (exists r w',
     geocode SGoogle "Nowhere, ZZ" Samples.offline_world = (Return (VGeocode r), w')
     /\ formattedAddress r = "Nowhere, ZZ")
  /\ (exists r w',
        SocialMedia.fetchReports SocialMedia.STwitter "d1" ["flood"] Samples.offline_world
        = (Return (VSocial r), w')
        /\ s_source r = "mock")
  /\ (exists r w',
        OfficialUpdates.fetchUpdates "d1" ["flood"] Samples.offline_world
        = (Return (VUpdates r), w')
        /\ OfficialUpdates._fetchMockUpdates ["flood"] (Some "d1") w' = (Return r, w')).
Proof.
  destruct (proj2 (proj2 (proj2 (aggregation_falls_back_to_mock Samples.offline_world)))
              (fun ep k => eq_refl)) as [Hgeo [Hsocial Hupdates]].
  split; [| split; [| exact (Hupdates "d1" ["flood"] eq_refl)]].
  - destruct (Hgeo SGoogle "Nowhere, ZZ" eq_refl) as [r [w' [Hrun [_ [_ Haddr]]]]].
    now exists r, w'.
  - destruct (Hsocial SocialMedia.STwitter "d1" ["flood"] eq_refl)
      as [r [w' [Hr [Hsrc _]]]].
    now exists r, w'.
Defined.

(* ===================================================================== *)
(** * Further properties of the code *)
(* ===================================================================== *)

From Stdlib Require Import Lqa.

(** ** Helpers *)

Section HelperFacts.

Import MoreHelpers.

Lemma ceil_div_bounds (a b : Z) :
  0 < b -> (ceil_div a b - 1) * b < a <= ceil_div a b * b.
Proof.
  intros Hb. unfold ceil_div.
  pose proof (Z.div_mod (- a) b ltac:(lia)) as Hdm.
  pose proof (Z.mod_pos_bound (- a) b Hb) as Hm.
  nia.
Qed.

Lemma paginate_limit_pos (page limit : Z) : 1 <= pg_limit (paginate page limit) <= 100.
Proof. unfold paginate. simpl. lia. Qed.

Lemma toLowerCase_length (s : string) : String.length (toLowerCase s) = String.length s.
Proof. induction s as [|c s IH]; simpl; [reflexivity | now rewrite IH]. Qed.

Lemma array_includes_In (array : list string) (x : string) :
  array_includes array x = true <-> In x array.
Proof.
  unfold array_includes. rewrite existsb_exists. split.
  - intros [y [Hin Heq]]. apply String.eqb_eq in Heq. now subst.
  - intros Hin. exists x. split; [exact Hin | apply String.eqb_refl].
Qed.

Lemma valid_tag_length (tag : string) :
  In tag validTags -> (0 < String.length tag <= 50)%nat.
Proof.
  unfold validTags. simpl.
  intros H. repeat (destruct H as [<- | H]; [simpl; lia |]). destruct H.
Qed.

Lemma strip_angles_clean (s : string) :
  includes (strip_angles s) "<" = false /\ includes (strip_angles s) ">" = false.
Proof.
  induction s as [|c s [IHl IHr]]; [split; reflexivity |].
  simpl strip_angles.
  destruct (Ascii.eqb c "<") eqn:El; [now split |].
  destruct (Ascii.eqb c ">") eqn:Er; [now split |].
  cbn [orb]. split.
  - cbn [includes startsWith]. rewrite IHl.
    rewrite Ascii.eqb_sym, El. reflexivity.
  - cbn [includes startsWith]. rewrite IHr.
    rewrite Ascii.eqb_sym, Er. reflexivity.
Qed.

Lemma strip_angles_length (s : string) :
  (String.length (strip_angles s) <= String.length s)%nat.
Proof.
  induction s as [|c s IH]; simpl; [lia |].
  destruct (Ascii.eqb c "<" || Ascii.eqb c ">"); simpl; lia.
Qed.

Lemma trimStart_length (s : string) : (String.length (trimStart s) <= String.length s)%nat.
Proof.
  induction s as [|c s IH]; simpl; [lia |].
  destruct (is_space c); simpl; lia.
Qed.

Lemma trimEnd_length (s : string) : (String.length (trimEnd s) <= String.length s)%nat.
Proof.
  induction s as [|c s IH]; simpl; [lia |].
  destruct (trimEnd s) as [|d rest]; [destruct (is_space c) |]; simpl in *; lia.
Qed.

Lemma existsb_mono {A} (f g : A -> bool) (l : list A) :
  (forall x, f x = true -> g x = true) -> existsb f l = true -> existsb g l = true.
Proof.
  intros Hfg. rewrite !existsb_exists. intros [x [Hin Hf]]. exists x. auto.
Qed.

End HelperFacts.

(** ** Pagination in doubles *)

Section DoubleFacts.

Import Doubles.

Lemma round53_small (n : Z) : Z.abs n < 2 ^ 53 -> round53 n = n.
Proof. intros H. unfold round53. apply Z.ltb_lt in H. now rewrite H. Qed.

Lemma number_small (n : Z) : Z.abs n < 2 ^ 53 -> number n = Finite n.
Proof.
  intros H. unfold number. rewrite (round53_small n H). cbv zeta.
  assert (H1024 : 2 ^ 53 < 2 ^ 1024) by (apply Z.pow_lt_mono_r; lia).
  replace (2 ^ 1024 <=? n) with false by (symmetry; apply Z.leb_gt; lia).
  replace (n <=? - 2 ^ 1024) with false by (symmetry; apply Z.leb_gt; lia).
  reflexivity.
Qed.

(** The quotient that rounding keeps of a number of 53 bits or more. *)
Lemma kept_bits (a : Z) :
  2 ^ 53 <= a -> 1 <= Z.log2 a - 52 /\ 2 ^ 52 <= a / 2 ^ (Z.log2 a - 52).
Proof.
  intros Ha.
  assert (Hpos : 0 < a) by (pose proof (Z.pow_pos_nonneg 2 53); lia).
  assert (Hlog : 53 <= Z.log2 a) by (apply Z.log2_le_pow2; lia).
  split; [lia |].
  destruct (Z.log2_spec a Hpos) as [Hlo _].
  apply Z.div_le_lower_bound; [apply Z.pow_pos_nonneg; lia |].
  rewrite <- Z.pow_add_r by lia.
  replace (Z.log2 a - 52 + 52) with (Z.log2 a) by lia. exact Hlo.
Qed.

Lemma round53_large (n : Z) : 2 ^ 53 <= n -> 2 ^ 52 <= round53 n.
Proof.
  intros Hn.
  assert (Hpos : 0 < n) by (pose proof (Z.pow_pos_nonneg 2 53); lia).
  unfold round53. rewrite (Z.abs_eq n) by lia.
  replace (n <? 2 ^ 53) with false by (symmetry; apply Z.ltb_ge; lia).
  cbv zeta. destruct (kept_bits n Hn) as [He Hq].
  set (e := Z.log2 n - 52) in *. set (q := n / 2 ^ e) in *.
  assert (Hpow : 1 <= 2 ^ e) by (pose proof (Z.pow_pos_nonneg 2 e); lia).
  rewrite (Z.sgn_pos n) by lia.
  assert (Hq' : q <= (if n mod 2 ^ e <? 2 ^ (e - 1) then q
                      else if 2 ^ (e - 1) <? n mod 2 ^ e then q + 1
                           else if Z.even q then q else q + 1))
    by (repeat match goal with |- context [if ?b then _ else _] => destruct b end; lia).
  assert (H52 : 0 < 2 ^ 52) by (apply Z.pow_pos_nonneg; lia).
  nia.
Qed.

Lemma round53_nonneg (n : Z) : 0 <= n -> 0 <= round53 n.
Proof.
  intros Hn. destruct (Z.lt_ge_cases n (2 ^ 53)) as [Hs | Hl].
  - rewrite round53_small; [exact Hn | lia].
  - pose proof (round53_large n Hl). pose proof (Z.pow_pos_nonneg 2 52). lia.
Qed.

Lemma round53_negative (n : Z) : n <= - 2 ^ 53 -> round53 n <= - 2 ^ 52.
Proof.
  intros Hn.
  assert (H53 : 0 < 2 ^ 53) by (apply Z.pow_pos_nonneg; lia).
  unfold round53. rewrite (Z.abs_neq n) by lia.
  replace (- n <? 2 ^ 53) with false by (symmetry; apply Z.ltb_ge; lia).
  cbv zeta. destruct (kept_bits (- n) ltac:(lia)) as [He Hq].
  set (e := Z.log2 (- n) - 52) in *. set (q := - n / 2 ^ e) in *.
  assert (Hpow : 1 <= 2 ^ e) by (pose proof (Z.pow_pos_nonneg 2 e); lia).
  rewrite (Z.sgn_neg n) by lia.
  assert (Hq' : q <= (if - n mod 2 ^ e <? 2 ^ (e - 1) then q
                      else if 2 ^ (e - 1) <? - n mod 2 ^ e then q + 1
                           else if Z.even q then q else q + 1))
    by (repeat match goal with |- context [if ?b then _ else _] => destruct b end; lia).
  assert (H52 : 0 < 2 ^ 52) by (apply Z.pow_pos_nonneg; lia).
  nia.
Qed.

Lemma number_nonneg (n : Z) : 0 <= n -> at_least 0 (number n).
Proof.
  intros Hn. pose proof (round53_nonneg n Hn) as Hr. unfold number. cbv zeta.
  destruct (2 ^ 1024 <=? round53 n); [exact I |].
  assert (H1024 : 0 < 2 ^ 1024) by (apply Z.pow_pos_nonneg; lia).
  replace (round53 n <=? - 2 ^ 1024) with false by (symmetry; apply Z.leb_gt; lia).
  exact Hr.
Qed.

(** The limit is read exactly, whatever its size. *)
Lemma limit_exact (limit : Z) :
  min 100 (max 1 (parseInt limit)) = Finite (Z.min 100 (Z.max 1 limit)).
Proof.
  assert (H52 : 2 ^ 52 = 4503599627370496) by reflexivity.
  assert (H53 : 2 ^ 53 = 9007199254740992) by reflexivity.
  unfold parseInt.
  destruct (Z.lt_ge_cases (Z.abs limit) (2 ^ 53)) as [Hs | Hl].
  - now rewrite number_small.
  - unfold number. cbv zeta.
    destruct (Z.le_ge_cases 0 limit) as [Hpos | Hneg].
    + pose proof (round53_large limit ltac:(lia)) as Hr.
      destruct (2 ^ 1024 <=? round53 limit); [cbn [max min]; f_equal; lia |].
      replace (round53 limit <=? - 2 ^ 1024) with false
        by (symmetry; apply Z.leb_gt; pose proof (Z.pow_pos_nonneg 2 1024); lia).
      cbn [max min]. f_equal. lia.
    + pose proof (round53_negative limit ltac:(lia)) as Hr.
      replace (2 ^ 1024 <=? round53 limit) with false
        by (symmetry; apply Z.leb_gt; pose proof (Z.pow_pos_nonneg 2 1024); lia).
      destruct (round53 limit <=? - 2 ^ 1024); cbn [max min]; f_equal; lia.
Qed.

(** A page below 2^53 is read exactly. *)
Lemma page_exact (page : Z) :
  page < 2 ^ 53 -> max 1 (parseInt page) = Finite (Z.max 1 page).
Proof.
  assert (H52 : 2 ^ 52 = 4503599627370496) by reflexivity.
  assert (H53 : 2 ^ 53 = 9007199254740992) by reflexivity.
  intros Hp. unfold parseInt.
  destruct (Z.lt_ge_cases (Z.abs page) (2 ^ 53)) as [Hs | Hl].
  - now rewrite number_small.
  - unfold number. cbv zeta.
    pose proof (round53_negative page ltac:(lia)) as Hr.
    replace (2 ^ 1024 <=? round53 page) with false
      by (symmetry; apply Z.leb_gt; pose proof (Z.pow_pos_nonneg 2 1024); lia).
    destruct (round53 page <=? - 2 ^ 1024); cbn [max]; f_equal; lia.
Qed.

Lemma page_at_least_1 (page : Z) : at_least 1 (max 1 (parseInt page)).
Proof.
  unfold parseInt, number. cbv zeta.
  repeat match goal with |- context [if ?b then _ else _] => destruct b end;
    cbn [max at_least]; lia.
Qed.

Lemma offset_nonneg (pageNum : JsNumber) (l : Z) :
  at_least 1 pageNum -> 1 <= l -> at_least 0 (times (minus pageNum 1) (Finite l)).
Proof.
  intros Hp Hl. destruct pageNum as [p | | |]; cbn [at_least] in Hp; try contradiction.
  - cbn [minus]. pose proof (number_nonneg (p - 1) ltac:(lia)) as Ho.
    destruct (number (p - 1)) as [o | | |]; cbn [at_least] in Ho; try contradiction.
    + cbn [times]. apply number_nonneg. nia.
    + cbn [times].
      replace (l =? 0) with false by (symmetry; apply Z.eqb_neq; lia).
      replace (0 <? l) with true by (symmetry; apply Z.ltb_lt; lia). exact I.
  - cbn [minus times].
    replace (l =? 0) with false by (symmetry; apply Z.eqb_neq; lia).
    replace (0 <? l) with true by (symmetry; apply Z.ltb_lt; lia). exact I.
Qed.

End DoubleFacts.

(** X1. For every integer page and limit, [paginate], computing in
    doubles, answers with the limit brought between 1 and 100, a page
    of at least 1 and an offset that is never negative (either may be
    infinite). As long as the page times 100 stays below 2^53 the page
    is the one asked for (1 at least), the offset is
    [(page - 1) * limit] exactly, and the window of the next page starts
    exactly where this one ends. Beyond, pages are confused: page
    2^53 + 1 is answered with the window of page 2^53. *)
Theorem paginate_windows_tile (page limit : Z) :
  let r := Doubles.paginate page limit in
  let exact := MoreHelpers.paginate page limit in
  Doubles.limit r = Doubles.Finite (MoreHelpers.pg_limit exact)
  /\ 1 <= MoreHelpers.pg_limit exact <= 100
  /\ Doubles.at_least 1 (Doubles.page r)
  /\ Doubles.at_least 0 (Doubles.offset r)
  /\ (MoreHelpers.pg_page exact * 100 < 2 ^ 53 ->
      Doubles.page r = Doubles.Finite (MoreHelpers.pg_page exact)
      /\ Doubles.offset r = Doubles.Finite (MoreHelpers.pg_offset exact)
      /\ MoreHelpers.pg_offset exact
         = (MoreHelpers.pg_page exact - 1) * MoreHelpers.pg_limit exact
      /\ Doubles.offset (Doubles.paginate (MoreHelpers.pg_page exact + 1) limit)
         = Doubles.Finite (MoreHelpers.pg_offset exact + MoreHelpers.pg_limit exact))
  /\ Doubles.paginate (2 ^ 53 + 1) limit = Doubles.paginate (2 ^ 53) limit.
Proof.
  assert (H53 : 2 ^ 53 = 9007199254740992) by reflexivity.
  unfold Doubles.paginate, MoreHelpers.paginate. cbv zeta.
  cbn [Doubles.page Doubles.limit Doubles.offset
       MoreHelpers.pg_page MoreHelpers.pg_limit MoreHelpers.pg_offset].
  rewrite !limit_exact.
  set (l := Z.min 100 (Z.max 1 limit)).
  assert (Hl : 1 <= l <= 100) by (subst l; lia).
  split; [reflexivity |]. split; [exact Hl |].
  split; [apply page_at_least_1 |].
  split; [apply offset_nonneg; [apply page_at_least_1 | lia] |].
  split.
  - intros Hsafe. set (p := Z.max 1 page) in *.
    assert (Hp : 1 <= p) by (subst p; lia).
    rewrite (page_exact page) by lia. fold p.
    rewrite (page_exact (p + 1)) by lia.
    replace (Z.max 1 (p + 1)) with (p + 1) by lia.
    cbn [Doubles.minus]. rewrite !number_small by lia.
    cbn [Doubles.times]. rewrite !number_small by nia.
    repeat split; f_equal; lia.
  - replace (Doubles.parseInt (2 ^ 53 + 1)) with (Doubles.parseInt (2 ^ 53))
      by (vm_compute; reflexivity).
    reflexivity.
Qed.

Lemma paginate_windows_tile_witness :
  Doubles.offset (Doubles.paginate 3 10) = Doubles.Finite 20
  /\ Doubles.offset (Doubles.paginate 4 10) = Doubles.Finite 30.
Proof.
  destruct (paginate_windows_tile 3 10) as [_ [_ [_ [_ [Hsafe _]]]]].
  destruct Hsafe as [_ [Hoffset [_ Hnext]]]; [reflexivity |].
  split; [exact Hoffset | exact Hnext].
Defined.

(** X2. For the page and limit that [paginate] yields and any row count,
    the metadata says there is a next page exactly when rows exist beyond
    the window [offset .. offset + limit - 1] the list route fetched, and
    a previous page exactly when the window does not start at row 0; the
    page count is the least number of windows that covers the rows. *)
Theorem pagination_meta_matches_window (page limit total : Z) :
  let r := MoreHelpers.paginate page limit in
  let m := MoreHelpers.formatPaginationMeta
             (MoreHelpers.pg_page r) (MoreHelpers.pg_limit r) total in
  (MoreHelpers.hasNext m = true <->
     MoreHelpers.pg_offset r + MoreHelpers.pg_limit r < total)
  /\ (MoreHelpers.hasPrev m = true <-> 0 < MoreHelpers.pg_offset r)
  /\ (MoreHelpers.totalPages m - 1) * MoreHelpers.pg_limit r < total
     <= MoreHelpers.totalPages m * MoreHelpers.pg_limit r.
Proof.
  intros r m.
  pose proof (paginate_limit_pos page limit) as Hl. fold r in Hl.
  pose proof (ceil_div_bounds total (MoreHelpers.pg_limit r) ltac:(lia)) as Hc.
  assert (Hoff : MoreHelpers.pg_offset r
                 = (MoreHelpers.pg_page r - 1) * MoreHelpers.pg_limit r) by reflexivity.
  assert (Hp : 1 <= MoreHelpers.pg_page r) by (subst r; unfold MoreHelpers.paginate; simpl; lia).
  subst m. unfold MoreHelpers.formatPaginationMeta. cbn [MoreHelpers.hasNext
    MoreHelpers.hasPrev MoreHelpers.totalPages].
  rewrite !Z.ltb_lt, Hoff. split; [| split; [| exact Hc]].
  - split; intros H; nia.
  - split; intros H; nia.
Qed.

(** X3. A list of tags is accepted exactly when every tag, lower-cased,
    is one of the twenty known tags; the separate checks on the length of
    a tag never reject anything the list of known tags admits. *)
Theorem validateTags_iff_known (tags : list string) :
  MoreHelpers.validateTags tags = true
  <-> forall tag, In tag tags -> In (toLowerCase tag) MoreHelpers.validTags.
Proof.
  unfold MoreHelpers.validateTags. rewrite forallb_forall. split.
  - intros H tag Hin. specialize (H tag Hin).
    apply andb_true_iff in H as [_ H]. now apply array_includes_In.
  - intros H tag Hin. specialize (H tag Hin).
    pose proof (valid_tag_length _ H) as Hlen. rewrite toLowerCase_length in Hlen.
    apply andb_true_iff. split; [apply andb_true_iff; split |].
    + apply Nat.ltb_lt. lia.
    + apply Nat.leb_le. lia.
    + now apply array_includes_In.
Qed.

(** X4. Sanitised text never contains an angle bracket and is never
    longer than the input. *)
Theorem sanitizeText_has_no_angle_bracket (text : string) :
  includes (MoreHelpers.sanitizeText text) "<" = false
  /\ includes (MoreHelpers.sanitizeText text) ">" = false
  /\ (String.length (MoreHelpers.sanitizeText text) <= String.length text)%nat.
Proof.
  unfold MoreHelpers.sanitizeText, MoreHelpers.trim.
  destruct (strip_angles_clean (MoreHelpers.trimEnd (MoreHelpers.trimStart text)))
    as [Hl Hr].
  split; [exact Hl |]. split; [exact Hr |].
  pose proof (strip_angles_length (MoreHelpers.trimEnd (MoreHelpers.trimStart text))).
  pose proof (trimEnd_length (MoreHelpers.trimStart text)).
  pose proof (trimStart_length text). lia.
Qed.

(** X5. The disaster priority is always 1, 3, 4 or 5, and adding tags
    never lowers it. *)
Theorem disaster_priority_monotone_in_tags
    (tags tags' : list string) (description : option string) :
  (forall tag, In tag tags -> In tag tags') ->
  In (MoreHelpers.calculateDisasterPriority tags description) [1; 3; 4; 5]
  /\ MoreHelpers.calculateDisasterPriority tags description
     <= MoreHelpers.calculateDisasterPriority tags' description.
Proof.
  intros Hsub. unfold MoreHelpers.calculateDisasterPriority.
  set (text := toLowerCase (default "" description)).
  assert (Hinc : forall x, MoreHelpers.array_includes tags x = true ->
                           MoreHelpers.array_includes tags' x = true).
  { intros x Hx. apply array_includes_In. apply Hsub. now apply array_includes_In. }
  assert (Hmention : forall x,
            includes text x || MoreHelpers.array_includes tags x = true ->
            includes text x || MoreHelpers.array_includes tags' x = true).
  { intros x Hx. apply orb_true_iff in Hx as [Hx | Hx]; apply orb_true_iff; auto. }
  pose proof (existsb_mono _ _ MoreHelpers.urgentTags Hmention) as Hu.
  pose proof (existsb_mono _ _ MoreHelpers.highPriorityTags Hmention) as Hh.
  pose proof (existsb_mono (fun type => MoreHelpers.array_includes tags type)
                (fun type => MoreHelpers.array_includes tags' type)
                MoreHelpers.disasterTypes Hinc) as Hd.
  destruct (existsb _ MoreHelpers.urgentTags) eqn:E1;
    [rewrite (Hu eq_refl) | clear Hu];
    (destruct (existsb _ MoreHelpers.highPriorityTags) eqn:E2;
       [rewrite (Hh eq_refl) | clear Hh]);
    (destruct (existsb _ MoreHelpers.disasterTypes) eqn:E3;
       [rewrite (Hd eq_refl) | clear Hd]);
    repeat match goal with
           | |- context [if existsb ?f ?l then _ else _] => destruct (existsb f l)
           end;
    (split; [simpl; tauto | simpl; lia]).
Qed.

Lemma disaster_priority_monotone_in_tags_witness :
  MoreHelpers.calculateDisasterPriority ["flood"] (Some "River rising")
  <= MoreHelpers.calculateDisasterPriority ["flood"; "urgent"] (Some "River rising").
Proof.
  apply (disaster_priority_monotone_in_tags ["flood"] ["flood"; "urgent"]
           (Some "River rising")).
  intros tag [<- | []]. simpl. tauto.
Defined.

(** ** Cache adapter, continued *)

Section MoreCacheFacts.

Import Frames.

Lemma Qfloor_unique (x : Q) (n : Z) :
  (inject_Z n <= x)%Q -> (x < inject_Z (n + 1))%Q -> Qfloor x = n.
Proof.
  intros Hle Hlt.
  pose proof (Qfloor_le x) as Hfl. pose proof (Qlt_floor x) as Hfu.
  assert (H1 : (inject_Z n < inject_Z (Qfloor x + 1))%Q)
    by (eapply Qle_lt_trans; eassumption).
  assert (H2 : (inject_Z (Qfloor x) < inject_Z (n + 1))%Q)
    by (eapply Qle_lt_trans; eassumption).
  rewrite <- Zlt_Qlt in H1, H2. lia.
Qed.

(** Two offsets of one zone are never more than a day apart. *)
Lemma LocalTZA_band (tz : TimeZone) (t t' : Z) (b b' : bool) :
  LocalTZA tz t b - LocalTZA tz t' b' <= day_ms.
Proof. unfold LocalTZA, day_ms, hour_ms. lia. Qed.

(** Adding a non-negative number of hours to an hour of the day adds the
    whole hours in it: the fraction is lost. *)
Lemma truncate_plus_hours (h : Z) (ttlHours : Q) :
  0 <= h -> (0 <= ttlHours)%Q -> truncate (inject_Z h + ttlHours) - h = Qfloor ttlHours.
Proof.
  intros Hh Httl. unfold truncate.
  assert (HhQ : (0 <= inject_Z h)%Q)
    by (change (inject_Z 0 <= inject_Z h)%Q; rewrite <- Zle_Qle; exact Hh).
  replace (Qle_bool 0 (inject_Z h + ttlHours)) with true
    by (symmetry; apply Qle_bool_iff; lra).
  pose proof (Qfloor_le ttlHours) as Hfl. pose proof (Qlt_floor ttlHours) as Hfu.
  rewrite inject_Z_plus in Hfu. change (inject_Z 1) with 1%Q in Hfu.
  rewrite (Qfloor_unique (inject_Z h + ttlHours) (h + Qfloor ttlHours)).
  - lia.
  - rewrite inject_Z_plus. lra.
  - rewrite !inject_Z_plus. change (inject_Z 1) with 1%Q. lra.
Qed.

(** The expiry of a non-negative TTL is the instant that the local time
    of writing, moved on by the whole hours of the TTL, reads back as. *)
Lemma setHours_plus_nonneg (tz : TimeZone) (t : Z) (ttlHours : Q) :
  (0 <= ttlHours)%Q ->
  setHours_plus tz t ttlHours = UTC tz (LocalTime tz t + Qfloor ttlHours * hour_ms).
Proof.
  intros Httl. unfold setHours_plus. cbv zeta.
  rewrite truncate_plus_hours; [reflexivity | | exact Httl].
  apply Z.mod_pos_bound. lia.
Qed.

(** A TTL of a day never expires before it is written. *)
Lemma setHours_plus_day (tz : TimeZone) (t : Z) : t <= setHours_plus tz t 24.
Proof.
  change 24%Q with (inject_Z 24). rewrite setHours_plus_nonneg by discriminate.
  change (Qfloor (inject_Z 24)) with 24. unfold UTC, LocalTime.
  pose proof (LocalTZA_band tz (t + LocalTZA tz t true + 24 * hour_ms) t false true).
  unfold day_ms in *. lia.
Qed.

Lemma setCachedData_reachable (key : string) (v : JsonValue) (ttlHours : Q)
    (w : World) (client : Client) :
  supabase w = Some client -> health client = Reachable ->
  setCachedData key v ttlHours w
  = (Return tt,
     with_client
       (Some {| health := Reachable;
                cache := <[key := {| value := v;
                                     expires_at := setHours_plus (zone w) (clock w) ttlHours |}]>
                           (cache client) |}) w).
Proof. intros Hs Hh. now rewrite setCachedData_run, Hs, Hh. Qed.

(** A read that misses on a working database leaves a working database. *)
Lemma getCachedData_miss_reachable (key : string) (w : World) (client : Client) :
  supabase w = Some client -> health client = Reachable ->
  fst (getCachedData key w) = Return None ->
  exists cache1,
    getCachedData key w
    = (Return None, with_client (Some {| health := Reachable; cache := cache1 |}) w)
    /\ cache1 !! key = None.
Proof.
  intros Hs Hh. rewrite getCachedData_run, Hs, Hh.
  destruct (cache client !! key) as [row|] eqn:Hrow.
  - destruct (expires_at row <? clock w); [| discriminate].
    intros _. eexists. split; [reflexivity | apply lookup_delete_eq].
  - intros _. exists (cache client). split; [| exact Hrow].
    destruct client as [hl c]. simpl in *. subst hl.
    now rewrite <- Hs, with_client_same.
Qed.

Lemma clearExpiredCache_run (w : World) :
  Sweep.clearExpiredCache w =
  match supabase w with
  | Some client =>
      match health client with
      | Reachable =>
          (Return tt,
           with_client
             (Some {| health := Reachable;
                      cache := filter (fun kv : string * CacheRow =>
                                         clock w <= expires_at (snd kv))
                                      (cache client) |}) w)
      | _ => (Return tt, w)
      end
  | None => (Return tt, w)
  end.
Proof.
  unfold Sweep.clearExpiredCache, Sweep.cache_delete_expired, try_catch, bind, now, ret.
  destruct (supabase w) as [client|]; [| reflexivity].
  destruct (health client); reflexivity.
Qed.

End MoreCacheFacts.

(** X6. On a working database, a value written with a non-negative TTL
    is read back unchanged at every time up to the expiry, and reads as
    a miss at every later time. The expiry is the instant that the local
    time of writing, moved on by the whole hours of the TTL (the
    fraction is lost), reads back as: the time of writing plus those
    hours, less what the zone's offset has grown between the two. *)
Theorem cached_value_readable_until_expiry
    (w : World) (client : Client) (key : string) (v : JsonValue) (ttlHours : Q) (t : Z) :
  supabase w = Some client ->
  health client = Reachable ->
  (0 <= ttlHours)%Q ->
  let w1 := snd (setCachedData key v ttlHours w) in
  let local_expiry := LocalTime (zone w) (clock w) + Qfloor ttlHours * 3600000 in
  let expiry := UTC (zone w) local_expiry in
  (t <= expiry ->
     getCachedData key (Frames.at_time t w1) = (Return (Some v), Frames.at_time t w1))
  /\ (expiry < t -> fst (getCachedData key (Frames.at_time t w1)) = Return None)
  /\ expiry = clock w + Qfloor ttlHours * 3600000
               - (LocalTZA (zone w) local_expiry false - LocalTZA (zone w) (clock w) true)
  /\ (LocalTZA (zone w) local_expiry false = LocalTZA (zone w) (clock w) true ->
      expiry = clock w + Qfloor ttlHours * 3600000).
Proof.
  intros Hs Hh Httl w1 local_expiry expiry.
  assert (Hw1 : w1 = with_client
                       (Some {| health := Reachable;
                                cache := <[key := {| value := v; expires_at := expiry |}]>
                                           (cache client) |}) w).
  { subst w1 expiry local_expiry.
    rewrite (setCachedData_reachable key v ttlHours w client Hs Hh).
    simpl. now rewrite setHours_plus_nonneg. }
  assert (Hexp : expiry = clock w + Qfloor ttlHours * 3600000
                          - (LocalTZA (zone w) local_expiry false
                             - LocalTZA (zone w) (clock w) true)).
  { subst expiry local_expiry. unfold UTC, LocalTime. lia. }
  split; [| split; [| split]].
  - intros Ht. rewrite Hw1, getCachedData_run.
    cbn [supabase Frames.at_time with_client health cache clock].
    rewrite lookup_insert_eq. cbn [expires_at value].
    replace (expiry <? t) with false by (symmetry; apply Z.ltb_ge; lia). reflexivity.
  - intros Ht. rewrite Hw1, getCachedData_run.
    cbn [supabase Frames.at_time with_client health cache clock].
    rewrite lookup_insert_eq. cbn [expires_at value].
    replace (expiry <? t) with true by (symmetry; apply Z.ltb_lt; lia). reflexivity.
  - exact Hexp.
  - intros Hsame. rewrite Hexp, Hsame. lia.
Qed.

Lemma cached_value_readable_until_expiry_witness :
  fst (getCachedData "k"
         (Frames.at_time (MoreSamples.day_before + 23 * 3600000 + 1)
            (snd (setCachedData "k" (VGeocode Samples.manhattan) 24
                    MoreSamples.spring_world))))
  = Return None.
Proof.
  apply (proj1 (proj2 (cached_value_readable_until_expiry MoreSamples.spring_world _ "k"
                         (VGeocode Samples.manhattan) 24
                         (MoreSamples.day_before + 23 * 3600000 + 1)
                         eq_refl eq_refl ltac:(discriminate)))).
  reflexivity.
Defined.

(** X7. On a working database the last write to a key wins: two writes
    to one key leave the world exactly as the second write alone would,
    and no write changes what a read of another key returns. *)
Theorem cache_last_writer_wins
    (w : World) (client : Client) (key : string) (v1 v2 : JsonValue) (ttl1 ttl2 : Q) :
  supabase w = Some client ->
  health client = Reachable ->
  snd (setCachedData key v2 ttl2 (snd (setCachedData key v1 ttl1 w)))
  = snd (setCachedData key v2 ttl2 w)
  /\ forall other,
       other <> key ->
       fst (getCachedData other (snd (setCachedData key v1 ttl1 w)))
       = fst (getCachedData other w).
Proof.
  intros Hs Hh.
  rewrite (setCachedData_reachable key v1 ttl1 w client Hs Hh). cbn [snd].
  rewrite (setCachedData_reachable key v2 ttl2 w client Hs Hh). cbn [snd].
  split.
  - erewrite setCachedData_reachable; [| reflexivity | reflexivity].
    cbn [snd cache clock with_client]. rewrite insert_insert_eq. reflexivity.
  - intros other Hne. rewrite !getCachedData_run.
    cbn [supabase with_client health cache clock]. rewrite Hs, Hh.
    rewrite lookup_insert_ne by congruence.
    destruct (cache client !! other) as [row|]; [| reflexivity].
    destruct (expires_at row <? clock w); reflexivity.
Qed.

Lemma cache_last_writer_wins_witness :
  fst (getCachedData "k"
         (snd (setCachedData "k" (VGeocode Samples.manhattan) 24
                 (snd (setCachedData "k"
                         (VGeocode (from_hit Samples.paris mapbox)) 24
                         Samples.stale_world)))))
  = Return (Some (VGeocode Samples.manhattan)).
Proof.
  rewrite (proj1 (cache_last_writer_wins Samples.stale_world _ "k"
                    (VGeocode (from_hit Samples.paris mapbox))
                    (VGeocode Samples.manhattan) 24 24 eq_refl eq_refl)).
  reflexivity.
Defined.

(** X8. In mock mode, on a working database, a social-media fetch that
    misses the cache stores its result with the expiry set to the
    instant that the local time of writing reads back as: the TTL of
    0.17 hours is cut to zero whole hours. Where the zone's offset for
    that local time is the one in force, this is the time of writing:
    the stored result is still read at that very instant, and every
    later read of the key misses. Where that offset is larger, as in the
    hour repeated after clocks go back, the result is stored already
    expired and is never read. *)
Theorem social_cache_entry_expires_at_once
    (w : World) (client : Client) (disasterId : string) (keywords : list string) :
  supabase w = Some client ->
  health client = Reachable ->
  fst (getCachedData (SocialMedia.cacheKey disasterId keywords) w) = Return None ->
  let run := SocialMedia.fetchReports SocialMedia.SMock disasterId keywords w in
  let expiry := UTC (zone w) (LocalTime (zone w) (clock w)) in
  expiry = clock w - (LocalTZA (zone w) (LocalTime (zone w) (clock w)) false
                      - LocalTZA (zone w) (clock w) true)
  /\ (exists v,
        fst run = Return v
        /\ (clock w <= expiry ->
            fst (getCachedData (SocialMedia.cacheKey disasterId keywords) (snd run))
            = Return (Some v))
        /\ (expiry < clock w ->
            fst (getCachedData (SocialMedia.cacheKey disasterId keywords) (snd run))
            = Return None))
  /\ forall t,
       expiry < t ->
       fst (getCachedData (SocialMedia.cacheKey disasterId keywords)
              (Frames.at_time t (snd run)))
       = Return None.
Proof.
  intros Hs Hh Hmiss run expiry.
  destruct (getCachedData_miss_reachable _ w client Hs Hh Hmiss) as [cache1 [Hget _]].
  set (w1 := with_client (Some {| health := Reachable; cache := cache1 |}) w) in *.
  destruct (fetchMockReports_run keywords None w1) as [r0 [Hr0 _]].
  set (final :=
         {| reports := SocialMedia._processReports (reports r0) disasterId (clock w);
            s_source := s_source r0; totalFound := totalFound r0;
            s_disasterId := Some disasterId; s_fetchedAt := Some (clock w) |}).
  assert (Hrun : run =
            (Return (VSocial final),
             with_client
               (Some {| health := Reachable;
                        cache := <[SocialMedia.cacheKey disasterId keywords :=
                                     {| value := VSocial final; expires_at := expiry |}]>
                                   cache1 |}) w)).
  { subst run expiry. unfold SocialMedia.fetchReports, try_catch, bind.
    rewrite Hget, Hr0. unfold now. cbn [clock with_client]. fold w1. fold final.
    rewrite (setCachedData_reachable _ _ _ w1 _ eq_refl eq_refl).
    cbn [clock zone with_client cache]. subst w1.
    rewrite setHours_plus_nonneg by discriminate.
    replace (Qfloor 0.17) with 0 by reflexivity.
    rewrite Z.mul_0_l, Z.add_0_r. reflexivity. }
  rewrite Hrun. cbn [fst snd]. split; [| split].
  - subst expiry. unfold UTC, LocalTime. lia.
  - exists (VSocial final). split; [reflexivity |].
    rewrite getCachedData_run. cbn [supabase with_client health cache clock].
    rewrite lookup_insert_eq. cbn [expires_at value]. split; intros Ht.
    + replace (expiry <? clock w) with false by (symmetry; apply Z.ltb_ge; lia).
      reflexivity.
    + replace (expiry <? clock w) with true by (symmetry; apply Z.ltb_lt; lia).
      reflexivity.
  - intros t Ht. rewrite getCachedData_run.
    cbn [supabase Frames.at_time with_client health cache clock].
    rewrite lookup_insert_eq. cbn [expires_at].
    replace (expiry <? t) with true by (symmetry; apply Z.ltb_lt; lia). reflexivity.
Qed.

Lemma social_cache_entry_expires_at_once_witness :
  exists v,
    fst (SocialMedia.fetchReports SocialMedia.SMock "d1" ["flood"] MoreSamples.autumn_world)
    = Return v
    /\ fst (getCachedData (SocialMedia.cacheKey "d1" ["flood"])
              (snd (SocialMedia.fetchReports SocialMedia.SMock "d1" ["flood"]
                      MoreSamples.autumn_world)))
       = Return None.
Proof.
  destruct (social_cache_entry_expires_at_once MoreSamples.autumn_world _ "d1" ["flood"]
              eq_refl eq_refl eq_refl) as [_ [[v [Hrun [_ Hexpired]]] _]].
  exists v. split; [exact Hrun |]. apply Hexpired. reflexivity.
Defined.

(** X9. Sweeping the expired rows never throws, not even without a
    database; on a working database it keeps exactly the rows whose
    expiry is not before the time of the sweep; and no read returns
    anything else after a sweep than it would have returned before. *)
Theorem sweep_changes_no_read (w : World) :
  (exists w', Sweep.clearExpiredCache w = (Return tt, w'))
  /\ (forall key,
        fst (getCachedData key (snd (Sweep.clearExpiredCache w)))
        = fst (getCachedData key w))
  /\ (forall client,
        supabase w = Some client ->
        health client = Reachable ->
        exists client',
          supabase (snd (Sweep.clearExpiredCache w)) = Some client'
          /\ forall k row,
               cache client' !! k = Some row
               <-> cache client !! k = Some row /\ clock w <= expires_at row).
Proof.
  rewrite clearExpiredCache_run. split; [| split].
  - destruct (supabase w) as [client|]; [destruct (health client) |]; eexists; reflexivity.
  - intros key. destruct (supabase w) as [client|] eqn:Hs; [| reflexivity].
    destruct (health client) eqn:Hh; try reflexivity.
    cbn [snd]. rewrite !getCachedData_run.
    cbn [supabase with_client health cache clock]. rewrite Hs, Hh.
    destruct (cache client !! key) as [row|] eqn:Hrow.
    + destruct (expires_at row <? clock w) eqn:E.
      * apply Z.ltb_lt in E.
        replace (filter _ (cache client) !! key) with (@None CacheRow); [reflexivity |].
        symmetry. apply map_lookup_filter_None. right.
        intros x Hx. simpl. rewrite Hrow in Hx. injection Hx as <-. lia.
      * apply Z.ltb_ge in E.
        replace (filter _ (cache client) !! key) with (Some row).
        -- apply Z.ltb_ge in E. now rewrite E.
        -- symmetry. apply map_lookup_filter_Some. split; [exact Hrow | exact E].
    + replace (filter _ (cache client) !! key) with (@None CacheRow); [reflexivity |].
      symmetry. apply map_lookup_filter_None. now left.
  - intros client Hs Hh. rewrite Hs, Hh. eexists. split; [reflexivity |].
    intros k row. cbn [cache]. rewrite map_lookup_filter_Some. reflexivity.
Qed.

Lemma sweep_changes_no_read_witness :
  exists client',
    supabase (snd (Sweep.clearExpiredCache Samples.stale_world)) = Some client'
    /\ cache client' !! "geocode_bWFuaGF0dGFu" = None.
Proof.
  destruct (proj2 (proj2 (sweep_changes_no_read Samples.stale_world)) _ eq_refl eq_refl)
    as [client' [Hc Hrows]].
  exists client'. split; [exact Hc |].
  destruct (cache client' !! "geocode_bWFuaGF0dGFu") as [row|] eqn:E; [| reflexivity].
  apply Hrows in E as [Hrow Hexp]. exfalso.
  change (cache _ !! "geocode_bWFuaGF0dGFu") with
    (({[ "geocode_bWFuaGF0dGFu" :=
          {| value := VGeocode Samples.manhattan; expires_at := 1000 |} ]}
        : gmap string CacheRow) !! "geocode_bWFuaGF0dGFu") in Hrow.
  rewrite lookup_singleton_eq in Hrow. injection Hrow as <-. simpl in Hexp. lia.
Defined.

(** ** Computations that leave the database alone *)

Section StoreFacts.

Import Frames.

Lemma keeps_store_ret {A} (a : A) : keeps_store (ret a).
Proof. intros w. reflexivity. Qed.

Lemma keeps_store_throw {A} (e : JsError) : keeps_store (@throw A e).
Proof. intros w. reflexivity. Qed.

Lemma keeps_store_bind {A B} (m : M A) (k : A -> M B) :
  keeps_store m -> (forall a, keeps_store (k a)) -> keeps_store (bind m k).
Proof.
  intros Hm Hk w. unfold bind. specialize (Hm w).
  destruct (m w) as [[a|e] w1]; simpl in Hm.
  - rewrite <- Hm. apply Hk.
  - exact Hm.
Qed.

Lemma keeps_store_try_catch {A} (m : M A) (handler : JsError -> M A) :
  keeps_store m -> (forall e, keeps_store (handler e)) -> keeps_store (try_catch m handler).
Proof.
  intros Hm Hh w. unfold try_catch. specialize (Hm w).
  destruct (m w) as [[a|e] w1]; simpl in Hm.
  - exact Hm.
  - rewrite <- Hm. apply Hh.
Qed.

Lemma keeps_store_now : keeps_store now.
Proof. intros w. reflexivity. Qed.

Lemma keeps_store_delay (ms : Z) : keeps_store (delay ms).
Proof. intros w. reflexivity. Qed.

Lemma keeps_store_math_random : keeps_store math_random.
Proof. intros w. reflexivity. Qed.

Lemma keeps_store_axios_get (ep : Endpoint) : keeps_store (axios_get ep).
Proof. intros w. reflexivity. Qed.

Lemma keeps_store_message (e : JsError) : keeps_store (message e).
Proof. destruct e; [apply keeps_store_throw | apply keeps_store_ret]. Qed.

Lemma keeps_store_logged {A} (m : M A) : keeps_store m -> keeps_store (logged m).
Proof.
  intros Hm. apply keeps_store_try_catch; [exact Hm |].
  intros e. apply keeps_store_bind; [apply keeps_store_message |].
  intros _. apply keeps_store_throw.
Qed.

Lemma keeps_store_retry_loop {A} (fn : M A) (maxRetries baseDelay : Z) :
  keeps_store fn ->
  forall remaining i lastError,
    keeps_store (retry_loop fn maxRetries baseDelay remaining i lastError).
Proof.
  intros Hfn. induction remaining as [|r IH]; intros i lastError; cbn [retry_loop].
  - apply keeps_store_throw.
  - apply keeps_store_try_catch; [exact Hfn |]. intros e.
    destruct (i =? maxRetries - 1); [apply keeps_store_throw |].
    apply keeps_store_bind; [apply keeps_store_message |]. intros _.
    apply keeps_store_bind; [apply keeps_store_delay |]. intros _. apply IH.
Qed.

Lemma keeps_store_retry_axios (ep : Endpoint) :
  keeps_store (retryWithBackoff (axios_get ep) 3 1000).
Proof. apply keeps_store_retry_loop, keeps_store_axios_get. Qed.

Lemma keeps_store_provider_client (s : Geocoding.Service) (locationName : string) :
  keeps_store (provider_client s locationName).
Proof.
  destruct s; cbn [provider_client];
    unfold _geocodeWithGoogle, _geocodeWithMapbox, _geocodeWithNominatim;
    apply keeps_store_logged; (apply keeps_store_bind; [apply keeps_store_retry_axios |]);
    intros [status [|h hits] | | |];
    try destruct (String.eqb status "OK");
    first [apply keeps_store_ret | apply keeps_store_throw].
Qed.

Lemma keeps_store_geocodeMock (locationName : string) :
  keeps_store (_geocodeMock locationName).
Proof.
  unfold _geocodeMock. apply keeps_store_bind; [| intros c; apply keeps_store_ret].
  destruct (own_property _ mockLocations) as [[la ln]|]; [apply keeps_store_ret |].
  destruct (inherited_property _); [apply keeps_store_ret |].
  apply keeps_store_bind; [apply keeps_store_math_random |]. intros r1.
  apply keeps_store_bind; [apply keeps_store_math_random |]. intros r2.
  apply keeps_store_ret.
Qed.

(** A read that hits changes nothing. *)
Lemma getCachedData_hit (key : string) (w : World) (v : JsonValue) :
  fst (getCachedData key w) = Return (Some v) ->
  getCachedData key w = (Return (Some v), w).
Proof.
  rewrite getCachedData_run.
  destruct (supabase w) as [client|]; [| discriminate].
  destruct (health client); try discriminate.
  destruct (cache client !! key) as [row|]; [| discriminate].
  destruct (expires_at row <? clock w); [discriminate |].
  simpl. intros H. injection H as <-. reflexivity.
Qed.

Lemma geocode_body (s : Geocoding.Service) (locationName : string) (w : World) :
  geocode s locationName w =
  try_catch
    (await! cachedResult := getCachedData (Geocoding.cacheKey locationName) in
     match cachedResult with
     | Some hit => ret hit
     | None =>
         await! result := provider_client s locationName in
         run! setCachedData (Geocoding.cacheKey locationName) (VGeocode result) 24 in
         ret (VGeocode result)
     end)
    (fun error =>
       run! message error in
       await! result := _geocodeMock locationName in ret (VGeocode result)) w.
Proof. destruct s; reflexivity. Qed.

End StoreFacts.

(** X10. A geocoding request that misses the cache on a working database
    while the selected provider returns a result stores that result, so
    that asking again for the same name in the resulting world returns the
    same value from the cache, whatever provider is selected then, and
    changes nothing: no request is sent. *)
Theorem geocode_second_call_hits_cache
    (s s' : Geocoding.Service) (locationName : string) (w : World)
    (client : Client) (r : GeocodeResult) :
  supabase w = Some client ->
  health client = Reachable ->
  fst (getCachedData (Geocoding.cacheKey locationName) w) = Return None ->
  provider_result s w = Some r ->
  let w1 := snd (geocode s locationName w) in
  fst (geocode s locationName w) = Return (VGeocode r)
  /\ geocode s' locationName w1 = (Return (VGeocode r), w1).
Proof.
  intros Hs Hh Hmiss Hres w1.
  destruct (getCachedData_miss_reachable _ w client Hs Hh Hmiss) as [cache1 [Hget _]].
  set (w0 := with_client (Some {| health := Reachable; cache := cache1 |}) w) in *.
  destruct (provider_client_run s locationName w0) as [w2 [evs [_ [_ Hrun]]]].
  change (provider_result s w0) with (provider_result s w) in Hrun.
  rewrite Hres in Hrun.
  pose proof (keeps_store_provider_client s locationName w0) as Hkeep.
  rewrite Hrun in Hkeep. cbn [snd] in Hkeep. change (supabase w0) with
    (Some {| health := Reachable; cache := cache1 |}) in Hkeep.
  pose proof (setCachedData_reachable (Geocoding.cacheKey locationName) (VGeocode r) 24
                w2 _ Hkeep eq_refl) as Hset.
  cbn [cache] in Hset.
  assert (Hg : geocode s locationName w =
               (Return (VGeocode r),
                with_client
                  (Some {| health := Reachable;
                           cache := <[Geocoding.cacheKey locationName :=
                                        {| value := VGeocode r;
                                           expires_at := setHours_plus (zone w2) (clock w2) 24 |}]>
                                      cache1 |}) w2)).
  { rewrite geocode_body. unfold try_catch, bind. now rewrite Hget, Hrun, Hset. }
  subst w1. rewrite Hg. cbn [fst snd]. split; [reflexivity |].
  rewrite geocode_body. unfold try_catch, bind at 1.
  rewrite getCachedData_run. cbn [supabase with_client health cache clock].
  rewrite lookup_insert_eq. cbn [expires_at value].
  replace (setHours_plus (zone w2) (clock w2) 24 <? clock w2) with false
    by (symmetry; apply Z.ltb_ge; apply setHours_plus_day).
  reflexivity.
Qed.

Lemma geocode_second_call_hits_cache_witness :
  geocode SGoogle "Paris"
    (snd (geocode SMapbox "Paris" (Frames.at_time 5 (with_client
            (Some {| health := Reachable; cache := ∅ |}) Samples.google_down))))
  = (Return (VGeocode (from_hit Samples.paris mapbox)),
     snd (geocode SMapbox "Paris" (Frames.at_time 5 (with_client
            (Some {| health := Reachable; cache := ∅ |}) Samples.google_down)))).
Proof.
  apply (geocode_second_call_hits_cache SMapbox SGoogle "Paris"
           (Frames.at_time 5 (with_client
              (Some {| health := Reachable; cache := ∅ |}) Samples.google_down))
           {| health := Reachable; cache := ∅ |} (from_hit Samples.paris mapbox)
           eq_refl eq_refl).
  - rewrite getCachedData_run. cbn [supabase Frames.at_time with_client health cache].
    now rewrite lookup_empty.
  - reflexivity.
Defined.

(** X11. When a geocoding request misses the cache and the selected
    provider returns no result, the mock answer that is returned is not
    written to the cache: the database is left as the cache read left
    it, so the next request asks the provider again. *)
Theorem geocode_mock_answer_not_cached
    (s : Geocoding.Service) (locationName : string) (w : World) :
  fst (getCachedData (Geocoding.cacheKey locationName) w) = Return None ->
  provider_result s w = None ->
  supabase (snd (geocode s locationName w))
  = supabase (snd (getCachedData (Geocoding.cacheKey locationName) w))
  /\ fst (getCachedData (Geocoding.cacheKey locationName) (snd (geocode s locationName w)))
     = Return None.
Proof.
  intros Hmiss Hres.
  destruct (getCachedData_frame (Geocoding.cacheKey locationName) w) as [v [c Hget]].
  rewrite Hget in Hmiss |- *. simpl in Hmiss. injection Hmiss as ->. cbn [snd].
  destruct (provider_client_run s locationName (with_client c w)) as [w2 [evs [_ [_ Hrun]]]].
  change (provider_result s (with_client c w)) with (provider_result s w) in Hrun.
  rewrite Hres in Hrun. destruct Hrun as [m Hrun].
  pose proof (keeps_store_provider_client s locationName (with_client c w)) as Hkeep.
  rewrite Hrun in Hkeep. cbn [snd] in Hkeep.
  pose proof (keeps_store_geocodeMock locationName w2) as Hmock.
  destruct (_geocodeMock locationName w2) as [[r|e] w3] eqn:Em;
    [| destruct (geocodeMock_run locationName w2) as [r [w' [Hr _]]]; congruence].
  cbn [snd] in Hmock.
  assert (Hg : geocode s locationName w = (Return (VGeocode r), w3)).
  { rewrite geocode_body. unfold try_catch, bind. rewrite Hget, Hrun.
    cbn [message ret]. now rewrite Em. }
  rewrite Hg. cbn [snd]. split; [congruence |].
  (* the key is still absent, or the database still down *)
  assert (Hsame : supabase w3 = c) by (rewrite Hmock, Hkeep; reflexivity).
  pose proof Hget as Hget'. rewrite getCachedData_run in Hget'.
  rewrite getCachedData_run, Hsame.
  destruct (supabase w) as [client|] eqn:Hs.
  - destruct (health client) eqn:Hh.
    + destruct (cache client !! Geocoding.cacheKey locationName) as [row|] eqn:Hrow.
      * destruct (expires_at row <? clock w); [| discriminate].
        injection Hget' as <-.
        cbn [health cache]. now rewrite lookup_delete_eq.
      * injection Hget' as Hc.
        assert (c = Some client) as ->.
        { apply (f_equal supabase) in Hc. simpl in Hc. congruence. }
        now rewrite Hh, Hrow.
    + injection Hget' as Hc.
      assert (c = Some client) as ->.
      { apply (f_equal supabase) in Hc. simpl in Hc. congruence. }
      now rewrite Hh.
    + injection Hget' as Hc.
      assert (c = Some client) as ->.
      { apply (f_equal supabase) in Hc. simpl in Hc. congruence. }
      now rewrite Hh.
  - injection Hget' as Hc.
    assert (c = None) as ->.
    { apply (f_equal supabase) in Hc. simpl in Hc. congruence. }
    reflexivity.
Qed.

Lemma geocode_mock_answer_not_cached_witness :
  supabase (snd (geocode SGoogle "Paris"
                   (with_client (Some {| health := Reachable; cache := ∅ |})
                      Samples.google_down)))
  = supabase (snd (getCachedData (Geocoding.cacheKey "Paris")
                     (with_client (Some {| health := Reachable; cache := ∅ |})
                        Samples.google_down))).
Proof.
  apply (geocode_mock_answer_not_cached SGoogle "Paris"
           (with_client (Some {| health := Reachable; cache := ∅ |}) Samples.google_down)).
  - rewrite getCachedData_run. cbn [supabase with_client health cache].
    now rewrite lookup_empty.
  - reflexivity.
Defined.

(** X12. A cache hit is answered from the cache alone: the geocoding,
    social-media and official-updates fetches return the cached value as
    it is and leave the world untouched (no request, no write, no clock
    change), whichever service is configured. *)
Theorem cache_hit_short_circuits (w : World) (v : JsonValue) :
  (forall s locationName,
      fst (getCachedData (Geocoding.cacheKey locationName) w) = Return (Some v) ->
      geocode s locationName w = (Return v, w))
  /\ (forall s disasterId keywords,
        fst (getCachedData (SocialMedia.cacheKey disasterId keywords) w)
        = Return (Some v) ->
        SocialMedia.fetchReports s disasterId keywords w = (Return v, w))
  /\ (forall disasterId keywords,
        fst (getCachedData (OfficialUpdates.cacheKey disasterId keywords) w)
        = Return (Some v) ->
        OfficialUpdates.fetchUpdates disasterId keywords w = (Return v, w)).
Proof.
  split; [| split].
  - intros s locationName Hhit. apply getCachedData_hit in Hhit.
    rewrite geocode_body. unfold try_catch, bind. now rewrite Hhit.
  - intros s disasterId keywords Hhit. apply getCachedData_hit in Hhit.
    unfold SocialMedia.fetchReports, try_catch, bind. now rewrite Hhit.
  - intros disasterId keywords Hhit. apply getCachedData_hit in Hhit.
    unfold OfficialUpdates.fetchUpdates, try_catch, bind. now rewrite Hhit.
Qed.

Lemma cache_hit_short_circuits_witness :
  geocode SNominatim "manhattan"
    (Frames.at_time 999 Samples.stale_world)
  = (Return (VGeocode Samples.manhattan), Frames.at_time 999 Samples.stale_world).
Proof.
  apply (proj1 (cache_hit_short_circuits (Frames.at_time 999 Samples.stale_world)
                  (VGeocode Samples.manhattan)) SNominatim "manhattan").
  rewrite getCachedData_run. cbn [supabase Frames.at_time Samples.stale_world health cache].
  change (Geocoding.cacheKey "manhattan") with "geocode_bWFuaGF0dGFu".
  now rewrite lookup_singleton_eq.
Defined.

(** ** Reverse geocoding *)

Lemma isValidCoordinates_iff (lat lng : Q) :
  MoreHelpers.isValidCoordinates lat lng = true
  <-> (-90 <= lat)%Q /\ (lat <= 90)%Q /\ (-180 <= lng)%Q /\ (lng <= 180)%Q.
Proof.
  unfold MoreHelpers.isValidCoordinates.
  rewrite !andb_true_iff, !Qle_bool_iff. tauto.
Qed.

Lemma safe_reverseGeocodeWithGoogle (lat lng : Q) :
  safe (ReverseGeocoding._reverseGeocodeWithGoogle lat lng).
Proof.
  unfold ReverseGeocoding._reverseGeocodeWithGoogle. apply safe_logged.
  apply safe_bind; [apply safe_retry_axios |].
  intros [status [|h hits] | | |];
    try destruct (String.eqb status "OK");
    first [apply safe_ret | apply safe_throw].
Qed.

Lemma total_reverseGeocode_valid
    (show_number : Q -> string) (s : Geocoding.Service) (lat lng : Q) :
  MoreHelpers.isValidCoordinates lat lng = true ->
  total (ReverseGeocoding.reverseGeocode show_number s lat lng).
Proof.
  intros Hvalid. unfold ReverseGeocoding.reverseGeocode. rewrite Hvalid. cbn [negb].
  apply total_try_catch.
  - apply safe_bind; [apply total_safe, total_getCachedData |].
    intros [hit|]; [apply safe_ret |].
    apply safe_bind.
    + destruct s; [apply safe_reverseGeocodeWithGoogle | |];
        unfold ReverseGeocoding.not_a_function; apply safe_throw.
    + intros r. apply safe_bind; [apply total_safe, total_setCachedData |].
      intros _. apply safe_ret.
  - intros msg. apply total_bind; [apply total_ret |]. intros _.
    apply total_bind; [apply total_ret | intros r; apply total_ret].
Qed.

(** X13. Reverse geocoding throws exactly when the latitude lies outside
    -90..90 or the longitude outside -180..180, and then it throws
    "Invalid coordinates provided" before anything else happens: the
    cache is not read and no request is sent. *)
Theorem reverseGeocode_throws_iff_invalid
    (show_number : Q -> string) (s : Geocoding.Service) (lat lng : Q) (w : World) :
  let invalid := (lat < -90 \/ 90 < lat \/ lng < -180 \/ 180 < lng)%Q in
  (raises (fst (ReverseGeocoding.reverseGeocode show_number s lat lng w)) <-> invalid)
  /\ (invalid ->
      ReverseGeocoding.reverseGeocode show_number s lat lng w
      = (Throw (Error "Invalid coordinates provided"), w)).
Proof.
  intros invalid.
  assert (Hinv : invalid ->
            ReverseGeocoding.reverseGeocode show_number s lat lng w
            = (Throw (Error "Invalid coordinates provided"), w)).
  { intros H. unfold ReverseGeocoding.reverseGeocode.
    destruct (MoreHelpers.isValidCoordinates lat lng) eqn:E; [| reflexivity].
    apply isValidCoordinates_iff in E. exfalso. subst invalid. lra. }
  split; [| exact Hinv]. split.
  - intros [e He].
    destruct (MoreHelpers.isValidCoordinates lat lng) eqn:E.
    + destruct (total_reverseGeocode_valid show_number s lat lng E w) as [a [w' Ha]].
      rewrite Ha in He. discriminate.
    + subst invalid.
      destruct (Qlt_le_dec lat (-90)) as [H1 | H1]; [tauto |].
      destruct (Qlt_le_dec 90 lat) as [H2 | H2]; [tauto |].
      destruct (Qlt_le_dec lng (-180)) as [H3 | H3]; [tauto |].
      destruct (Qlt_le_dec 180 lng) as [H4 | H4]; [tauto |].
      exfalso. assert (MoreHelpers.isValidCoordinates lat lng = true)
        by (apply isValidCoordinates_iff; tauto). congruence.
  - intros H. rewrite (Hinv H). now eexists.
Qed.

Lemma reverseGeocode_throws_iff_invalid_witness :
  ReverseGeocoding.reverseGeocode (fun _ => "") SGoogle 91 0 Samples.offline_world
  = (Throw (Error "Invalid coordinates provided"), Samples.offline_world).
Proof.
  apply (proj2 (reverseGeocode_throws_iff_invalid (fun _ => "") SGoogle 91 0
                  Samples.offline_world)).
  right. left. reflexivity.
Defined.

(** X14. With Mapbox or Nominatim selected, the reverse geocoding client
    the service calls does not exist, so a request with valid coordinates
    that misses the cache always ends in the mock answer (the two
    coordinates printed with four decimals): no request is sent and
    nothing is written to the cache. *)
Theorem reverseGeocode_without_google_is_mock
    (show_number : Q -> string) (s : Geocoding.Service) (lat lng : Q) (w : World) :
  s <> SGoogle ->
  MoreHelpers.isValidCoordinates lat lng = true ->
  fst (getCachedData (ReverseGeocoding.cacheKey show_number lat lng) w) = Return None ->
  ReverseGeocoding.reverseGeocode show_number s lat lng w
  = (Return (VGeocode {| lat := None; lng := None;
                         formattedAddress :=
                           ReverseGeocoding.toFixed4 lat ++ ", "
                             ++ ReverseGeocoding.toFixed4 lng;
                         source := mock |}),
     snd (getCachedData (ReverseGeocoding.cacheKey show_number lat lng) w)).
Proof.
  intros Hs Hvalid Hmiss.
  destruct (getCachedData_frame (ReverseGeocoding.cacheKey show_number lat lng) w)
    as [v [c Hget]].
  rewrite Hget in Hmiss |- *. simpl in Hmiss. injection Hmiss as ->.
  unfold ReverseGeocoding.reverseGeocode. rewrite Hvalid. cbn [negb].
  unfold try_catch, bind. rewrite Hget.
  destruct s; [congruence | reflexivity | reflexivity].
Qed.

Lemma reverseGeocode_without_google_is_mock_witness :
  fst (ReverseGeocoding.reverseGeocode (fun _ => "") SNominatim
         40.7831 (-73.9712) Samples.google_down)
  = Return (VGeocode {| lat := None; lng := None;
                        formattedAddress := "40.7831, -73.9712"; source := mock |}).
Proof.
  rewrite (reverseGeocode_without_google_is_mock (fun _ => "") SNominatim
             40.7831 (-73.9712) Samples.google_down
             ltac:(discriminate) eq_refl eq_refl).
  reflexivity.
Defined.

(** X15. The geocoding mock answers a name that matches one of its six
    canned places, in any letter case, with that place's coordinates and
    draws no random number; for any other name (bar the two inherited
    property names) it draws two, and the coordinates lie within 0.05
    degrees of (40.7128, -74.0060). *)
Theorem geocode_mock_coordinates (locationName : string) (w : World) :
  (forall la ln,
      own_property (toLowerCase locationName) mockLocations = Some (la, ln) ->
      _geocodeMock locationName w
      = (Return {| lat := Some la; lng := Some ln;
                   formattedAddress := locationName; source := mock |}, w))
  /\ (own_property (toLowerCase locationName) mockLocations = None ->
      inherited_property (toLowerCase locationName) = false ->
      (0 <= random w (draws w))%Q /\ (random w (draws w) < 1)%Q ->
      (0 <= random w (S (draws w)))%Q /\ (random w (S (draws w)) < 1)%Q ->
      exists la ln w',
        _geocodeMock locationName w
        = (Return {| lat := Some la; lng := Some ln;
                     formattedAddress := locationName; source := mock |}, w')
        /\ draws w' = S (S (draws w))
        /\ (40.6628 <= la)%Q /\ (la < 40.7628)%Q
        /\ (-74.056 <= ln)%Q /\ (ln < -73.956)%Q).
Proof.
  split.
  - intros la ln Hown. unfold _geocodeMock, bind, ret. now rewrite Hown.
  - intros Hown Hinh [H1l H1u] [H2l H2u].
    unfold _geocodeMock, bind, ret, math_random. rewrite Hown, Hinh.
    cbn [fst snd random draws].
    eexists. eexists. eexists. split; [reflexivity |].
    cbn [draws]. split; [reflexivity |].
    repeat split; lra.
Qed.

Lemma geocode_mock_coordinates_witness :
  _geocodeMock "MIAMI, fl" Samples.offline_world
  = (Return {| lat := Some 25.7617%Q; lng := Some (-80.1918)%Q;
               formattedAddress := "MIAMI, fl"; source := mock |},
     Samples.offline_world).
Proof.
  apply (proj1 (geocode_mock_coordinates "MIAMI, fl" Samples.offline_world)).
  reflexivity.
Defined.

(** ** Social media, continued *)

Section MoreSocialFacts.

Lemma sentiment_words_lower :
  Forall lower_case negativeWords /\ Forall lower_case positiveWords.
Proof. split; repeat constructor. Qed.

Lemma fold_tally (content : string) (words : list string) :
  Forall lower_case words ->
  fold_left (tally (toLowerCase content)) words 0 = Frames.hits content words.
Proof.
  intros Hlow. unfold Frames.hits.
  change (fold_left (tally (toLowerCase content)) words 0)
    with (fold_left (bump (toLowerCase content) 1) words 0).
  now rewrite (fold_bump content 1 words 0 Hlow).
Qed.

Lemma includes_shorter (text pre kw post : string) :
  includes text (pre ++ kw ++ post) = true -> includes text kw = true.
Proof.
  rewrite !includes_spec. intros [a [b ->]].
  exists (a ++ pre), (post ++ b). now rewrite !append_assoc.
Qed.

Lemma first_match_named (text : string) (entries : list (string * list string)) :
  In (first_match text entries) (map fst entries ++ ["general"]).
Proof.
  induction entries as [|[c kws] rest IH]; simpl; [now left |].
  destruct (existsb _ kws); [now left | now right].
Qed.

Lemma priority_in_range (content : string) : 1 <= _calculatePriorityScore content <= 10.
Proof.
  destruct priority_keywords_lower as [Hu [Hm Hl]].
  unfold _calculatePriorityScore.
  rewrite (fold_bump content 3 _ _ Hu), (fold_bump content 2 _ _ Hm),
    (fold_bump content 1 _ _ Hl).
  pose proof (tier_nonneg content 3 urgentKeywords ltac:(lia)).
  pose proof (tier_nonneg content 2 moderateKeywords ltac:(lia)).
  pose proof (tier_nonneg content 1 lowKeywords ltac:(lia)).
  lia.
Qed.

Lemma sentiment_named (content : string) :
  In (_analyzeSentiment content) ["negative"; "positive"; "neutral"].
Proof.
  unfold _analyzeSentiment.
  repeat match goal with
         | |- context [if ?b then _ else _] => destruct b
         end; simpl; tauto.
Qed.



End MoreSocialFacts.

(** X16. The sentiment of a post is decided by majority between the
    negative and the positive words that occur in it: negative when more
    negative words occur, positive when more positive ones do, and
    neutral exactly on a tie (so also when none occurs). *)
Theorem sentiment_by_majority (content : string) :
  let n := Frames.hits content negativeWords in
  let p := Frames.hits content positiveWords in
  (_analyzeSentiment content = "negative" <-> p < n)
  /\ (_analyzeSentiment content = "positive" <-> n < p)
  /\ (_analyzeSentiment content = "neutral" <-> n = p).
Proof.
  intros n p. destruct sentiment_words_lower as [Hneg Hpos].
  unfold _analyzeSentiment.
  rewrite (fold_tally content _ Hneg), (fold_tally content _ Hpos).
  fold n. fold p.
  destruct (p <? n) eqn:E1; [apply Z.ltb_lt in E1 | apply Z.ltb_ge in E1].
  - repeat split; intros; try discriminate; try lia; reflexivity.
  - destruct (n <? p) eqn:E2; [apply Z.ltb_lt in E2 | apply Z.ltb_ge in E2];
      repeat split; intros; try discriminate; try lia; reflexivity.
Qed.

(** X17. Two keywords of the category table can never decide the
    category: a text that contains "helping" contains "help" and is
    therefore filed under rescue or an earlier group, never under
    volunteer; a text that contains "water system" contains "water" and is
    filed under food_water or an earlier group, never under
    infrastructure. *)
Theorem shadowed_category_keywords (text : string) :
  (occurs_ci "helping" text ->
     In (_categorizeReport text) ["medical"; "shelter"; "food_water"; "rescue"])
  /\ (occurs_ci "water system" text ->
        In (_categorizeReport text) ["medical"; "shelter"; "food_water"]).
Proof.
  split; intros Hocc; apply present_iff_occurs in Hocc; unfold present in Hocc;
    cbn [toLowerCase] in Hocc.
  - assert (Hhelp : includes (toLowerCase text) "help" = true)
      by (apply (includes_shorter _ "" "help" "ing"); exact Hocc).
    unfold _categorizeReport, categories. cbn [first_match].
    repeat (match goal with
            | |- context [if existsb ?f ?l then _ else _] =>
                destruct (existsb f l) eqn:?; [simpl; tauto |]
            end).
    exfalso.
    match goal with
    | H : existsb _ ["trapped"; "rescue"; "stuck"; "help"; "sos"] = false |- _ =>
        cbn [existsb] in H; rewrite Hhelp in H;
        rewrite ?orb_true_r, ?orb_true_l in H; discriminate
    end.
  - assert (Hwater : includes (toLowerCase text) "water" = true)
      by (apply (includes_shorter _ "" "water" " system"); exact Hocc).
    unfold _categorizeReport, categories. cbn [first_match].
    repeat (match goal with
            | |- context [if existsb ?f ?l then _ else _] =>
                destruct (existsb f l) eqn:?; [simpl; tauto |]
            end).
    exfalso.
    match goal with
    | H : existsb _ ["food"; "water"; "hungry"; "thirsty"; "supplies"] = false |- _ =>
        cbn [existsb] in H; rewrite Hwater in H;
        rewrite ?orb_true_r, ?orb_true_l in H; discriminate
    end.
Qed.

Lemma shadowed_category_keywords_witness :
  In (_categorizeReport "Neighbours are HELPING each other")
     ["medical"; "shelter"; "food_water"; "rescue"].
Proof.
  apply (proj1 (shadowed_category_keywords "Neighbours are HELPING each other")).
  exists "Neighbours are ", "HELPING", " each other". split; reflexivity.
Defined.

(** X18. Processing reports keeps their number, their order and their
    own fields, and gives every report a priority between 1 and 10, one
    of the three sentiments and one of the eight categories, each computed
    from that report's content, together with the disaster identifier. *)
Theorem processReports_invariants
    (reports : list Report) (disasterId : string) (today : Z) :
  let out := SocialMedia._processReports reports disasterId today in
  length out = length reports
  /\ map id out = map id reports
  /\ map content out = map content reports
  /\ Forall (fun rep =>
               exists e,
                 enrichment rep = Some e
                 /\ e_disasterId e = disasterId
                 /\ priorityScore e = _calculatePriorityScore (content rep)
                 /\ 1 <= priorityScore e <= 10
                 /\ sentiment e = _analyzeSentiment (content rep)
                 /\ In (sentiment e) ["negative"; "positive"; "neutral"]
                 /\ category e = _categorizeReport (content rep)
                 /\ In (category e) Frames.category_names)
            out.
Proof.
  unfold SocialMedia._processReports. cbv zeta.
  rewrite length_map, !map_map. cbn [id content].
  split; [reflexivity |]. split; [reflexivity |]. split; [reflexivity |].
  apply List.Forall_forall. intros rep Hin. apply in_map_iff in Hin as [raw [<- _]].
  eexists. split; [reflexivity |]. cbn [e_disasterId priorityScore sentiment category content].
  repeat split; try reflexivity; try apply priority_in_range.
  - apply sentiment_named.
  - apply first_match_named.
Qed.



(** ** Official updates, continued *)

Section MoreUpdatesFacts.

Import Frames.

Lemma requests_to_app (ep : Endpoint) (t evs : list Event) :
  requests_to ep (t ++ evs) = (requests_to ep t + requests_to ep evs)%nat.
Proof. unfold requests_to. now rewrite List.filter_app, length_app. Qed.

Lemma keeps_requests_ret {A} (ep : Endpoint) (a : A) : keeps_requests ep (ret a).
Proof. intros w. simpl. lia. Qed.

Lemma keeps_requests_throw {A} (ep : Endpoint) (e : JsError) :
  keeps_requests ep (@throw A e).
Proof. intros w. simpl. lia. Qed.

Lemma keeps_requests_bind {A B} (ep : Endpoint) (m : M A) (k : A -> M B) :
  keeps_requests ep m -> (forall a, keeps_requests ep (k a)) ->
  keeps_requests ep (bind m k).
Proof.
  intros Hm Hk w. unfold bind. specialize (Hm w).
  destruct (m w) as [[a|e] w1]; simpl in Hm |- *; [| exact Hm].
  specialize (Hk a w1). lia.
Qed.

Lemma keeps_requests_try_catch {A} (ep : Endpoint) (m : M A) (handler : JsError -> M A) :
  keeps_requests ep m -> (forall e, keeps_requests ep (handler e)) ->
  keeps_requests ep (try_catch m handler).
Proof.
  intros Hm Hh w. unfold try_catch. specialize (Hm w).
  destruct (m w) as [[a|e] w1]; simpl in Hm |- *; [exact Hm |].
  specialize (Hh e w1). lia.
Qed.

Lemma keeps_requests_now (ep : Endpoint) : keeps_requests ep now.
Proof. intros w. simpl. lia. Qed.

Lemma keeps_requests_delay (ep : Endpoint) (ms : Z) : keeps_requests ep (delay ms).
Proof. intros w. simpl. rewrite requests_to_app. lia. Qed.

Lemma keeps_requests_axios_get (ep ep' : Endpoint) : keeps_requests ep (axios_get ep').
Proof. intros w. simpl. rewrite requests_to_app. lia. Qed.

Lemma keeps_requests_message (ep : Endpoint) (e : JsError) : keeps_requests ep (message e).
Proof. destruct e; [apply keeps_requests_throw | apply keeps_requests_ret]. Qed.

Lemma keeps_requests_retry_loop {A} (ep : Endpoint) (fn : M A) (maxRetries baseDelay : Z) :
  keeps_requests ep fn ->
  forall remaining i lastError,
    keeps_requests ep (retry_loop fn maxRetries baseDelay remaining i lastError).
Proof.
  intros Hfn. induction remaining as [|r IH]; intros i lastError; cbn [retry_loop].
  - apply keeps_requests_throw.
  - apply keeps_requests_try_catch; [exact Hfn |]. intros e.
    destruct (i =? maxRetries - 1); [apply keeps_requests_throw |].
    apply keeps_requests_bind; [apply keeps_requests_message |]. intros _.
    apply keeps_requests_bind; [apply keeps_requests_delay |]. intros _. apply IH.
Qed.

Lemma asks_axios_get (ep : Endpoint) : asks ep (axios_get ep).
Proof. intros w. simpl. rewrite requests_to_request. lia. Qed.

Lemma asks_bind {A B} (ep : Endpoint) (m : M A) (k : A -> M B) :
  asks ep m -> (forall a, keeps_requests ep (k a)) -> asks ep (bind m k).
Proof.
  intros Hm Hk w. unfold bind. specialize (Hm w).
  destruct (m w) as [[a|e] w1]; simpl in Hm |- *; [| exact Hm].
  specialize (Hk a w1). lia.
Qed.

Lemma asks_later {A B} (ep : Endpoint) (m : M A) (k : A -> M B) :
  total m -> keeps_requests ep m -> (forall a, asks ep (k a)) -> asks ep (bind m k).
Proof.
  intros Ht Hm Hk w. unfold bind. specialize (Hm w).
  destruct (Ht w) as [a [w1 Hrun]]. rewrite Hrun in Hm |- *. simpl in Hm.
  specialize (Hk a w1). lia.
Qed.

Lemma asks_try_catch {A} (ep : Endpoint) (m : M A) (handler : JsError -> M A) :
  asks ep m -> (forall e, keeps_requests ep (handler e)) -> asks ep (try_catch m handler).
Proof.
  intros Hm Hh w. unfold try_catch. specialize (Hm w).
  destruct (m w) as [[a|e] w1]; simpl in Hm |- *; [exact Hm |].
  specialize (Hh e w1). lia.
Qed.

Lemma asks_retry_loop (ep : Endpoint) (maxRetries baseDelay : Z) (r : nat) (i : Z)
    (lastError : JsError) :
  asks ep (retry_loop (axios_get ep) maxRetries baseDelay (S r) i lastError).
Proof.
  cbn [retry_loop].
  apply asks_try_catch; [apply asks_axios_get |]. intros e.
  destruct (i =? maxRetries - 1); [apply keeps_requests_throw |].
  apply keeps_requests_bind; [apply keeps_requests_message |]. intros _.
  apply keeps_requests_bind; [apply keeps_requests_delay |]. intros _.
  apply keeps_requests_retry_loop, keeps_requests_axios_get.
Qed.

Lemma asks_retry_axios (ep : Endpoint) : asks ep (retryWithBackoff (axios_get ep) 3 1000).
Proof. apply (asks_retry_loop ep 3 1000 2 0 Undefined). Qed.

Lemma asks_fetchFromSource (source : OfficialUpdates.Source) (keywords : list string) :
  asks (EPage (OfficialUpdates.src_url source))
       (OfficialUpdates._fetchFromSource source keywords).
Proof.
  unfold OfficialUpdates._fetchFromSource, logged.
  apply asks_try_catch.
  - apply asks_bind; [apply asks_retry_axios |]. intros body.
    apply keeps_requests_bind; [apply keeps_requests_now |]. intros today.
    destruct body; apply keeps_requests_ret.
  - intros e. apply keeps_requests_bind; [apply keeps_requests_message |].
    intros _. apply keeps_requests_throw.
Qed.

Lemma keeps_requests_fetchFromSource (ep : Endpoint) (source : OfficialUpdates.Source)
    (keywords : list string) :
  keeps_requests ep (OfficialUpdates._fetchFromSource source keywords).
Proof.
  unfold OfficialUpdates._fetchFromSource, logged.
  apply keeps_requests_try_catch.
  - apply keeps_requests_bind;
      [apply keeps_requests_retry_loop, keeps_requests_axios_get |].
    intros body. apply keeps_requests_bind; [apply keeps_requests_now |]. intros today.
    destruct body; apply keeps_requests_ret.
  - intros e. apply keeps_requests_bind; [apply keeps_requests_message |].
    intros _. apply keeps_requests_throw.
Qed.

Lemma keeps_store_fetchFromSource (source : OfficialUpdates.Source) (keywords : list string) :
  keeps_store (OfficialUpdates._fetchFromSource source keywords).
Proof.
  unfold OfficialUpdates._fetchFromSource.
  apply keeps_store_logged, keeps_store_bind; [apply keeps_store_retry_axios |].
  intros body. apply keeps_store_bind; [apply keeps_store_now |]. intros today.
  destruct body; apply keeps_store_ret.
Qed.

Lemma total_one_source (source : OfficialUpdates.Source) (keywords : list string)
    (allUpdates : list Update) :
  total (one_source source keywords allUpdates).
Proof.
  apply total_try_catch.
  - apply safe_bind; [apply safe_fetchFromSource |]. intros updates. apply safe_ret.
  - intros msg. apply total_bind; [apply total_ret | intros _; apply total_ret].
Qed.

Lemma keeps_requests_one_source (ep : Endpoint) (source : OfficialUpdates.Source)
    (keywords : list string) (allUpdates : list Update) :
  keeps_requests ep (one_source source keywords allUpdates).
Proof.
  apply keeps_requests_try_catch.
  - apply keeps_requests_bind; [apply keeps_requests_fetchFromSource |].
    intros updates. apply keeps_requests_ret.
  - intros e. apply keeps_requests_bind; [apply keeps_requests_message |].
    intros _. apply keeps_requests_ret.
Qed.

Lemma asks_one_source (source : OfficialUpdates.Source) (keywords : list string)
    (allUpdates : list Update) :
  asks (EPage (OfficialUpdates.src_url source)) (one_source source keywords allUpdates).
Proof.
  apply asks_try_catch.
  - apply asks_bind; [apply asks_fetchFromSource |].
    intros updates. apply keeps_requests_ret.
  - intros e. apply keeps_requests_bind; [apply keeps_requests_message |].
    intros _. apply keeps_requests_ret.
Qed.

Lemma keeps_requests_fetch_all (ep : Endpoint) (remaining : list OfficialUpdates.Source)
    (keywords : list string) :
  forall allUpdates,
    keeps_requests ep (OfficialUpdates.fetch_all remaining keywords allUpdates).
Proof.
  induction remaining as [|source rest IH]; intros allUpdates;
    cbn [OfficialUpdates.fetch_all].
  - apply keeps_requests_ret.
  - apply keeps_requests_bind; [apply (keeps_requests_one_source ep) | exact IH].
Qed.

Lemma asks_fetch_all (remaining : list OfficialUpdates.Source) (keywords : list string)
    (source : OfficialUpdates.Source) :
  In source remaining ->
  forall allUpdates,
    asks (EPage (OfficialUpdates.src_url source))
         (OfficialUpdates.fetch_all remaining keywords allUpdates).
Proof.
  induction remaining as [|head rest IH]; intros Hin allUpdates; [destruct Hin |].
  cbn [OfficialUpdates.fetch_all].
  destruct Hin as [-> | Hin].
  - apply asks_bind; [apply asks_one_source |].
    intros acc. apply keeps_requests_fetch_all.
  - apply asks_later;
      [apply total_one_source | apply (keeps_requests_one_source _ head) |].
    intros acc. now apply IH.
Qed.

Lemma keeps_store_fetch_all (remaining : list OfficialUpdates.Source)
    (keywords : list string) :
  forall allUpdates, keeps_store (OfficialUpdates.fetch_all remaining keywords allUpdates).
Proof.
  induction remaining as [|source rest IH]; intros allUpdates;
    cbn [OfficialUpdates.fetch_all].
  - apply keeps_store_ret.
  - apply keeps_store_bind; [| exact IH].
    apply keeps_store_try_catch.
    + apply keeps_store_bind; [apply keeps_store_fetchFromSource |].
      intros updates. apply keeps_store_ret.
    + intros e. apply keeps_store_bind; [apply keeps_store_message |].
      intros _. apply keeps_store_ret.
Qed.

(** A key that missed keeps missing as long as the database is left as
    the read left it, whatever the time. *)
Lemma miss_stays_miss (key : string) (w w' : World) :
  fst (getCachedData key w) = Return None ->
  supabase w' = supabase (snd (getCachedData key w)) ->
  fst (getCachedData key w') = Return None.
Proof.
  rewrite (getCachedData_run key w), (getCachedData_run key w').
  intros Hmiss Hsame. rewrite Hsame. clear Hsame.
  destruct (supabase w) as [client|] eqn:Hs; [| cbn [snd]; now rewrite Hs].
  destruct (health client) eqn:Hh; cbn [snd]; try (rewrite Hs, Hh; reflexivity).
  destruct (cache client !! key) as [row|] eqn:Hrow.
  - destruct (expires_at row <? clock w); [| discriminate].
    cbn [snd supabase with_client health cache]. now rewrite lookup_delete_eq.
  - cbn [snd]. now rewrite Hs, Hh, Hrow.
Qed.

End MoreUpdatesFacts.

(** X20. A request for official updates that misses the cache sends at
    least one request to each of the three sites and then discards what
    they returned: the answer is the mock's alone, nothing is written to
    the cache, and the same request made afterwards misses again. *)
Theorem official_updates_scraped_then_discarded
    (disasterId : string) (keywords : list string) (w : World) :
  fst (getCachedData (OfficialUpdates.cacheKey disasterId keywords) w) = Return None ->
  let w' := snd (OfficialUpdates.fetchUpdates disasterId keywords w) in
  (exists r,
      fst (OfficialUpdates.fetchUpdates disasterId keywords w) = Return (VUpdates r)
      /\ OfficialUpdates._fetchMockUpdates keywords (Some disasterId) w' = (Return r, w'))
  /\ (forall source, In source OfficialUpdates.sources ->
        (requests_to (EPage (OfficialUpdates.src_url source)) (trace w)
         < requests_to (EPage (OfficialUpdates.src_url source)) (trace w'))%nat)
  /\ supabase w'
     = supabase (snd (getCachedData (OfficialUpdates.cacheKey disasterId keywords) w))
  /\ fst (getCachedData (OfficialUpdates.cacheKey disasterId keywords) w') = Return None.
Proof.
  intros Hmiss w'.
  destruct (getCachedData_frame (OfficialUpdates.cacheKey disasterId keywords) w)
    as [v [c Hget]].
  pose proof Hmiss as Hmiss0.
  rewrite Hget in Hmiss. simpl in Hmiss. injection Hmiss as ->.
  destruct (total_fetch_all OfficialUpdates.sources keywords [] (with_client c w))
    as [l [w1 Hall]].
  destruct (fetchMockUpdates_run keywords None w1) as [r0 Hr0].
  destruct (fetchMockUpdates_run keywords (Some disasterId) w1) as [r Hr].
  assert (Hrun : OfficialUpdates.fetchUpdates disasterId keywords w
                 = (Return (VUpdates r), w1)).
  { unfold OfficialUpdates.fetchUpdates, try_catch, bind.
    rewrite Hget, Hall, Hr0.
    unfold OfficialUpdates.push_spread, throw. cbv beta iota.
    cbn [message ret]. rewrite Hr. reflexivity. }
  assert (Hstore : supabase w1 = c).
  { pose proof (keeps_store_fetch_all OfficialUpdates.sources keywords []
                  (with_client c w)) as Hk.
    rewrite Hall in Hk. exact Hk. }
  subst w'. rewrite Hrun. cbn [fst snd].
  split; [exists r; split; [reflexivity | exact Hr] |].
  split; [| split].
  - intros source Hin.
    pose proof (asks_fetch_all OfficialUpdates.sources keywords source Hin []
                  (with_client c w)) as Hask.
    rewrite Hall in Hask. exact Hask.
  - rewrite Hget. cbn [snd]. exact Hstore.
  - apply (miss_stays_miss _ w w1 Hmiss0). rewrite Hget. cbn [snd]. exact Hstore.
Qed.

Lemma official_updates_scraped_then_discarded_witness :
  (requests_to (EPage "https://www.fema.gov/disaster/current")
     (trace (snd (OfficialUpdates.fetchUpdates "d1" ["flood"]
                    (with_client (Some {| health := Reachable; cache := ∅ |})
                       Samples.google_down)))) > 0)%nat
  /\ fst (getCachedData (OfficialUpdates.cacheKey "d1" ["flood"])
            (snd (OfficialUpdates.fetchUpdates "d1" ["flood"]
                    (with_client (Some {| health := Reachable; cache := ∅ |})
                       Samples.google_down))))
     = Return None.
Proof.
  assert (Hmiss : fst (getCachedData (OfficialUpdates.cacheKey "d1" ["flood"])
                         (with_client (Some {| health := Reachable; cache := ∅ |})
                            Samples.google_down)) = Return None).
  { rewrite getCachedData_run. cbn [supabase with_client health cache].
    now rewrite lookup_empty. }
  destruct (official_updates_scraped_then_discarded "d1" ["flood"]
              (with_client (Some {| health := Reachable; cache := ∅ |})
                 Samples.google_down) Hmiss) as [_ [Hask [_ Hagain]]].
  split; [| exact Hagain].
  specialize (Hask _ (or_introl eq_refl)). cbn [OfficialUpdates.src_url] in Hask.
  unfold gt. eapply Nat.le_lt_trans; [| exact Hask]. apply Nat.le_0_l.
Defined.

(** ** Scraping one source *)

From Stdlib Require Import DecimalFacts DecimalNat.

Section ScrapeFacts.

Lemma to_uint_nonnil (n : nat) : Nat.to_uint n <> Decimal.Nil.
Proof.
  rewrite <- (Unsigned.of_to n) at 1. rewrite Unsigned.to_of. apply unorm_nonnil.
Qed.

Lemma show_nat_inj (m n : nat) :
  OfficialUpdates.show_nat m = OfficialUpdates.show_nat n -> m = n.
Proof.
  unfold OfficialUpdates.show_nat. intros H.
  apply (f_equal NilZero.uint_of_string) in H.
  rewrite !NilZero.usu in H by apply to_uint_nonnil.
  injection H as H. now apply Unsigned.to_uint_inj.
Qed.

Lemma append_inj_r (p a b : string) : p ++ a = p ++ b -> a = b.
Proof. induction p as [|c p IH]; simpl; [easy |]. intros H. injection H as H. auto. Qed.

Lemma present_prefix (a b keyword : string) :
  present a keyword = true -> present (a ++ b) keyword = true.
Proof.
  unfold present. rewrite toLowerCase_app, !includes_spec.
  intros [pre [post ->]]. exists pre, (post ++ toLowerCase b).
  now rewrite !append_assoc.
Qed.

Lemma scrape_length (source : OfficialUpdates.Source) (keywords : list string) (today : Z)
    (items : list Scraped) :
  forall index,
    (length (OfficialUpdates.scrape source keywords today index items) <= 10 - index)%nat.
Proof.
  induction items as [|item rest IH]; intros index; cbn [OfficialUpdates.scrape].
  - simpl. lia.
  - destruct (10 <=? index)%nat eqn:E; [simpl; lia |].
    apply Nat.leb_gt in E. specialize (IH (S index)).
    destruct (_ && _); cbn [length]; lia.
Qed.

Lemma scrape_elements (source : OfficialUpdates.Source) (keywords : list string)
    (today : Z) (items : list Scraped) :
  forall index u,
    In u (OfficialUpdates.scrape source keywords today index items) ->
    exists k,
      (index <= k < 10)%nat
      /\ up_id u = toLowerCase (OfficialUpdates.name source) ++ "_"
                   ++ OfficialUpdates.show_nat k
      /\ up_source u = OfficialUpdates.name source
      /\ up_fetchedAt u = today
      /\ (keywords <> [] ->
          exists keyword,
            In keyword keywords
            /\ present (up_title u ++ " " ++ up_content u) keyword = true).
Proof.
  induction items as [|item rest IH]; intros index u; cbn [OfficialUpdates.scrape];
    [intros [] |].
  destruct (10 <=? index)%nat eqn:E; [intros [] |]. apply Nat.leb_gt in E.
  assert (Hrest : In u (OfficialUpdates.scrape source keywords today (S index) rest) ->
                  exists k,
                    (index <= k < 10)%nat
                    /\ up_id u = toLowerCase (OfficialUpdates.name source) ++ "_"
                                 ++ OfficialUpdates.show_nat k
                    /\ up_source u = OfficialUpdates.name source
                    /\ up_fetchedAt u = today
                    /\ (keywords <> [] ->
                        exists keyword,
                          In keyword keywords
                          /\ present (up_title u ++ " " ++ up_content u) keyword = true)).
  { intros Hin. destruct (IH _ _ Hin) as [k [Hk Hu]]. exists k. split; [lia | exact Hu]. }
  destruct (0 <? Z.of_nat (length keywords)) eqn:Hlen; cbn [andb].
  - destruct (existsb _ keywords) eqn:Hhas; cbn [negb]; [| exact Hrest].
    intros [<- | Hin]; [| now apply Hrest].
    exists index. cbn [up_id up_source up_fetchedAt up_title up_content].
    repeat split; try lia. intros _.
    apply existsb_exists in Hhas as [keyword [Hin Hinc]].
    exists keyword. split; [exact Hin |]. unfold present.
    destruct (String.eqb (sc_content item) "") eqn:Hempty; [| exact Hinc].
    apply String.eqb_eq in Hempty. rewrite Hempty in Hinc.
    rewrite <- append_assoc. apply present_prefix. exact Hinc.
  - intros [<- | Hin]; [| now apply Hrest].
    exists index. cbn [up_id up_source up_fetchedAt up_title up_content].
    repeat split; try lia. intros Hne. exfalso.
    destruct keywords; [now apply Hne | discriminate].
Qed.

Lemma scrape_ids_distinct (source : OfficialUpdates.Source) (keywords : list string)
    (today : Z) (items : list Scraped) :
  forall index,
    List.NoDup (map up_id (OfficialUpdates.scrape source keywords today index items)).
Proof.
  induction items as [|item rest IH]; intros index; cbn [OfficialUpdates.scrape];
    [constructor |].
  destruct (10 <=? index)%nat; [constructor |].
  destruct (_ && _); [apply IH |].
  cbn [map up_id]. constructor; [| apply IH].
  intros Hin. apply in_map_iff in Hin as [u [Hid Hin]].
  destruct (scrape_elements _ _ _ _ _ _ Hin) as [k [Hk [Hid' _]]].
  rewrite Hid' in Hid. apply append_inj_r in Hid.
  change ("_" ++ OfficialUpdates.show_nat k = "_" ++ OfficialUpdates.show_nat index) in Hid.
  apply append_inj_r, show_nat_inj in Hid. lia.
Qed.

End ScrapeFacts.

(** X21. Whatever page a source returns, the updates taken from it are
    at most ten, carry pairwise distinct identifiers and the name of that
    source, and, when keywords are given, each mentions one of them in
    its title followed by its content, case-insensitively. *)
Theorem scraped_updates_bounded_and_tagged
    (source : OfficialUpdates.Source) (keywords : list string) (w : World)
    (updates : list Update) :
  fst (OfficialUpdates._fetchFromSource source keywords w) = Return updates ->
  (length updates <= 10)%nat
  /\ List.NoDup (map up_id updates)
  /\ Forall (fun u => up_source u = OfficialUpdates.name source) updates
  /\ (keywords <> [] ->
      Forall (fun u =>
                exists keyword,
                  In keyword keywords
                  /\ occurs_ci keyword (up_title u ++ " " ++ up_content u))
             updates).
Proof.
  unfold OfficialUpdates._fetchFromSource, logged, try_catch, bind.
  destruct (retryWithBackoff _ 3 1000 w) as [[body|e] w1].
  - unfold now.
    assert (Hnil : (length (@nil Update) <= 10)%nat
                   /\ List.NoDup (map up_id (@nil Update))
                   /\ Forall (fun u => up_source u = OfficialUpdates.name source) []
                   /\ (keywords <> [] ->
                       Forall (fun u =>
                                 exists keyword,
                                   In keyword keywords
                                   /\ occurs_ci keyword (up_title u ++ " " ++ up_content u))
                              []))
      by (repeat split; [simpl; lia | constructor | constructor | constructor]).
    destruct body as [status hits | data users count | posts | items]; cbn [fst ret];
      intros H; injection H as <-; try exact Hnil.
    split; [| split; [| split]].
    + pose proof (scrape_length source keywords (clock w1) items 0). lia.
    + apply scrape_ids_distinct.
    + apply List.Forall_forall. intros u Hin.
      destruct (scrape_elements _ _ _ _ _ _ Hin) as [k [_ [_ [Hsrc _]]]]. exact Hsrc.
    + intros Hne. apply List.Forall_forall. intros u Hin.
      destruct (scrape_elements _ _ _ _ _ _ Hin) as [k [_ [_ [_ [_ Hkw]]]]].
      destruct (Hkw Hne) as [keyword [Hk Hp]].
      exists keyword. split; [exact Hk |]. now apply present_iff_occurs.
  - destruct e; cbn [message throw ret fst]; discriminate.
Qed.

Lemma scraped_updates_bounded_and_tagged_witness :
  exists updates,
    fst (OfficialUpdates._fetchFromSource MoreSamples.fema ["flood"] MoreSamples.page_world)
    = Return updates
    /\ (length updates <= 10)%nat
    /\ Forall (fun u => up_source u = "FEMA") updates.
Proof.
  eexists. split; [reflexivity |].
  destruct (scraped_updates_bounded_and_tagged MoreSamples.fema ["flood"]
              MoreSamples.page_world _ eq_refl) as [Hlen [_ [Hsrc _]]].
  split; [exact Hlen | exact Hsrc].
Defined.

(** ** Mock image verification *)

Section ImageFacts.

Lemma Qfloor_scaled (r : Q) (n : Z) :
  0 < n -> (0 <= r)%Q -> (r < 1)%Q -> 0 <= Qfloor (r * inject_Z n)%Q < n.
Proof.
  intros Hn H0 H1.
  assert (HnQ : (0 < inject_Z n)%Q)
    by (change (inject_Z 0 < inject_Z n)%Q; rewrite <- Zlt_Qlt; exact Hn).
  pose proof (Qfloor_le (r * inject_Z n)) as Hfl.
  pose proof (Qlt_floor (r * inject_Z n)) as Hfu.
  assert (Hlo : (0 <= r * inject_Z n)%Q) by nra.
  assert (Hhi : (r * inject_Z n < inject_Z n)%Q) by nra.
  assert (H2 : (inject_Z 0 < inject_Z (Qfloor (r * inject_Z n) + 1))%Q)
    by (eapply Qle_lt_trans; [exact Hlo | exact Hfu]).
  assert (H3 : (inject_Z (Qfloor (r * inject_Z n)) < inject_Z n)%Q)
    by (eapply Qle_lt_trans; [exact Hfl | exact Hhi]).
  rewrite <- Zlt_Qlt in H2, H3. lia.
Qed.

Lemma geq_inject_Z (c n : Z) : ImageVerification.geq (inject_Z c) (inject_Z n) = (n <=? c).
Proof.
  unfold ImageVerification.geq.
  destruct (n <=? c) eqn:E.
  - apply Qle_bool_iff. rewrite <- Zle_Qle. now apply Z.leb_le.
  - apply not_true_is_false. intros H. apply Qle_bool_iff in H.
    rewrite <- Zle_Qle in H. apply Z.leb_gt in E. lia.
Qed.

End ImageFacts.

(** X22. With [Math.random] in [0, 1), the mock image check returns a
    confidence between 70 and 99 and never 100. Passed through the
    routes' status rule, an image whose URL contains fake, test or mock
    is always rejected; any other image is verified when the confidence
    drawn is at least 80 and pending otherwise, and is never rejected. An
    authentic result names one of the five disaster types, a
    non-authentic one names none. *)
Theorem mock_image_verdict (imageUrl : string) (w : World) :
  (forall k, (0 <= random w k)%Q /\ (random w k < 1)%Q) ->
  exists a w',
    ImageMock._verifyImageMock imageUrl w = (Return a, w')
    /\ 70 <= ImageMock.a_confidence a <= 99
    /\ (let suspicious :=
          includes imageUrl "fake" || includes imageUrl "test" || includes imageUrl "mock" in
        let status := ImageVerification.verificationStatus (ImageMock.as_result a) in
        (status = ImageVerification.rejected <-> suspicious = true)
        /\ (status = ImageVerification.verified
            <-> suspicious = false /\ 80 <= ImageMock.a_confidence a)
        /\ (status = ImageVerification.pending
            <-> suspicious = false /\ ImageMock.a_confidence a < 80))
    /\ (if ImageMock.a_isAuthentic a
        then exists t, ImageMock.a_disasterType a = Some t /\ In t ImageMock.disasterTypes
        else ImageMock.a_disasterType a = None).
Proof.
  intros Hrand.
  unfold ImageMock._verifyImageMock, bind, math_random, ret. cbn [random draws].
  eexists. eexists. split; [reflexivity |].
  cbn [ImageMock.a_confidence ImageMock.a_isAuthentic ImageMock.a_disasterType].
  destruct (Hrand (draws w)) as [Ha Hb]. destruct (Hrand (S (draws w))) as [Hc Hd].
  pose proof (Qfloor_scaled (random w (draws w)) 30 ltac:(lia) Ha Hb) as Hconf.
  pose proof (Qfloor_scaled (random w (S (draws w))) 5 ltac:(lia) Hc Hd) as Htype.
  change (inject_Z 30) with 30%Q in Hconf. change (inject_Z 5) with 5%Q in Htype.
  set (c := Qfloor (random w (draws w) * 30)) in *.
  set (t := Qfloor (random w (S (draws w)) * 5)) in *.
  split; [lia |]. split.
  - unfold ImageVerification.verificationStatus, ImageMock.as_result.
    cbn [ImageVerification.isAuthentic ImageVerification.confidence
         ImageMock.a_isAuthentic ImageMock.a_confidence].
    unfold ImageVerification.lt.
    change 80%Q with (inject_Z 80). change 50%Q with (inject_Z 50).
    change (Qle_bool (inject_Z 50) (inject_Z (c + 70)))
      with (ImageVerification.geq (inject_Z (c + 70)) (inject_Z 50)).
    rewrite !geq_inject_Z.
    replace (50 <=? c + 70) with true by (symmetry; apply Z.leb_le; lia).
    destruct (includes imageUrl "fake"), (includes imageUrl "test"),
      (includes imageUrl "mock"); cbn [negb andb orb];
      try (repeat split; intros; try discriminate; try reflexivity;
           match goal with H : _ /\ _ |- _ => destruct H; discriminate end).
    destruct (80 <=? c + 70) eqn:E; [apply Z.leb_le in E | apply Z.leb_gt in E];
      repeat split; intros; try discriminate; try reflexivity; try lia;
      match goal with H : _ /\ _ |- _ => destruct H; lia end.
  - destruct (negb _ && negb _ && negb _); [| reflexivity].
    assert (Hlt : (Z.to_nat t < length ImageMock.disasterTypes)%nat)
      by (simpl; lia).
    destruct (nth_error ImageMock.disasterTypes (Z.to_nat t)) as [ty|] eqn:Hnth.
    + exists ty. split; [reflexivity |]. eapply nth_error_In; exact Hnth.
    + apply nth_error_None in Hnth. lia.
Qed.

Lemma mock_image_verdict_witness :
  exists a w',
    ImageMock._verifyImageMock "https://img.example/flood.jpg" Samples.offline_world
    = (Return a, w')
    /\ 70 <= ImageMock.a_confidence a <= 99.
Proof.
  destruct (mock_image_verdict "https://img.example/flood.jpg" Samples.offline_world)
    as [a [w' [Hrun [Hconf _]]]].
  - intros k. split; [discriminate | reflexivity].
  - exists a, w'. split; [exact Hrun | exact Hconf].
Defined.

(** ** Authentication, permissions and the disaster routes *)

Section AuthFacts.

Import Auth.

Lemma own_user_In (userId : string) (table : list (string * AuthUser)) (u : AuthUser) :
  own_user userId table = Some u -> In (userId, u) table.
Proof.
  induction table as [|[k v] rest IH]; simpl; [discriminate |].
  destruct (String.eqb k userId) eqn:E.
  - apply String.eqb_eq in E. intros H. injection H as <-. left. now subst.
  - intros H. right. now apply IH.
Qed.


Lemma authMiddleware_status (headers : Headers) (status : Z) :
  authMiddleware headers = inl status -> status = 401.
Proof.
  unfold authMiddleware.
  destruct (match header_value (x_user_id headers) with
            | Some v => Some v
            | None => match authorization headers with
                      | Some a => header_value (Some (remove_first "Bearer " a))
                      | None => None
                      end
            end) as [userId|]; [| congruence].
  destruct (lookup_user userId); [discriminate | congruence].
Qed.


End AuthFacts.


(** X24. A PUT request never touches another row and never changes the
    owner of the row it names. It is answered 200 only when the caller
    is a known user holding the update permission and the row exists and
    is ownerless, owned by the caller, or the caller is an admin; a
    request answered otherwise leaves the table as it was. *)
Theorem put_respects_ownership
    (headers : Auth.Headers) (table : gmap string Audit.Disaster) (id : string)
    (body : Audit.UpdateBody) (today : Z) :
  let out := Auth.api_put headers table id body today in
  (forall other, other <> id -> snd out !! other = table !! other)
  /\ Audit.owner_id <$> (snd out !! id) = Audit.owner_id <$> (table !! id)
  /\ (fst out = 200 ->
      exists u row,
        Auth.authMiddleware headers = inr (Auth.KnownUser u)
        /\ Auth.hasPermission u "update" = true
        /\ table !! id = Some row
        /\ (Audit.owner_id row = "" \/ Audit.owner_id row = Auth.au_id u
            \/ Auth.au_role u = "admin"))
  /\ (fst out <> 200 -> snd out = table).
Proof.
  unfold Auth.api_put.
  destruct (Auth.authMiddleware headers) as [status | [u|]] eqn:Hauth.
  - apply authMiddleware_status in Hauth. subst status. cbn [fst snd].
    repeat split; try reflexivity; discriminate.
  - unfold Auth.requirePermission, Auth.hasPermission.
    destruct (MoreHelpers.array_includes (Auth.au_permissions u) "update") eqn:Hperm;
      [| cbn [fst snd]; repeat split; try reflexivity; discriminate].
    unfold Audit.put_disaster, Audit.put_prepare.
    destruct (table !! id) as [row|] eqn:Hrow;
      [| cbn [fst snd]; rewrite ?Hrow; repeat split; try reflexivity; discriminate].
    destruct (Audit.requireOwnership row (Auth.as_user u)) eqn:Hown;
      [| cbn [fst snd]; rewrite ?Hrow; repeat split; try reflexivity; discriminate].
    match goal with
    | |- context [match ?location with inl _ => inl 500 | inr l => _ end] =>
        destruct location as [message | point]
    end; [cbn [fst snd]; rewrite ?Hrow; repeat split; try reflexivity; discriminate |].
    unfold Audit.put_commit. rewrite Hrow.
    cbn [fst snd]. split; [| split; [| split]].
    + intros other Hne. now rewrite lookup_insert_ne.
    + now rewrite lookup_insert_eq.
    + intros _. exists u, row. repeat split; try reflexivity; try exact Hperm.
      unfold Audit.requireOwnership, Auth.as_user in Hown.
      cbn [Audit.user_id Audit.role] in Hown.
      destruct (String.eqb (Audit.owner_id row) "") eqn:E0;
        [left; now apply String.eqb_eq |].
      apply orb_true_iff in Hown as [H | H]; apply String.eqb_eq in H; auto.
    + intros H. now contradiction H.
  - cbn [Auth.requirePermission fst snd].
    repeat split; try reflexivity; discriminate.
Qed.

(** X25. Whoever created a disaster can afterwards update it exactly
    when they hold the update permission and the coordinates, where the
    request sends both, are numbers within range (sent as strings they
    pass validation and make [coordinatesToPoint] throw: the answer is
    500); and they can delete it exactly when they hold the delete
    permission. Creating a disaster gives its owner no right over it
    beyond these: citizen1 can never modify what they reported, and only
    netrunnerX can delete their own. This is for requests that the
    general limiter lets pass and that pass validation, with the
    database answering. *)
Theorem creator_rights_follow_permissions
    (window : Auth.Window) (headers : Auth.Headers)
    (table table1 : gmap string Audit.Disaster)
    (newId : string) (created : Audit.CreateBody) (changes : Audit.UpdateBody)
    (today later : Z) :
  Auth.api_post window headers table newId created today = (201, table1) ->
  exists u,
    Auth.authMiddleware headers = inr (Auth.KnownUser u)
    /\ Auth.hasPermission u "create" = true
    /\ Audit.owner_id <$> (table1 !! newId) = Some (Auth.au_id u)
    /\ (fst (Auth.api_put headers table1 newId changes later) = 200
        <-> Auth.hasPermission u "update" = true
            /\ (forall lat lng,
                   Audit.u_lat changes = Some lat ->
                   Audit.u_lng changes = Some lng ->
                   exists point, Audit.coordinatesToPoint lat lng = inr point))
    /\ (fst (Auth.api_delete headers table1 newId) = 200
        <-> Auth.hasPermission u "delete" = true).
Proof.
  unfold Auth.api_post, Auth.api_put, Auth.api_delete.
  destruct (Auth.generalLimiter window); [intros H; discriminate |].
  destruct (Auth.authMiddleware headers) as [status | [u|]] eqn:Hauth.
  - apply authMiddleware_status in Hauth. subst status. intros H. discriminate.
  - destruct (Auth.createDisasterLimiter window); [intros H; discriminate |].
    unfold Auth.requirePermission, Auth.hasPermission.
    destruct (MoreHelpers.array_includes (Auth.au_permissions u) "create") eqn:Hcreate;
      [| intros H; discriminate].
    unfold Audit.post_disaster.
    destruct (Audit.disasterData created (Auth.as_user u) today) as [message | row] eqn:Hdata;
      [intros H; discriminate |].
    intros H. injection H as <-.
    exists u. split; [reflexivity |]. split; [exact Hcreate |].
    assert (Hrow : (<[newId := row]> table) !! newId = Some row) by apply lookup_insert_eq.
    assert (Howner : Audit.owner_id row = Auth.au_id u).
    { unfold Audit.disasterData in Hdata.
      destruct (Audit.c_lat created) as [lat|], (Audit.c_lng created) as [lng|];
        try destruct (Audit.truthy_coord _ && Audit.truthy_coord _);
        try destruct (Audit.coordinatesToPoint lat lng);
        try discriminate; injection Hdata as <-; reflexivity. }
    assert (Hown : Audit.requireOwnership row (Auth.as_user u) = true).
    { unfold Audit.requireOwnership. rewrite Howner. cbn [Audit.user_id Auth.as_user].
      destruct (String.eqb (Auth.au_id u) ""); [reflexivity |].
      now rewrite String.eqb_refl. }
    split; [now rewrite Hrow, <- Howner |]. split.
    + destruct (MoreHelpers.array_includes (Auth.au_permissions u) "update");
        [| cbn [fst]; split; [discriminate | intros [H _]; discriminate]].
      unfold Audit.put_disaster, Audit.put_prepare. rewrite Hrow, Hown.
      destruct (Audit.u_lat changes) as [lat|], (Audit.u_lng changes) as [lng|];
        try (unfold Audit.put_commit; rewrite Hrow; cbn [fst];
             split; [intros _; split; [reflexivity | intros ? ? ? ?; discriminate]
                    | reflexivity]).
      destruct (Audit.coordinatesToPoint lat lng) as [message | point] eqn:Hpoint.
      * cbn [fst]. split; [discriminate |].
        intros [_ H]. destruct (H lat lng eq_refl eq_refl) as [p Hp].
        rewrite Hpoint in Hp. discriminate.
      * unfold Audit.put_commit. rewrite Hrow. cbn [fst].
        split; [| reflexivity]. intros _. split; [reflexivity |].
        intros lat' lng' Hlat Hlng. injection Hlat as <-. injection Hlng as <-.
        now exists point.
    + destruct (MoreHelpers.array_includes (Auth.au_permissions u) "delete");
        [| cbn [fst]; split; discriminate].
      unfold Auth.delete_disaster. rewrite Hrow, Hown. cbn [fst]. split; reflexivity.
  - destruct (Auth.createDisasterLimiter window); [intros H; discriminate |].
    cbn [Auth.requirePermission]. intros H. discriminate.
Qed.

Lemma creator_rights_follow_permissions_witness :
  fst (Auth.api_put MoreSamples.as_citizen1
         (snd (Auth.api_post MoreSamples.quiet MoreSamples.as_citizen1 ∅ "d1"
                 MoreSamples.report_flood 1))
         "d1" Samples.retitle 2)
  <> 200
  /\ fst (Auth.api_put MoreSamples.as_reliefAdmin
            (snd (Auth.api_post MoreSamples.quiet MoreSamples.as_reliefAdmin ∅ "d1"
                    MoreSamples.report_flood 1))
            "d1" MoreSamples.move_by_strings 2)
     <> 200.
Proof.
  split.
  - destruct (creator_rights_follow_permissions MoreSamples.quiet MoreSamples.as_citizen1 ∅
                (snd (Auth.api_post MoreSamples.quiet MoreSamples.as_citizen1 ∅ "d1"
                        MoreSamples.report_flood 1))
                "d1" MoreSamples.report_flood Samples.retitle 1 2 eq_refl)
      as [u [Hu [_ [_ [Hput _]]]]].
    injection Hu as <-. intros H. apply Hput in H as [H _]. discriminate.
  - destruct (creator_rights_follow_permissions MoreSamples.quiet MoreSamples.as_reliefAdmin ∅
                (snd (Auth.api_post MoreSamples.quiet MoreSamples.as_reliefAdmin ∅ "d1"
                        MoreSamples.report_flood 1))
                "d1" MoreSamples.report_flood MoreSamples.move_by_strings 1 2 eq_refl)
      as [u [_ [_ [_ [Hput _]]]]].
    intros H. apply Hput in H as [_ H].
    destruct (H _ _ eq_refl eq_refl) as [point Hpoint]. discriminate.
Defined.

(** X26. A user identifier that names a property every JavaScript
    object inherits (constructor, toString, __proto__, ...) is not
    answered 401: authentication lets it pass although it names no user.
    A POST of a disaster is then answered 429 when one of the two rate
    limiters before the permission check refuses it and 500 otherwise,
    never 403; a PUT or DELETE that the general limiter lets pass is
    answered 500; none changes anything. Every other identifier outside
    the user table is answered 401. *)
Theorem inherited_names_pass_authentication
    (userId : string) (authorization : option string) :
  userId <> "" ->
  ~ In userId (map fst Auth.mockUsers) ->
  let headers := {| Auth.x_user_id := Some userId; Auth.authorization := authorization |} in
  (In userId Auth.prototype_properties ->
     Auth.authMiddleware headers = inr Auth.PrototypeValue
     /\ (forall window table newId body today,
            Auth.api_post window headers table newId body today
            = (if Auth.generalLimiter window || Auth.createDisasterLimiter window
               then 429 else 500,
               table))
     /\ (forall table id body today,
            Auth.api_put headers table id body today = (500, table))
     /\ (forall table id, Auth.api_delete headers table id = (500, table)))
  /\ (~ In userId Auth.prototype_properties -> Auth.authMiddleware headers = inl 401).
Proof.
  intros Hne Hunknown headers.
  assert (Hid : Auth.authMiddleware headers
                = match Auth.lookup_user userId with
                  | Some user => inr user
                  | None => inl 401
                  end).
  { unfold Auth.authMiddleware, headers, Auth.header_value. cbn [Auth.x_user_id].
    apply String.eqb_neq in Hne. now rewrite Hne. }
  assert (Hown : Auth.own_user userId Auth.mockUsers = None).
  { destruct (Auth.own_user userId Auth.mockUsers) as [u|] eqn:E; [| reflexivity].
    exfalso. apply Hunknown. apply own_user_In in E.
    apply in_map_iff. now exists (userId, u). }
  unfold Auth.lookup_user in Hid. rewrite Hown in Hid.
  split.
  - intros Hin. apply array_includes_In in Hin. rewrite Hin in Hid.
    unfold Auth.api_post, Auth.api_put, Auth.api_delete. rewrite Hid.
    cbn [Auth.requirePermission]. repeat split.
    intros window table newId body today.
    destruct (Auth.generalLimiter window), (Auth.createDisasterLimiter window);
      reflexivity.
  - intros Hnot.
    destruct (MoreHelpers.array_includes Auth.prototype_properties userId) eqn:E;
      [| exact Hid].
    exfalso. apply Hnot. now apply array_includes_In.
Qed.

Lemma inherited_names_pass_authentication_witness :
  Auth.api_post MoreSamples.busy
    {| Auth.x_user_id := Some "constructor"; Auth.authorization := None |}
    ∅ "d1" MoreSamples.report_flood 1
  = (429, ∅)
  /\ Auth.authMiddleware {| Auth.x_user_id := Some "nobody"; Auth.authorization := None |}
     = inl 401.
Proof.
  split.
  - destruct (inherited_names_pass_authentication "constructor" None) as [Hpass _].
    + discriminate.
    + simpl. intros [H | [H | [H | [H | []]]]]; discriminate.
    + destruct Hpass as [_ [Hpost _]]; [simpl; tauto |].
      rewrite Hpost. reflexivity.
  - apply (inherited_names_pass_authentication "nobody" None).
    + discriminate.
    + simpl. intros [H | [H | [H | [H | []]]]]; discriminate.
    + simpl. intros H.
      repeat (destruct H as [H | H]; [discriminate |]). exact H.
Defined.

(** ** Mock official updates and link resolution *)

From Stdlib Require Import Sorted.

Section MockUpdatesFacts.

Lemma sorted_filter {A} (R : A -> A -> Prop) (f : A -> bool) (l : list A) :
  StronglySorted R l -> StronglySorted R (List.filter f l).
Proof.
  induction 1 as [|x l Hl IH Hx]; simpl; [constructor |].
  destruct (f x); [| exact IH].
  constructor; [exact IH |].
  apply List.Forall_forall. intros y Hy. apply filter_In in Hy as [Hy _].
  revert y Hy. now apply List.Forall_forall.
Qed.

Lemma mockUpdates_newest_first (today : Z) :
  StronglySorted (fun u v => publishedAt v < publishedAt u)
                 (OfficialUpdates.mockUpdates today).
Proof.
  unfold OfficialUpdates.mockUpdates, OfficialUpdates.canned.
  repeat (constructor; [| repeat constructor; cbn [publishedAt]; lia]).
  constructor.
Qed.

End MockUpdatesFacts.

(** X27. The mock official updates returned are, in their original
    newest-first order, exactly the canned updates whose title or content
    contains one of the keywords case-insensitively, and all of them
    when no keyword is given; the count reported is their number, and
    the world is left as it was. *)
Theorem mock_updates_keyword_filter
    (keywords : list string) (disasterId : option string) (w : World) :
  exists r,
    OfficialUpdates._fetchMockUpdates keywords disasterId w = (Return r, w)
    /\ u_disasterId r = disasterId
    /\ u_totalFound r = Z.of_nat (length (updates r))
    /\ (forall u,
          In u (updates r) <->
          In u (OfficialUpdates.mockUpdates (clock w))
          /\ (keywords = []
              \/ exists kw, In kw keywords
                            /\ (occurs_ci kw (up_title u) \/ occurs_ci kw (up_content u))))
    /\ sublist (updates r) (OfficialUpdates.mockUpdates (clock w))
    /\ StronglySorted (fun u v => publishedAt v < publishedAt u) (updates r).
Proof.
  eexists. split; [unfold OfficialUpdates._fetchMockUpdates, bind, now, ret; reflexivity |].
  cbn [updates u_disasterId u_totalFound].
  split; [reflexivity |]. split; [reflexivity |].
  pose proof (mockUpdates_newest_first (clock w)) as Hsorted.
  revert Hsorted. generalize (OfficialUpdates.mockUpdates (clock w)). intros canned Hsorted.
  split; [| split].
  - intros u. destruct keywords as [|k ks].
    + cbn [length Z.of_nat Z.ltb Z.compare].
      split; [intros H; split; [exact H | now left] | intros [H _]; exact H].
    + replace (0 <? Z.of_nat (length (k :: ks))) with true
        by (symmetry; apply Z.ltb_lt; cbn [length]; lia).
      rewrite filter_In, existsb_exists. split.
      * intros [Hin [kw [Hkw Hp]]]. split; [exact Hin |]. right.
        exists kw. split; [exact Hkw |].
        apply orb_true_iff in Hp as [Hp | Hp]; [left | right];
          now apply present_iff_occurs.
      * intros [Hin [Hk | [kw [Hkw Hocc]]]]; [discriminate |].
        split; [exact Hin |]. exists kw. split; [exact Hkw |].
        apply orb_true_iff.
        destruct Hocc as [Hocc | Hocc]; [left | right]; now apply present_iff_occurs.
  - destruct (0 <? Z.of_nat (length keywords)); [apply filter_sublist | reflexivity].
  - destruct (0 <? Z.of_nat (length keywords)); [now apply sorted_filter | exact Hsorted].
Qed.

(** X28. For each of the three configured sources, a missing or empty
    link resolves to the source's own URL, a link that starts with http
    is kept as it is, a link that starts with a slash is put behind the
    source's origin, and any other link behind the source's URL and a
    slash. So the resolved link is an absolute URL except when the link
    starts with http without being one (httpfoo/page.html, say): such a
    relative link is returned unresolved. *)
Theorem resolved_link_absolute_iff
    (source : OfficialUpdates.Source) (link : option string) :
  In source OfficialUpdates.sources ->
  (link = None \/ link = Some "" ->
     OfficialUpdates._resolveUrl link source = OfficialUpdates.src_url source)
  /\ (forall l, link = Some l -> startsWith l "http" = true ->
                OfficialUpdates._resolveUrl link source = l)
  /\ (forall l, link = Some ("/" ++ l) ->
                OfficialUpdates._resolveUrl link source
                = OfficialUpdates.origin source ++ "/" ++ l)
  /\ (forall l, link = Some l -> l <> "" ->
                startsWith l "http" = false -> startsWith l "/" = false ->
                OfficialUpdates._resolveUrl link source
                = OfficialUpdates.src_url source ++ "/" ++ l)
  /\ (Frames.absolute (OfficialUpdates._resolveUrl link source) = false
      <-> exists l, link = Some l /\ startsWith l "http" = true
                    /\ Frames.absolute l = false).
Proof.
  intros Hin. split; [| split; [| split; [| split]]].
  - intros [-> | ->]; reflexivity.
  - intros l -> Hhttp. unfold OfficialUpdates._resolveUrl. rewrite Hhttp.
    destruct (String.eqb l "") eqn:E; [| reflexivity].
    apply String.eqb_eq in E. subst l. discriminate.
  - intros l ->. reflexivity.
  - intros l -> Hne Hhttp Hslash. unfold OfficialUpdates._resolveUrl.
    rewrite Hhttp, Hslash. apply String.eqb_neq in Hne. rewrite Hne.
    simpl in Hin.
    destruct Hin as [<- | [<- | [<- | []]]]; reflexivity.
  - assert (Hresolved :
              forall l, link = Some l -> startsWith l "http" = true ->
                        OfficialUpdates._resolveUrl link source = l).
    { intros l -> Hhttp. unfold OfficialUpdates._resolveUrl. rewrite Hhttp.
      destruct (String.eqb l "") eqn:E; [| reflexivity].
      apply String.eqb_eq in E. subst l. discriminate. }
    split.
    + intros Hrel. destruct link as [l|].
      * destruct (startsWith l "http") eqn:Hhttp.
        -- exists l. rewrite (Hresolved l eq_refl Hhttp) in Hrel. now repeat split.
        -- exfalso. revert Hrel. unfold OfficialUpdates._resolveUrl. rewrite Hhttp.
           simpl in Hin.
           destruct Hin as [<- | [<- | [<- | []]]];
             destruct (String.eqb l ""); try discriminate;
             destruct (startsWith l "/"); discriminate.
      * exfalso. revert Hrel. simpl in Hin.
        destruct Hin as [<- | [<- | [<- | []]]]; discriminate.
    + intros [l [-> [Hhttp Hrel]]]. now rewrite (Hresolved l eq_refl Hhttp).
Qed.

Lemma resolved_link_absolute_iff_witness :
  OfficialUpdates._resolveUrl (Some "/disaster/4700") MoreSamples.fema
  = "https://www.fema.gov/disaster/4700"
  /\ OfficialUpdates._resolveUrl (Some "httpfoo/page.html") MoreSamples.fema
     = "httpfoo/page.html".
Proof.
  split.
  - destruct (resolved_link_absolute_iff MoreSamples.fema (Some "/disaster/4700")
                (or_introl eq_refl)) as [_ [_ [Hslash _]]].
    exact (Hslash "disaster/4700" eq_refl).
  - destruct (resolved_link_absolute_iff MoreSamples.fema (Some "httpfoo/page.html")
                (or_introl eq_refl)) as [_ [Hkept _]].
    exact (Hkept "httpfoo/page.html" eq_refl eq_refl).
Defined.
